(** * fullrmc: pair-correlation constraints

    A shallow embedding of the move/amputation transaction code of
    [Constraints/PairDistributionConstraints.py] and
    [Constraints/StructureFactorConstraints.py], and the properties of the
    constraint engine that are proved about it.

    Conventions of the embedding.
    - A Python object is a record; [self] and [self.engine] are threaded
      explicitly through a state-and-exception monad, so that what a method
      has already written stays written when it raises.
    - numpy floating point numbers are an abstract type [R] with the
      operations the code uses (class [Num]); nothing is assumed about them,
      so every statement proved for all [R] holds for IEEE arithmetic as
      well.  Statements that need exact arithmetic say so by a hypothesis.
    - numpy arrays are lists; an element-wise operation on two arrays of
      different length raises, as numpy does for shapes that cannot be
      combined.  Every histogram has shape numberOfElements x
      numberOfElements x histSize and every observable has length histSize,
      so that the broadcasts of the code are the one of a scalar, the one
      of the column [Gr.reshape((-1,1))] in [_get_Sq_from_Gr] and the one
      of a single row of candidate coordinates assigned to several atoms
      in [compute_after_move]; they are written out where they occur. *)

From stdpp Require Import base gmap strings list fin_maps.
From Stdlib Require Import ZArith.
From Stdlib Require QArith Qcanon Qround.
From Stdlib Require SpecFloat.

(** ** Numbers *)

(** The arithmetic of [FLOAT_TYPE] values as the code uses it. *)
Class Num (R : Type) : Type := {
  of_Z : Z → R;              (* an integer or a float literal as a float *)
  add : R → R → R;
  sub : R → R → R;
  mul : R → R → R;
  div : R → R → R;
  eqb : R → R → bool;        (* Python [==] *)
  ltb : R → R → bool;        (* Python [<]  *)
  leb : R → R → bool;        (* Python [<=] *)
  FLOAT_TYPE : R → R;        (* the cast [FLOAT_TYPE(x)], [x.astype(FLOAT_TYPE)] *)
  PI : R                     (* [fullrmc.Globals.PI] *)
}.

(** ** Exceptions and outcomes *)

Inductive exn : Type :=
  | IndexError
  | KeyError
  | TypeError
  | ValueError
  | AttributeError
  | NumericDegeneracy
  | ExternalError.

Inductive outcome (A : Type) : Type :=
  | Return (a : A)
  | Raise (e : exn).
Arguments Return {A} a.
Arguments Raise {A} e.

Definition of_option {A} (e : exn) (o : option A) : outcome A :=
  match o with
  | Some a => Return a
  | None => Raise e
  end.

Definition outcome_bind {A B} (f : A → outcome B) (o : outcome A) : outcome B :=
  match o with
  | Return a => f a
  | Raise e => Raise e
  end.

#[global] Instance outcome_ret : MRet outcome := λ A a, Return a.
#[global] Instance outcome_mbind : MBind outcome := λ A B f o, outcome_bind f o.

(** ** Arrays *)

Section arrays.
Context {R : Type} `{Num R}.

(** [np.zeros(n)] *)
Definition zeros (n : nat) : list R := replicate n (of_Z 0).

(** Element-wise [a op b] on two arrays of one shape. *)
Fixpoint vzip {A B C} (f : A → B → outcome C) (xs : list A) (ys : list B)
  : outcome (list C) :=
  match xs, ys with
  | [], [] => Return []
  | x :: xs', y :: ys' =>
      z ← f x y; zs ← vzip f xs' ys'; Return (z :: zs)
  | _, _ => Raise ValueError
  end.

Definition vop (f : R → R → R) (xs ys : list R) : outcome (list R) :=
  vzip (λ x y, Return (f x y)) xs ys.
Definition vadd := vop add.
Definition vsub := vop sub.
Definition vmul := vop mul.
Definition vdiv := vop div.

(** [np.sum(a)], [np.add.reduce(a)]; the order in which numpy adds the
    terms is not modelled. *)
Definition vsum (xs : list R) : R := foldl add (of_Z 0) xs.

(** A matrix [a[i,:]] and a three-dimensional array [a[i,j,:]]. *)
Definition arr2 : Type := list (list R).
Definition arr3 : Type := list (list (list R)).

Definition arr2_op (f : R → R → R) : arr2 → arr2 → outcome arr2 :=
  vzip (vop f).
Definition arr3_op (f : R → R → R) : arr3 → arr3 → outcome arr3 :=
  vzip (arr2_op f).

(** [a[i,j,:]] *)
Definition row (a : arr3) (i j : nat) : outcome (list R) :=
  of_option IndexError (a !! i ≫= (.!! j)).

(** The dictionary [{"intra": intra, "inter": inter}]. *)
Record Hist : Type := mkHist { intra : arr3; inter : arr3 }.

(** [{"intra": a["intra"] op b["intra"], "inter": a["inter"] op b["inter"]}] *)
Definition hist_op (f : R → R → R) (a b : Hist) : outcome Hist :=
  i ← arr3_op f (intra a) (intra b);
  e ← arr3_op f (inter a) (inter b);
  Return (mkHist i e).
Definition hist_sub := hist_op sub.
Definition hist_add := hist_op add.
End arrays.
Arguments arr2 R : clear implicits.
Arguments arr3 R : clear implicits.
Arguments Hist R : clear implicits.

(** ** The engine and the constraint *)

(** The class of the constraint object; methods the classes define
    differently dispatch on it. *)
Inductive Kind : Type :=
  | PairDistributionConstraint
  | StructureFactorConstraint
  | ReducedStructureFactorConstraint.

(** The engine's attributes the constraint reads.  [boxCoordinates] and
    [numberOfAtomsPerElement] are the engine's own array and dictionary (the
    constraint writes to them in place); a row of [boxCoordinates] is a
    [coord], a triple of [FLOAT_TYPE] numbers. *)
Record Engine (R coord : Type) : Type := mkEngine {
  boxCoordinates : list coord;
  numberOfAtomsPerElement : gmap string Z;
  basisVectors : list coord;
  isPBC : bool;
  moleculesIndex : list nat;
  elementsIndex : list nat;
  numberOfElements : nat;
  elements : list string;
  allElements : list string;
  numberOfAtoms : Z;
  volume : R;
  numberDensity : R;
  _runtime_ncores : nat;
  allowFittingScaleFactor : bool;   (* [_RT_moveGenerator.allowFittingScaleFactor] *)
  generated : Z                     (* number of generated moves *)
}.
Arguments mkEngine {R coord}.
Arguments boxCoordinates {R coord}.
Arguments numberOfAtomsPerElement {R coord}.
Arguments basisVectors {R coord}.
Arguments isPBC {R coord}.
Arguments moleculesIndex {R coord}.
Arguments elementsIndex {R coord}.
Arguments numberOfElements {R coord}.
Arguments elements {R coord}.
Arguments allElements {R coord}.
Arguments numberOfAtoms {R coord}.
Arguments volume {R coord}.
Arguments numberDensity {R coord}.
Arguments _runtime_ncores {R coord}.
Arguments allowFittingScaleFactor {R coord}.
Arguments generated {R coord}.

(** The attributes of the constraint that the transaction methods only
    read: what is derived from the experimental data and the set-up. *)
Record Config (R : Type) : Type := mkConfig {
  kind : Kind;
  experimentalY : list R;            (* [__experimentalPDF], [__experimentalSF] *)
  _usedDataWeights : option (list R);
  shellCenters : list R;
  shellVolumes : list R;
  histogramSize : nat;
  minimumDistance : R;
  maximumDistance : R;
  bin : R;
  elementsPairs : list (string * string);
  _elementsWeight : gmap string R;
  _shapeArray : option (list R);
  windowFunction : option (list R);
  Gr2SqMatrix : list (list R);
  adjustScaleFactorMinimum : R;
  adjustScaleFactorMaximum : R
}.
Arguments mkConfig {R}.
Arguments kind {R}.
Arguments experimentalY {R}.
Arguments _usedDataWeights {R}.
Arguments shellCenters {R}.
Arguments shellVolumes {R}.
Arguments histogramSize {R}.
Arguments minimumDistance {R}.
Arguments maximumDistance {R}.
Arguments bin {R}.
Arguments elementsPairs {R}.
Arguments _elementsWeight {R}.
Arguments _shapeArray {R}.
Arguments windowFunction {R}.
Arguments Gr2SqMatrix {R}.
Arguments adjustScaleFactorMinimum {R}.
Arguments adjustScaleFactorMaximum {R}.

(** The attributes the transaction methods assign.  [None] is Python's
    [None]; [_fittedScaleFactor] is [None] until it is first assigned. *)
Record Constraint (R : Type) : Type := mkConstraint {
  data : option (Hist R);
  originalData : option (Hist R);
  activeAtomsDataBeforeMove : option (Hist R);
  activeAtomsDataAfterMove : option (Hist R);
  standardError : option R;
  afterMoveStandardError : option R;
  amputationData : option (Hist R * gmap string R);
  amputationStandardError : option R;
  scaleFactor : R;
  _fittedScaleFactor : option R;
  adjustScaleFactorFrequency : Z;
  weightingScheme : gmap string R
}.
Arguments mkConstraint {R}.
Arguments data {R}.
Arguments originalData {R}.
Arguments activeAtomsDataBeforeMove {R}.
Arguments activeAtomsDataAfterMove {R}.
Arguments standardError {R}.
Arguments afterMoveStandardError {R}.
Arguments amputationData {R}.
Arguments amputationStandardError {R}.
Arguments scaleFactor {R}.
Arguments _fittedScaleFactor {R}.
Arguments adjustScaleFactorFrequency {R}.
Arguments weightingScheme {R}.

Record State (R coord : Type) : Type := mkState {
  engine : Engine R coord;
  cfg : Config R;
  self : Constraint R
}.
Arguments mkState {R coord}.
Arguments engine {R coord}.
Arguments cfg {R coord}.
Arguments self {R coord}.

(** ** The monad of a method call: state passing with exceptions *)

Definition M (R coord A : Type) : Type :=
  State R coord → outcome A * State R coord.

#[global] Instance M_ret {R coord} : MRet (M R coord) := λ A a s, (Return a, s).
#[global] Instance M_bind {R coord} : MBind (M R coord) := λ A B f m s,
  match m s with
  | (Return a, s') => f a s'
  | (Raise e, s') => (Raise e, s')
  end.

Section monad_ops.
Context {R coord : Type}.

Definition get : M R coord (State R coord) := λ s, (Return s, s).
Definition gets {A} (f : State R coord → A) : M R coord A := λ s, (Return (f s), s).
Definition modify (f : State R coord → State R coord) : M R coord () :=
  λ s, (Return (), f s).
Definition raise {A} (e : exn) : M R coord A := λ s, (Raise e, s).
(** The result of a computation that has no effect on the objects. *)
Definition lift {A} (o : outcome A) : M R coord A := λ s, (o, s).
(** [x[...]] on a value that may be [None]. *)
Definition subscript {A} (o : option A) : M R coord A := lift (of_option TypeError o).

Definition with_engine (f : Engine R coord → Engine R coord) (s : State R coord)
  : State R coord := mkState (f (engine s)) (cfg s) (self s).
Definition with_self (f : Constraint R → Constraint R) (s : State R coord)
  : State R coord := mkState (engine s) (cfg s) (f (self s)).
End monad_ops.

(** ** What the constraint imports *)

(** The compiled histogram kernels of [fullrmc.Core.pairs_histograms] and
    [pdbParser]'s [get_normalized_weighting], with the keyword arguments of
    the calls in the order the code writes them.  A kernel returns the pair
    [(intra, inter)] or raises. *)
Class External (R coord : Type) : Type := {
  multiple_pairs_histograms_coords :
    ∀ (indexes : list nat) (boxCoords basis : list coord) (pbc : bool)
      (moleculeIndex elementIndex : list nat) (nElements : nat)
      (minDistance maxDistance : R) (histSize : nat) (binSize : R)
      (allAtoms : bool) (ncores : nat), outcome (arr3 R * arr3 R);
  full_pairs_histograms_coords :
    ∀ (boxCoords basis : list coord) (pbc : bool)
      (moleculeIndex elementIndex : list nat) (nElements : nat)
      (minDistance maxDistance : R) (histSize : nat) (binSize : R)
      (ncores : nat), outcome (arr3 R * arr3 R);
  get_normalized_weighting :
    ∀ (numbers : gmap string Z) (weights : gmap string R), outcome (gmap string R)
}.

(** ** Attribute assignment *)

Section setters.
Context {R coord : Type}.
Local Abbreviation Mth := (M R coord).

(** Modelled from the spec: [ExperimentalConstraint.set_data] of
    [fullrmc.Core.Constraint], which assigns the attribute. *)
Definition set_data (v : option (Hist R)) : Mth () :=
  modify (with_self (λ c,
    mkConstraint v (originalData c) (activeAtomsDataBeforeMove c)
      (activeAtomsDataAfterMove c) (standardError c)
      (afterMoveStandardError c) (amputationData c)
      (amputationStandardError c) (scaleFactor c) (_fittedScaleFactor c)
      (adjustScaleFactorFrequency c) (weightingScheme c))).

(** Modelled from the spec: [ExperimentalConstraint.set_active_atoms_data_before_move] of
    [fullrmc.Core.Constraint], which assigns the attribute. *)
Definition set_active_atoms_data_before_move (v : option (Hist R)) : Mth () :=
  modify (with_self (λ c,
    mkConstraint (data c) (originalData c) v (activeAtomsDataAfterMove c)
      (standardError c) (afterMoveStandardError c) (amputationData c)
      (amputationStandardError c) (scaleFactor c) (_fittedScaleFactor c)
      (adjustScaleFactorFrequency c) (weightingScheme c))).

(** Modelled from the spec: [ExperimentalConstraint.set_active_atoms_data_after_move] of
    [fullrmc.Core.Constraint], which assigns the attribute. *)
Definition set_active_atoms_data_after_move (v : option (Hist R)) : Mth () :=
  modify (with_self (λ c,
    mkConstraint (data c) (originalData c) (activeAtomsDataBeforeMove c) v
      (standardError c) (afterMoveStandardError c) (amputationData c)
      (amputationStandardError c) (scaleFactor c) (_fittedScaleFactor c)
      (adjustScaleFactorFrequency c) (weightingScheme c))).

(** Modelled from the spec: [ExperimentalConstraint.set_standard_error] of
    [fullrmc.Core.Constraint], which assigns the attribute. *)
Definition set_standard_error (v : option R) : Mth () :=
  modify (with_self (λ c,
    mkConstraint (data c) (originalData c) (activeAtomsDataBeforeMove c)
      (activeAtomsDataAfterMove c) v (afterMoveStandardError c)
      (amputationData c) (amputationStandardError c) (scaleFactor c)
      (_fittedScaleFactor c) (adjustScaleFactorFrequency c)
      (weightingScheme c))).

(** Modelled from the spec: [ExperimentalConstraint.set_after_move_standard_error] of
    [fullrmc.Core.Constraint], which assigns the attribute. *)
Definition set_after_move_standard_error (v : option R) : Mth () :=
  modify (with_self (λ c,
    mkConstraint (data c) (originalData c) (activeAtomsDataBeforeMove c)
      (activeAtomsDataAfterMove c) (standardError c) v (amputationData c)
      (amputationStandardError c) (scaleFactor c) (_fittedScaleFactor c)
      (adjustScaleFactorFrequency c) (weightingScheme c))).

(** Modelled from the spec: [ExperimentalConstraint.set_amputation_data] of
    [fullrmc.Core.Constraint], which assigns the attribute. *)
Definition set_amputation_data (v : option (Hist R * gmap string R)) : Mth () :=
  modify (with_self (λ c,
    mkConstraint (data c) (originalData c) (activeAtomsDataBeforeMove c)
      (activeAtomsDataAfterMove c) (standardError c)
      (afterMoveStandardError c) v (amputationStandardError c)
      (scaleFactor c) (_fittedScaleFactor c) (adjustScaleFactorFrequency c)
      (weightingScheme c))).

(** Modelled from the spec: [ExperimentalConstraint.set_amputation_standard_error] of
    [fullrmc.Core.Constraint], which assigns the attribute. *)
Definition set_amputation_standard_error (v : option R) : Mth () :=
  modify (with_self (λ c,
    mkConstraint (data c) (originalData c) (activeAtomsDataBeforeMove c)
      (activeAtomsDataAfterMove c) (standardError c)
      (afterMoveStandardError c) (amputationData c) v (scaleFactor c)
      (_fittedScaleFactor c) (adjustScaleFactorFrequency c)
      (weightingScheme c))).

(** Modelled from the spec: [ExperimentalConstraint._set_fitted_scale_factor_value] of
    [fullrmc.Core.Constraint], which assigns the attribute. *)
Definition _set_fitted_scale_factor_value (v : R) : Mth () :=
  modify (with_self (λ c,
    mkConstraint (data c) (originalData c) (activeAtomsDataBeforeMove c)
      (activeAtomsDataAfterMove c) (standardError c)
      (afterMoveStandardError c) (amputationData c)
      (amputationStandardError c) v (_fittedScaleFactor c)
      (adjustScaleFactorFrequency c) (weightingScheme c))).

(** Modelled from the spec: [ExperimentalConstraint._set_adjust_scale_factor_frequency] of
    [fullrmc.Core.Constraint], which assigns the attribute. *)
Definition _set_adjust_scale_factor_frequency (v : Z) : Mth () :=
  modify (with_self (λ c,
    mkConstraint (data c) (originalData c) (activeAtomsDataBeforeMove c)
      (activeAtomsDataAfterMove c) (standardError c)
      (afterMoveStandardError c) (amputationData c)
      (amputationStandardError c) (scaleFactor c) (_fittedScaleFactor c) v
      (weightingScheme c))).

(** Modelled from the spec: [ExperimentalConstraint._set_original_data] of
    [fullrmc.Core.Constraint], which assigns the attribute. *)
Definition _set_original_data (v : option (Hist R)) : Mth () :=
  modify (with_self (λ c,
    mkConstraint (data c) v (activeAtomsDataBeforeMove c) (activeAtomsDataAfterMove c)
      (standardError c) (afterMoveStandardError c) (amputationData c)
      (amputationStandardError c) (scaleFactor c) (_fittedScaleFactor c)
      (adjustScaleFactorFrequency c) (weightingScheme c))).

(** [self._fittedScaleFactor = v] *)
Definition assign_fittedScaleFactor (v : option R) : Mth () :=
  modify (with_self (λ c,
    mkConstraint (data c) (originalData c) (activeAtomsDataBeforeMove c)
      (activeAtomsDataAfterMove c) (standardError c)
      (afterMoveStandardError c) (amputationData c)
      (amputationStandardError c) (scaleFactor c) v
      (adjustScaleFactorFrequency c) (weightingScheme c))).

(** [self.__weightingScheme = v] *)
Definition assign_weightingScheme (v : gmap string R) : Mth () :=
  modify (with_self (λ c,
    mkConstraint (data c) (originalData c) (activeAtomsDataBeforeMove c)
      (activeAtomsDataAfterMove c) (standardError c)
      (afterMoveStandardError c) (amputationData c)
      (amputationStandardError c) (scaleFactor c) (_fittedScaleFactor c)
      (adjustScaleFactorFrequency c) v)).

(** [self.engine.boxCoordinates[...] = ...] leaves the array [v] in the
    engine. *)
Definition assign_boxCoordinates (v : list coord) : Mth () :=
  modify (with_engine (λ e,
    mkEngine v (numberOfAtomsPerElement e) (basisVectors e) (isPBC e)
      (moleculesIndex e) (elementsIndex e) (numberOfElements e) (elements e)
      (allElements e) (numberOfAtoms e) (volume e) (numberDensity e)
      (_runtime_ncores e) (allowFittingScaleFactor e) (generated e))).

(** [self.engine.numberOfAtomsPerElement[...] = ...] leaves the dictionary
    [v] in the engine. *)
Definition assign_numberOfAtomsPerElement (v : gmap string Z) : Mth () :=
  modify (with_engine (λ e,
    mkEngine (boxCoordinates e) v (basisVectors e) (isPBC e) (moleculesIndex e)
      (elementsIndex e) (numberOfElements e) (elements e) (allElements e)
      (numberOfAtoms e) (volume e) (numberDensity e) (_runtime_ncores e)
      (allowFittingScaleFactor e) (generated e))).
End setters.

(** ** The scale factor *)

Section scale_factor.
Context {R coord : Type} `{Num R}.
Local Abbreviation Mth := (M R coord).

(** Clamping to [[lo, hi]]. *)
Definition clamp (lo hi x : R) : R :=
  if ltb x lo then lo else if ltb hi x then hi else x.

(** Modelled from the spec: [ExperimentalConstraint.fit_scale_factor] of
    [fullrmc.Core.Constraint]: the least-squares minimizer
    [sum W*Y*F / sum W*F^2] clamped to the bounds, [W] being 1 when there
    are no data weights; a zero denominator is the fatal
    NumericDegeneracy. *)
Definition fit_scale_factor (lo hi : R) (experimentalData modelData : list R)
    (dataWeights : option (list R)) : outcome R :=
  yf ← vmul experimentalData modelData;
  ff ← vmul modelData modelData;
  num ← match dataWeights with
        | None => Return yf
        | Some w => vmul w yf
        end;
  den ← match dataWeights with
        | None => Return ff
        | Some w => vmul w ff
        end;
  if eqb (vsum den) (of_Z 0) then Raise NumericDegeneracy
  else Return (clamp lo hi (div (vsum num) (vsum den))).

(** Modelled from the spec: the frequency counter of the scale factor
    policy.  A frequency of 0 is a fixed scale factor; otherwise a refit is
    due every [frequency] generated moves. *)
Definition refit_due (frequency counter : Z) : bool :=
  negb (frequency =? 0)%Z && (counter `mod` frequency =? 0)%Z.

(** Modelled from the spec:
    [ExperimentalConstraint.get_adjusted_scale_factor] of
    [fullrmc.Core.Constraint]: the fitted scale factor when a refit is due
    this step, the accepted scale factor otherwise. *)
Definition get_adjusted_scale_factor (experimentalData modelData : list R)
    (dataWeights : option (list R)) : Mth R :=
  s ← get;
  if refit_due (adjustScaleFactorFrequency (self s)) (generated (engine s))
  then lift (fit_scale_factor (adjustScaleFactorMinimum (cfg s))
               (adjustScaleFactorMaximum (cfg s))
               experimentalData modelData dataWeights)
  else mret (scaleFactor (self s)).
End scale_factor.

(** ** numpy's convolution *)

Section convolve.
Context {R : Type} `{Num R}.

(** [multiarray.correlate(a, w, 'same')] for [len(a) >= len(w)]: entry [k]
    is the dot product of [w] with the window of [a] that starts
    [len(w)/2] places left of [k], over the positions inside [a]. *)
Definition correlate_same (a w : list R) : list R :=
  let n_left := (length w / 2)%nat in
  (λ k : nat,
     vsum (omap (λ j : nat,
                   if decide (n_left ≤ k + j)%nat
                   then x ← a !! (k + j - n_left)%nat; y ← w !! j; Some (mul x y)
                   else None)
                (seq 0 (length w))))
  <$> seq 0 (length a).

(** [np.convolve(a, v, 'same')] *)
Definition convolve_same (a v : list R) : outcome (list R) :=
  let '(a, v) := if decide (length a < length v)%nat then (v, a) else (a, v) in
  if decide (length a = 0)%nat then Raise ValueError
  else if decide (length v = 0)%nat then Raise ValueError
  else Return (correlate_same a (reverse v)).
End convolve.

(** ** From histograms to the observable *)

Section transform.
Context {R coord : Type} `{Num R}.
Local Abbreviation Mth := (M R coord).
Implicit Types (s : State R coord) (d : Hist R) (pair : string * string).

(** A [for] loop that updates an accumulator and may raise. *)
Fixpoint foldlM {A B} (f : A → B → outcome A) (a : A) (l : list B) : outcome A :=
  match l with
  | [] => Return a
  | x :: l' => a' ← f a x; foldlM f a' l'
  end.

(** [m[k]] on a dictionary *)
Definition dict_get {K A} `{Countable K} (m : gmap K A) (k : K) : outcome A :=
  of_option KeyError (m !! k).

(** [l.index(x)] *)
Definition index (l : list string) (x : string) : outcome nat :=
  of_option ValueError (fst <$> list_find (λ y, y = x) l).

(** [wij = ws.get(a+"-"+b, None)], and [ws[b+"-"+a]] when that is [None]. *)
Definition pair_weight (ws : gmap string R) pair : outcome R :=
  match ws !! (pair.1 +:+ "-" +:+ pair.2) with
  | Some w => Return w
  | None => dict_get ws (pair.2 +:+ "-" +:+ pair.1)
  end.

(** The [if idi == idj: ... else: ...] of [__get_total_Gr] and
    [__get_total_Sq]: the expected number of pairs [Nij] and the counted
    pairs [nij] of one entry of [elementsPairs]. *)
Definition pair_counts d (idi idj : nat) (ni nj : Z) : outcome (R * list R) :=
  if decide (idi = idj) then
    let Nij := div (of_Z (ni * (ni - 1))) (of_Z 2) in
    a ← row (intra d) idi idj;
    b ← row (inter d) idi idj;
    nij ← vadd a b;
    Return (Nij, nij)
  else
    let Nij := of_Z (ni * nj) in
    a ← row (intra d) idi idj;
    b ← row (intra d) idj idi;
    c ← row (inter d) idi idj;
    e ← row (inter d) idj idi;
    ab ← vadd a b;
    abc ← vadd ab c;
    nij ← vadd abc e;
    Return (Nij, nij).

(** The body of the loop over [elementsPairs] of [__get_total_Gr]
    ([castD] is [FLOAT_TYPE]) and of [__get_total_Sq] ([castD] is the
    identity: [Dij] is not cast there). *)
Definition total_step (castD : R → R) s d (Gr : list R) pair : outcome (list R) :=
  wij ← pair_weight (weightingScheme (self s)) pair;
  ni ← dict_get (numberOfAtomsPerElement (engine s)) pair.1;
  nj ← dict_get (numberOfAtomsPerElement (engine s)) pair.2;
  idi ← index (elements (engine s)) pair.1;
  idj ← index (elements (engine s)) pair.2;
  '(Nij, nij) ← pair_counts d idi idj ni nj;
  let Dij := castD (div Nij (volume (engine s))) in
  vadd Gr ((λ x, div (mul wij x) Dij) <$> nij).

(** [(four*PI*self.__shellCenters*rho0)*(gr-1)] *)
Definition to_Gr (four : R) s (rho0 : R) (gr : list R) : outcome (list R) :=
  vmul ((λ c, mul (mul (mul four PI) c) rho0) <$> shellCenters (cfg s))
       ((λ g, sub g (of_Z 1)) <$> gr).

(** [Gr /= self.shellVolumes] then [Gr = (four*PI*shellCenters*rho0)*(Gr-1)] *)
Definition reduce_Gr (four : R) s (rho0 : R) (Gr : list R) : outcome (list R) :=
  Gr ← vdiv Gr (shellVolumes (cfg s));
  to_Gr four s rho0 Gr.

(** [if self.__windowFunction is not None: np.convolve(x, window, 'same')] *)
Definition apply_window s (x : list R) : outcome (list R) :=
  match windowFunction (cfg s) with
  | Some w => convolve_same x w
  | None => Return x
  end.

(** [PairDistributionConstraint.__get_total_Gr] *)
Definition get_total_Gr d (rho0 : R) : Mth (list R) :=
  s ← get;
  Gr ← lift (foldlM (total_step FLOAT_TYPE s d) (zeros (histogramSize (cfg s)))
               (elementsPairs (cfg s)));
  Gr ← lift (reduce_Gr (of_Z 4) s rho0 Gr);
  Gr ← match _shapeArray (cfg s) with
       | Some shape => lift (vsub Gr shape)
       | None => mret Gr
       end;
  sf ← get_adjusted_scale_factor (experimentalY (cfg s)) Gr (_usedDataWeights (cfg s));
  assign_fittedScaleFactor (Some sf);;
  let Gr := if eqb sf (of_Z 1) then Gr else (λ g, mul g (FLOAT_TYPE sf)) <$> Gr in
  lift (apply_window s Gr).

(** [np.sum(Gr.reshape((-1,1))*Gr2SqMatrix, axis=0)]: row [r] of the matrix
    is scaled by [Gr[r]] and the rows are added up (a matrix without rows
    has no columns here). *)
Definition sine_transform (Gr : list R) (m : arr2 R) : outcome (list R) :=
  rows ← vzip (λ g r, Return (mul g <$> r)) Gr m;
  match rows with
  | [] => Return []
  | r :: rs => foldlM vadd r rs
  end.

(** [StructureFactorConstraint._get_Sq_from_Gr] *)
Definition SF_get_Sq_from_Gr (m : arr2 R) (Gr : list R) : outcome (list R) :=
  q ← sine_transform Gr m;
  Return (fmap (M:=list) (λ x, add x (of_Z 1)) q).

(** [ReducedStructureFactorConstraint._get_Sq_from_Gr] *)
Definition RSF_get_Sq_from_Gr (m : arr2 R) (Gr : list R) : outcome (list R) :=
  sine_transform Gr m.

(** [self._get_Sq_from_Gr(Gr)]: the method of the object's class. *)
Definition _get_Sq_from_Gr s (Gr : list R) : outcome (list R) :=
  match kind (cfg s) with
  | PairDistributionConstraint => Raise AttributeError
  | StructureFactorConstraint => SF_get_Sq_from_Gr (Gr2SqMatrix (cfg s)) Gr
  | ReducedStructureFactorConstraint => RSF_get_Sq_from_Gr (Gr2SqMatrix (cfg s)) Gr
  end.

(** [StructureFactorConstraint.__get_total_Sq] *)
Definition get_total_Sq d (rho0 : R) : Mth (list R) :=
  s ← get;
  Gr ← lift (foldlM (total_step id s d) (zeros (histogramSize (cfg s)))
               (elementsPairs (cfg s)));
  Gr ← lift (reduce_Gr (FLOAT_TYPE (of_Z 4)) s rho0 Gr);
  Sq ← lift (_get_Sq_from_Gr s Gr);
  sf ← get_adjusted_scale_factor (experimentalY (cfg s)) Sq (_usedDataWeights (cfg s));
  assign_fittedScaleFactor (Some sf);;
  let Sq := (λ x, mul x sf) <$> Sq in
  lift (apply_window s Sq).

(** [self.__get_total_Gr(...)] in the pair distribution class,
    [self.__get_total_Sq(...)] in the structure factor classes. *)
Definition get_total d (rho0 : R) : Mth (list R) :=
  s ← get;
  match kind (cfg s) with
  | PairDistributionConstraint => get_total_Gr d rho0
  | _ => get_total_Sq d rho0
  end.

(** [compute_standard_error]: the (weighted) sum of squared deviations
    from the experimental data. *)
Definition compute_standard_error s (modelData : list R) : outcome R :=
  diff ← vsub (experimentalY (cfg s)) modelData;
  let sq := (λ x, mul x x) <$> diff in
  match _usedDataWeights (cfg s) with
  | None => Return (vsum sq)
  | Some w => wsq ← vmul w sq; Return (vsum wsq)
  end.

(** *** The dictionary of partial and total observables *)

(** ["rdf_intra_%s-%s" % pair] and the like *)
Definition key (prefix part : string) pair : string :=
  prefix +:+ "_" +:+ part +:+ "_" +:+ pair.1 +:+ "-" +:+ pair.2.

(** The first loop of [_get_constraint_value]: three arrays of zeros for
    every pair. *)
Definition init_output (prefix : string) (n : nat) (pairs : list (string * string))
  : gmap string (list R) :=
  foldl (λ output pair,
           <[key prefix "total" pair := zeros n]>
             (<[key prefix "inter" pair := zeros n]>
                (<[key prefix "intra" pair := zeros n]> output)))
        ∅ pairs.

(** [output[k] += rhs] *)
Definition iadd (output : gmap string (list R)) (k : string)
    (rhs : outcome (list R)) : outcome (gmap string (list R)) :=
  x ← dict_get output k;
  r ← rhs;
  x' ← vadd x r;
  Return (<[k := x']> output).

(** [output[k] = f(output[k])] *)
Definition update (output : gmap string (list R)) (k : string)
    (f : list R → outcome (list R)) : outcome (gmap string (list R)) :=
  x ← dict_get output k;
  x' ← f x;
  Return (<[k := x']> output).

(** The body of the second loop of [_get_constraint_value].  In the pair
    distribution class [prefix] is ["rdf"], [castN] is [FLOAT_TYPE] and
    [post] does nothing; in the structure factor classes [prefix] is
    ["sf"], [Nij] is not cast and [post] is [self._get_Sq_from_Gr]. *)
Definition value_step (prefix : string) (castN : R → R)
    (post : list R → outcome (list R)) s d
    (acc : gmap string (list R) * list R) pair
  : outcome (gmap string (list R) * list R) :=
  let '(output, gr) := acc in
  let kintra := key prefix "intra" pair in
  let kinter := key prefix "inter" pair in
  let ktotal := key prefix "total" pair in
  wij ← pair_weight (weightingScheme (self s)) pair;
  ni ← dict_get (numberOfAtomsPerElement (engine s)) pair.1;
  nj ← dict_get (numberOfAtomsPerElement (engine s)) pair.2;
  idi ← index (elements (engine s)) pair.1;
  idj ← index (elements (engine s)) pair.2;
  '(Nij, output) ←
    (if decide (idi = idj) then
       let Nij := castN (div (of_Z (ni * (ni - 1))) (of_Z 2)) in
       output ← iadd output kintra (row (intra d) idi idj);
       output ← iadd output kinter (row (inter d) idi idj);
       Return (Nij, output)
     else
       let Nij := castN (of_Z (ni * nj)) in
       output ← iadd output kintra
                  (a ← row (intra d) idi idj; b ← row (intra d) idj idi; vadd a b);
       output ← iadd output kinter
                  (a ← row (inter d) idi idj; b ← row (inter d) idj idi; vadd a b);
       Return (Nij, output));
  xi ← dict_get output kintra;
  xe ← dict_get output kinter;
  nij ← vadd xi xe;
  dij ← vdiv nij (shellVolumes (cfg s));
  let Dij := div Nij (volume (engine s)) in
  gr ← vadd gr ((λ x, div (mul wij x) Dij) <$> dij);
  let intensityFactor :=
    (λ v, div (mul (volume (engine s)) wij) (mul Nij v)) <$> shellVolumes (cfg s) in
  output ← update output kintra (λ x, vmul x intensityFactor);
  output ← update output kinter (λ x, vmul x intensityFactor);
  xi ← dict_get output kintra;
  xe ← dict_get output kinter;
  tot ← vadd xi xe;
  let output := <[ktotal := tot]> output in
  output ← update output kintra post;
  output ← update output kinter post;
  output ← update output ktotal post;
  Return (output, gr).

(** [PairDistributionConstraint._get_constraint_value] *)
Definition PDF_get_constraint_value s d : outcome (gmap string (list R)) :=
  let output := init_output "rdf" (histogramSize (cfg s)) (elementsPairs (cfg s)) in
  '(output, gr) ← foldlM (value_step "rdf" FLOAT_TYPE Return s d)
                    (output, zeros (histogramSize (cfg s))) (elementsPairs (cfg s));
  let rho0 := numberDensity (engine s) in
  total ← to_Gr (of_Z 4) s rho0 gr;
  total ← match _shapeArray (cfg s) with
          | Some shape => vsub total shape
          | None => Return total
          end;
  let total := if eqb (scaleFactor (self s)) (of_Z 1) then total
               else (λ x, mul x (scaleFactor (self s))) <$> total in
  let output := <["pdf_total" := total]> output in
  pdf ← apply_window s total;
  Return (<["pdf" := pdf]> output).

(** [StructureFactorConstraint._get_constraint_value] *)
Definition SF_get_constraint_value s d : outcome (gmap string (list R)) :=
  let output := init_output "sf" (histogramSize (cfg s)) (elementsPairs (cfg s)) in
  '(output, gr) ← foldlM (value_step "sf" id (_get_Sq_from_Gr s) s d)
                    (output, zeros (histogramSize (cfg s))) (elementsPairs (cfg s));
  let rho0 := FLOAT_TYPE (div (of_Z (numberOfAtoms (engine s))) (volume (engine s))) in
  Gr ← to_Gr (FLOAT_TYPE (of_Z 4)) s rho0 gr;
  Sq ← _get_Sq_from_Gr s Gr;
  let total := (λ x, mul (scaleFactor (self s)) x) <$> Sq in
  let output := <["sf_total" := total]> output in
  sf ← match windowFunction (cfg s) with
       | Some w => c ← convolve_same total w; Return (fmap (M:=list) FLOAT_TYPE c)
       | None => Return total
       end;
  Return (<["sf" := sf]> output).

(** [self._get_constraint_value(data)] *)
Definition _get_constraint_value s d : outcome (gmap string (list R)) :=
  match kind (cfg s) with
  | PairDistributionConstraint => PDF_get_constraint_value s d
  | _ => SF_get_constraint_value s d
  end.

(** [get_constraint_value]: the empty dictionary (after a logged warning)
    when the data were never computed. *)
Definition get_constraint_value s : outcome (gmap string (list R)) :=
  match data (self s) with
  | None => Return ∅
  | Some d => _get_constraint_value s d
  end.

(** The key that [compute_and_set_standard_error] reads: ["pdf_total"] in
    the pair distribution class, ["sf_total"] in the others. *)
Definition total_key (k : Kind) : string :=
  match k with
  | PairDistributionConstraint => "pdf_total"
  | _ => "sf_total"
  end.

(** [compute_and_set_standard_error] *)
Definition compute_and_set_standard_error : Mth () :=
  s ← get;
  output ← lift (get_constraint_value s);
  total ← lift (dict_get output (total_key (kind (cfg s))));
  se ← lift (compute_standard_error s total);
  set_standard_error (Some se).
End transform.

(** ** The move and amputation transactions *)

Section transactions.
Context {R coord : Type} `{Num R} `{External R coord}.
Local Abbreviation Mth := (M R coord).
Implicit Types (s : State R coord) (relativeIndexes : list nat).

(** [a[indexes]]: the rows of [a] at [indexes], copied. *)
Definition gather {A} (a : list A) (indexes : list nat) : outcome (list A) :=
  mapM (λ i, of_option IndexError (a !! i)) indexes.

(** The rows that numpy assigns to [n] places from the rows [values]:
    [values] itself when it has [n] rows, its only row at every place when
    it has one (broadcasting); no other number of rows can be assigned. *)
Definition broadcast_rows {A} (values : list A) (n : nat) : option (list A) :=
  if decide (length values = n) then Some values
  else match values with
       | [v] => Some (replicate n v)
       | _ => None
       end.

(** [a[indexes] = values].  numpy broadcasts [values] to one row for each
    index, and checks the shapes and every index before it writes
    anything; where an index is repeated the last row written stays. *)
Definition scatter {A} (a : list A) (indexes : list nat) (values : list A)
  : outcome (list A) :=
  match broadcast_rows values (length indexes) with
  | None => Raise ValueError
  | Some rows =>
      if decide (Forall (λ i, i < length a)%nat indexes)
      then Return (foldl (λ a iv, <[iv.1 := iv.2]> a) a (zip indexes rows))
      else Raise IndexError
  end.

(** The two kernel calls that [compute_before_move] and
    [compute_after_move] share, on the engine as it is at the call: the
    histogram of [relativeIndexes] against all atoms minus the histogram
    among [relativeIndexes]. *)
Definition active_atoms_data relativeIndexes : Mth (Hist R) :=
  s ← get;
  let e := engine s in
  '(intraM, interM) ←
    lift (multiple_pairs_histograms_coords relativeIndexes (boxCoordinates e)
            (basisVectors e) (isPBC e) (moleculesIndex e) (elementsIndex e)
            (numberOfElements e) (minimumDistance (cfg s)) (maximumDistance (cfg s))
            (histogramSize (cfg s)) (bin (cfg s)) true (_runtime_ncores e));
  boxCoords ← lift (gather (boxCoordinates e) relativeIndexes);
  moleculeIndex ← lift (gather (moleculesIndex e) relativeIndexes);
  elementIndex ← lift (gather (elementsIndex e) relativeIndexes);
  '(intraF, interF) ←
    lift (full_pairs_histograms_coords boxCoords (basisVectors e) (isPBC e)
            moleculeIndex elementIndex (numberOfElements e)
            (minimumDistance (cfg s)) (maximumDistance (cfg s))
            (histogramSize (cfg s)) (bin (cfg s)) (_runtime_ncores e));
  dIntra ← lift (arr3_op sub intraM intraF);
  dInter ← lift (arr3_op sub interM interF);
  mret (mkHist dIntra dInter).

(** The body of [compute_data].  The method is wrapped in the decorator
    [reset_if_collected_out_of_date] of [fullrmc.Core.Collection], which is
    not in these two files and runs before the body: [s] below is the
    state in which the body starts. *)
Definition compute_data : Mth () :=
  s ← get;
  let e := engine s in
  '(intra, inter) ←
    lift (full_pairs_histograms_coords (boxCoordinates e) (basisVectors e) (isPBC e)
            (moleculesIndex e) (elementsIndex e) (numberOfElements e)
            (minimumDistance (cfg s)) (maximumDistance (cfg s))
            (histogramSize (cfg s)) (bin (cfg s)) (_runtime_ncores e));
  set_data (Some (mkHist intra inter));;
  set_active_atoms_data_before_move None;;
  set_active_atoms_data_after_move None;;
  total ← get_total (mkHist intra inter) (numberDensity e);
  s ← get;
  se ← lift (compute_standard_error s total);
  set_standard_error (Some se);;
  s ← get;
  match originalData (self s) with
  | None => _set_original_data (data (self s))
  | Some _ => mret ()
  end.

(** [compute_before_move] *)
Definition compute_before_move relativeIndexes : Mth () :=
  before ← active_atoms_data relativeIndexes;
  set_active_atoms_data_before_move (Some before);;
  set_active_atoms_data_after_move None.

(** [self.data[c] - self.activeAtomsDataBeforeMove[c] +
     self.activeAtomsDataAfterMove[c]] for the component [c]. *)
Definition data_minus_before_plus_after (c : Hist R → arr3 R) s : outcome (arr3 R) :=
  d ← of_option TypeError (data (self s));
  b ← of_option TypeError (activeAtomsDataBeforeMove (self s));
  x ← arr3_op sub (c d) (c b);
  a ← of_option TypeError (activeAtomsDataAfterMove (self s));
  arr3_op add x (c a).

(** [compute_after_move] *)
Definition compute_after_move relativeIndexes (movedBoxCoordinates : list coord)
  : Mth () :=
  (* change coordinates temporarily *)
  s ← get;
  boxData ← lift (gather (boxCoordinates (engine s)) relativeIndexes);
  moved ← lift (scatter (boxCoordinates (engine s)) relativeIndexes movedBoxCoordinates);
  assign_boxCoordinates moved;;
  (* calculate pair distribution function *)
  after ← active_atoms_data relativeIndexes;
  set_active_atoms_data_after_move (Some after);;
  (* reset coordinates *)
  s ← get;
  reset ← lift (scatter (boxCoordinates (engine s)) relativeIndexes boxData);
  assign_boxCoordinates reset;;
  (* compute and set standardError after move *)
  s ← get;
  dataIntra ← lift (data_minus_before_plus_after intra s);
  dataInter ← lift (data_minus_before_plus_after inter s);
  total ← get_total (mkHist dataIntra dataInter) (numberDensity (engine s));
  s ← get;
  se ← lift (compute_standard_error s total);
  set_after_move_standard_error (Some se).

(** [accept_move] *)
Definition accept_move : Mth () :=
  s ← get;
  dataIntra ← lift (data_minus_before_plus_after intra s);
  dataInter ← lift (data_minus_before_plus_after inter s);
  set_data (Some (mkHist dataIntra dataInter));;
  set_active_atoms_data_before_move None;;
  set_active_atoms_data_after_move None;;
  s ← get;
  set_standard_error (afterMoveStandardError (self s));;
  set_after_move_standard_error None;;
  s ← get;
  fitted ← lift (of_option AttributeError (_fittedScaleFactor (self s)));
  _set_fitted_scale_factor_value fitted.

(** [reject_move] *)
Definition reject_move : Mth () :=
  set_active_atoms_data_before_move None;;
  set_active_atoms_data_after_move None;;
  set_after_move_standard_error None.

(** [compute_as_if_amputated] *)
Definition compute_as_if_amputated (relativeIndex : list nat) : Mth () :=
  (* compute data *)
  compute_before_move relativeIndex;;
  s ← get;
  d ← subscript (data (self s));
  b ← subscript (activeAtomsDataBeforeMove (self s));
  dataIntra ← lift (arr3_op sub (intra d) (intra b));
  dataInter ← lift (arr3_op sub (inter d) (inter b));
  let amputated := mkHist dataIntra dataInter in
  (* temporarily adjust self.__weightingScheme *)
  let weightingScheme0 := weightingScheme (self s) in
  relativeIndex0 ← lift (of_option IndexError (relativeIndex !! 0%nat));
  selectedElement ← lift (of_option IndexError (allElements (engine s) !! relativeIndex0));
  n ← lift (dict_get (numberOfAtomsPerElement (engine s)) selectedElement);
  assign_numberOfAtomsPerElement
    (<[selectedElement := (n - 1)%Z]> (numberOfAtomsPerElement (engine s)));;
  s ← get;
  ws ← lift (get_normalized_weighting (numberOfAtomsPerElement (engine s))
               (_elementsWeight (cfg s)));
  assign_weightingScheme (FLOAT_TYPE <$> ws);;
  (* compute standard error *)
  s ← get;
  let allow := allowFittingScaleFactor (engine s) in
  let SF := adjustScaleFactorFrequency (self s) in
  (if allow then mret () else _set_adjust_scale_factor_frequency 0%Z);;
  let rho0 := FLOAT_TYPE (div (of_Z (numberOfAtoms (engine s) - 1)) (volume (engine s))) in
  total ← get_total amputated rho0;
  s ← get;
  se ← lift (compute_standard_error s total);
  (if allow then mret () else _set_adjust_scale_factor_frequency SF);;
  (* reset activeAtoms data *)
  set_active_atoms_data_before_move None;;
  (* set data *)
  s ← get;
  set_amputation_data (Some (amputated, weightingScheme (self s)));;
  set_amputation_standard_error (Some se);;
  (* reset weightingScheme *)
  assign_weightingScheme weightingScheme0;;
  s ← get;
  n ← lift (dict_get (numberOfAtomsPerElement (engine s)) selectedElement);
  assign_numberOfAtomsPerElement
    (<[selectedElement := (n + 1)%Z]> (numberOfAtomsPerElement (engine s))).

(** [accept_amputation] *)
Definition accept_amputation : Mth () :=
  s ← get;
  a ← subscript (amputationData (self s));
  set_data (Some a.1);;
  assign_weightingScheme a.2;;
  set_standard_error (amputationStandardError (self s));;
  set_amputation_data None;;
  set_amputation_standard_error None;;
  s ← get;
  fitted ← lift (of_option AttributeError (_fittedScaleFactor (self s)));
  _set_fitted_scale_factor_value fitted.

(** [reject_amputation] *)
Definition reject_amputation : Mth () :=
  set_amputation_data None;;
  set_amputation_standard_error None.
End transactions.

(** ** Vocabulary of the statements *)

Section vocabulary.
Context {R coord : Type} `{Num R} `{External R coord}.
Local Abbreviation Mth := (M R coord).
Implicit Types (s : State R coord).

(** The state in which the engine's coordinate store holds [store]. *)
Definition with_boxCoordinates (store : list coord) s : State R coord :=
  (assign_boxCoordinates store s).2.

(** The delta of the atoms [indexes] when the store holds [store]: what
    [compute_before_move] stages for the current store, and
    [compute_after_move] for the store with the candidate coordinates. *)
Definition delta_at (indexes : list nat) (store : list coord) s : outcome (Hist R) :=
  (active_atoms_data indexes (with_boxCoordinates store s)).1.

(** [d - b + a] on both components of the histograms. *)
Definition hist_minus_plus (d b a : Hist R) : outcome (Hist R) :=
  x ← hist_sub d b; hist_add x a.

(** [a[i,j,k]] *)
Definition entry (a : arr3 R) (i j k : nat) : option R :=
  r ← a !! i ≫= (.!! j); r !! k.

(** [x] lies within the scale factor bounds of the constraint. *)
Definition in_bounds s (x : R) : Prop :=
  leb (adjustScaleFactorMinimum (cfg s)) x = true ∧
  leb x (adjustScaleFactorMaximum (cfg s)) = true.

(** What the engine does with a constraint while it runs moves; it
    counts the moves it generates. *)
Inductive event : Type :=
  | Generate (n : Z)
  | Begin (relativeIndexes : list nat)
  | Stage (relativeIndexes : list nat) (movedBoxCoordinates : list coord)
  | Accept
  | Reject.

Definition set_generated (n : Z) (e : Engine R coord) : Engine R coord :=
  mkEngine (boxCoordinates e) (numberOfAtomsPerElement e) (basisVectors e) (isPBC e)
    (moleculesIndex e) (elementsIndex e) (numberOfElements e) (elements e)
    (allElements e) (numberOfAtoms e) (volume e) (numberDensity e)
    (_runtime_ncores e) (allowFittingScaleFactor e) n.

Definition step (ev : event) : Mth () :=
  match ev with
  | Generate n => modify (with_engine (set_generated n))
  | Begin indexes => compute_before_move indexes
  | Stage indexes moved => compute_after_move indexes moved
  | Accept => accept_move
  | Reject => reject_move
  end.

(** The state after a sequence of events, each call leaving the state it
    leaves whether it returns or raises. *)
Definition run (evs : list event) s : State R coord :=
  foldl (λ s ev, (step ev s).2) s evs.

(** The state in which [compute_as_if_amputated] computes the observable:
    the delta [b] of the atom is staged, the population of its element
    [el] is [n - 1], the weighting scheme is [ws] cast to [FLOAT_TYPE],
    and the scale factor is fixed unless the move generator allows
    fitting. *)
Definition as_if_amputated (b : Hist R) (el : string) (n : Z) (ws : gmap string R) s
  : State R coord :=
  ((set_active_atoms_data_before_move (Some b);;
    set_active_atoms_data_after_move None;;
    assign_numberOfAtomsPerElement
      (<[el := (n - 1)%Z]> (numberOfAtomsPerElement (engine s)));;
    assign_weightingScheme (FLOAT_TYPE <$> ws);;
    if allowFittingScaleFactor (engine s) then mret ()
    else _set_adjust_scale_factor_frequency 0%Z) s).2.

(** The invariant of the scale factor policy: the set-up and the
    frequency satisfy [C], and the accepted scale factor and the fitted
    one, once there is one, satisfy [Q]. *)
Definition scale_factor_invariant (Q : R → Prop) (C : Config R → Z → Prop) s : Prop :=
  C (cfg s) (adjustScaleFactorFrequency (self s)) ∧
  Q (scaleFactor (self s)) ∧
  ∀ f, _fittedScaleFactor (self s) = Some f → Q f.

(** The state [reject_move] leaves: the two deltas and the staged
    standard error are [None], every other attribute is as it was. *)
Definition move_discarded s : State R coord :=
  let c := self s in
  mkState (engine s) (cfg s)
    (mkConstraint (data c) (originalData c) None None (standardError c) None
       (amputationData c) (amputationStandardError c) (scaleFactor c)
       (_fittedScaleFactor c) (adjustScaleFactorFrequency c) (weightingScheme c)).
End vocabulary.

(** ** Vocabulary of the proofs *)

Section frames.
Context {R coord : Type}.
Implicit Types (s : State R coord).

(** [preserves P m]: whatever [m] does, and whether it returns or raises,
    the state it leaves is related by [P] to the state it started in. *)
Definition preserves {A} (P : relation (State R coord)) (m : M R coord A) : Prop :=
  ∀ s, P s (m s).2.

(** [same_on f]: the attribute [f] has the value it had. *)
Definition same_on {B} (f : State R coord → B) : relation (State R coord) :=
  λ s s', f s' = f s.

(** [keeps I]: the invariant [I] still holds if it held. *)
Definition keeps (I : State R coord → Prop) : relation (State R coord) :=
  λ s s', I s → I s'.
End frames.

(** ** Diagnostics and the calls of the engine *)

Section diagnostics.
Context {R coord : Type} `{Num R} `{External R coord}.
Local Abbreviation Mth := (M R coord).
Implicit Types (s : State R coord).

(** [PairDistributionConstraint._reset_standard_error] *)
Definition _reset_standard_error : Mth () :=
  s ← get;
  match data (self s) with
  | Some d =>
      totalPDF ← get_total_Gr d (numberDensity (engine s));
      s ← get;
      se ← lift (compute_standard_error s totalPDF);
      set_standard_error (Some se)
  | None => mret ()
  end.

(** [get_constraint_original_value]: the empty dictionary (after a logged
    warning) when [originalData] is [None]. *)
Definition get_constraint_original_value s : outcome (gmap string (list R)) :=
  match originalData (self s) with
  | None => Return ∅
  | Some d => _get_constraint_value s d
  end.

(** The methods of the constraint that the engine and the user call
    while a fit runs. *)
Inductive call : Type :=
  | Move (ev : event (coord:=coord))
  | ComputeData
  | ComputeAsIfAmputated (relativeIndex : list nat)
  | AcceptAmputation
  | RejectAmputation
  | ComputeAndSetStandardError
  | ResetStandardError.

Definition perform (c : call) : Mth () :=
  match c with
  | Move ev => step ev
  | ComputeData => compute_data
  | ComputeAsIfAmputated relativeIndex => compute_as_if_amputated relativeIndex
  | AcceptAmputation => accept_amputation
  | RejectAmputation => reject_amputation
  | ComputeAndSetStandardError => compute_and_set_standard_error
  | ResetStandardError => _reset_standard_error
  end.

(** The state after a sequence of calls, each call leaving the state it
    leaves whether it returns or raises. *)
Definition session (calls : list call) s : State R coord :=
  foldl (λ s c, (perform c s).2) s calls.
End diagnostics.

Section keys.
(** The keys of the partial observables in the dictionary that
    [_get_constraint_value] returns: three for every entry of
    [elementsPairs]. *)
Definition partial_keys (prefix : string) (pairs : list (string * string))
  : list string :=
  pair ← pairs;
  [key prefix "intra" pair; key prefix "inter" pair; key prefix "total" pair].
End keys.

(** ** Set-up of the constraint *)

From stdpp Require sorting.

(** The numpy functions that the set-up code applies to [FLOAT_TYPE]
    values. *)
Class Elementary (R : Type) : Type := {
  np_abs : R → R;            (* [np.abs(x)] *)
  np_sin : R → R;            (* [np.sin(x)] *)
  cube : R → R               (* [x**3] *)
}.

(** What a set-up method does: it returns, one of its [assert]s fails, or
    it raises an exception. *)
Inductive checked (A : Type) : Type :=
  | Done (a : A)
  | AssertionError
  | Raised (e : exn).
Arguments Done {A} a.
Arguments AssertionError {A}.
Arguments Raised {A} e.

#[global] Instance checked_ret : MRet checked := λ A a, Done a.
#[global] Instance checked_mbind : MBind checked := λ A B f m,
  match m with
  | Done a => f a
  | AssertionError => AssertionError
  | Raised e => Raised e
  end.

(** [assert b] *)
Definition assert (b : bool) : checked () :=
  if b then Done () else AssertionError.

(** A computation that has no [assert]. *)
Definition unchecked {A} (o : outcome A) : checked A :=
  match o with
  | Return a => Done a
  | Raise e => Raised e
  end.

(** [a[lo:hi]] for indexes that are not negative. *)
Definition slice {A} (a : list A) (lo hi : nat) : list A :=
  take (hi - lo) (drop lo a).

Section element_pairs.
(** [itertools.combinations_with_replacement(pool, 2)]: the tuples
    [(pool[i], pool[j])] for [i <= j], in the order of the positions. *)
Fixpoint combinations_with_replacement_2 (pool : list string) : list (string * string) :=
  match pool with
  | [] => []
  | x :: pool' =>
      ((λ y, (x, y)) <$> (x :: pool')) ++ combinations_with_replacement_2 pool'
  end.

(** The order of Python on tuples of two strings: the first components
    decide unless they are equal; strings compare character by character. *)
Definition tuple_le (p q : string * string) : Prop :=
  if decide (p.1 = q.1) then String.le p.2 q.2 else String.le p.1 q.1.

#[global] Instance tuple_le_dec (p q : string * string) : Decision (tuple_le p q).
Proof. unfold tuple_le. destruct (decide (p.1 = q.1)); apply _. Defined.

(** [sorted(itertools.combinations_with_replacement(elements, 2))], the
    value that [listen] and [__set_weighting_scheme] assign to
    [elementsPairs]. *)
Definition elements_pairs (elements : list string) : list (string * string) :=
  sorting.merge_sort tuple_le (combinations_with_replacement_2 elements).
End element_pairs.

Section setup.
Context {R : Type} `{Num R} `{Elementary R}.

(** [__set_used_data_weights]: the value it assigns to [_usedDataWeights].
    [nData] is [experimentalData.shape[0]]. *)
Definition set_used_data_weights (dataWeights : option (list R)) (nData : nat)
    (minDistIdx maxDistIdx : option nat) : checked (option (list R)) :=
  match dataWeights with
  | None => Done None
  | Some w =>
      let minDistIdx := default 0%nat minDistIdx in
      let maxDistIdx := default nData maxDistIdx in
      let used := slice w minDistIdx (maxDistIdx + 1) in
      assert (negb (eqb (vsum used) (of_Z 0)));;
      let used : list R := (λ x, div x (FLOAT_TYPE (vsum used))) <$> used in
      Done (Some ((λ x, mul x (FLOAT_TYPE (of_Z (Z.of_nat (length used))))) <$> used))
  end.

(** [set_window_function], for an argument that is [None] or a
    one-dimensional array of [FLOAT_TYPE]: the value it assigns to
    [windowFunction].  The array is divided by its sum, whatever the sum
    is. *)
Definition set_window_function (nData : nat) (windowFunction : option (list R))
  : checked (option (list R)) :=
  match windowFunction with
  | None => Done None
  | Some w =>
      assert (bool_decide (length w ≤ nData)%nat);;
      Done (Some ((λ x, div x (vsum w)) <$> w))
  end.

(** [a.argmin()]: the first index of the least value, for values that
    compare. *)
Fixpoint argmin_from (best : R) (ibest i : nat) (a : list R) : nat :=
  match a with
  | [] => ibest
  | x :: a' =>
      if ltb x best then argmin_from x i (S i) a'
      else argmin_from best ibest (S i) a'
  end.

Definition argmin (a : list R) : outcome nat :=
  match a with
  | [] => Raise ValueError
  | x :: a' => Return (argmin_from x 0 1 a')
  end.

(** The checks of [set_limits] on its argument, [None] or a list or
    tuple of numbers and [None]s: the pair it assigns to [limits]. *)
Definition check_limits (limits : option (list (option R)))
  : checked (option R * option R) :=
  match limits with
  | None => Done (None, None)
  | Some limits =>
      assert (bool_decide (length limits = 2%nat));;
      l0 ← unchecked (of_option IndexError (limits !! 0%nat));
      l1 ← unchecked (of_option IndexError (limits !! 1%nat));
      l0 ← match l0 with
           | Some x => assert (leb (of_Z 0) (FLOAT_TYPE x));; Done (Some (FLOAT_TYPE x))
           | None => Done None
           end;
      l1 ← match l1 with
           | Some x => assert (ltb (of_Z 0) (FLOAT_TYPE x));; Done (Some (FLOAT_TYPE x))
           | None => Done None
           end;
      match l0, l1 with
      | Some x0, Some x1 => assert (ltb x0 x1)
      | _, _ => Done ()
      end;;
      Done (l0, l1)
  end.

(** [(np.abs(self.experimentalData[:,0]-limit)).argmin()] *)
Definition closest (experimentalData : list (R * R)) (limit : R) : outcome nat :=
  argmin ((λ row, np_abs (sub row.1 limit)) <$> experimentalData).

(** [PairDistributionConstraint.set_limits], up to its call of
    [reset_constraint]: the set-up after the assignments of the method.
    [experimentalData] (an array of two columns) and [dataWeights] are the
    attributes of the base class.  The private attributes [limits],
    [minDistIdx], [maxDistIdx], [edges] and [experimentalDistances], which
    the transaction methods do not read, are local here. *)
Definition set_limits (experimentalData : list (R * R)) (dataWeights : option (list R))
    (limits : option (list (option R))) (c : Config R) : checked (Config R) :=
  limits ← check_limits limits;
  (* get minimumDistance and maximumDistance indexes *)
  minDistIdx ← match limits.1 with
               | None => Done 0%nat
               | Some l0 => unchecked (closest experimentalData l0)
               end;
  maxDistIdx ← match limits.2 with
               | None => Done (length experimentalData - 1)%nat
               | Some l1 => unchecked (closest experimentalData l1)
               end;
  (* set minimumDistance, maximumDistance *)
  rowMin ← unchecked (of_option IndexError (experimentalData !! minDistIdx));
  rowMax ← unchecked (of_option IndexError (experimentalData !! maxDistIdx));
  let half := div (bin c) (of_Z 2) in
  let minimumDistance := FLOAT_TYPE (sub rowMin.1 half) in
  let maximumDistance := FLOAT_TYPE (add rowMax.1 half) in
  let indexes := seq minDistIdx (maxDistIdx + 1 - minDistIdx) in
  rows ← unchecked (gather experimentalData indexes);
  let shellCenters := (λ row : R * R, FLOAT_TYPE row.1) <$> rows in
  (* set histogram edges *)
  let edges := ((λ row : R * R, FLOAT_TYPE (sub row.1 half)) <$> rows)
                 ++ [FLOAT_TYPE (add rowMax.1 half)] in
  (* set histogram size *)
  let histogramSize := (length edges - 1)%nat in
  (* set shell centers and volumes *)
  let shellVolumes :=
    zip_with (λ hi lo, mul (mul (FLOAT_TYPE (div (of_Z 4) (of_Z 3))) PI)
                           (sub (cube hi) (cube lo)))
      (drop 1 edges) (take (length edges - 1) edges) in
  (* set experimental distances and pdf *)
  let experimentalPDF := snd <$> slice experimentalData minDistIdx (maxDistIdx + 1) in
  (* set used dataWeights *)
  used ← set_used_data_weights dataWeights (length experimentalData)
           (Some minDistIdx) (Some maxDistIdx);
  Done (mkConfig (kind c) experimentalPDF used shellCenters shellVolumes histogramSize
          minimumDistance maximumDistance (bin c) (elementsPairs c) (_elementsWeight c)
          (_shapeArray c) (windowFunction c) (Gr2SqMatrix c)
          (adjustScaleFactorMinimum c) (adjustScaleFactorMaximum c)).

(** [StructureFactorConstraint.__set_Gr_2_Sq_matrix]: the value it
    assigns to [Gr2SqMatrix].  Row [r] of the matrix is
    [dr * sin(Rs[r] * (1 * Qs)) / Qs]. *)
Definition set_Gr_2_Sq_matrix (experimentalQValues shellCenters : option (list R))
  : outcome (option (arr2 R)) :=
  match experimentalQValues, shellCenters with
  | Some Qs, Some Rs =>
      r1 ← of_option IndexError (Rs !! 1%nat);
      r0 ← of_option IndexError (Rs !! 0%nat);
      let dr := sub r1 r0 in
      Return (Some ((λ r, (λ q, mul dr (div (np_sin (mul r (mul (FLOAT_TYPE (of_Z 1)) q))) q))
                            <$> Qs) <$> Rs))
  | _, _ => Return None
  end.
End setup.

(** The laws of exact arithmetic that the normalisations of the set-up
    rely on: the cast is exact, division and multiplication distribute
    over sums, and a number that is not zero divided by itself is 1. *)
Record exact_normalisation (R : Type) `{Num R} : Prop := {
  cast_exact : ∀ x : R, FLOAT_TYPE x = x;
  div_add : ∀ x y z : R, div (add x y) z = add (div x z) (div y z);
  div_zero : ∀ z : R, div (of_Z 0) z = of_Z 0;
  div_same : ∀ z : R, eqb z (of_Z 0) = false → div z z = of_Z 1;
  mul_add : ∀ x y z : R, mul (add x y) z = add (mul x z) (mul y z);
  mul_zero : ∀ z : R, mul (of_Z 0) z = of_Z 0;
  mul_one : ∀ z : R, mul (of_Z 1) z = z
}.

(** ** Checking the experimental data *)

(** [fullrmc.Globals.PRECISION] *)
Class Globals (R : Type) : Type := { PRECISION : R }.

Section check.
Context {R : Type} `{Num R} `{Elementary R} `{Globals R}.

(** [sorted(a)], which compares with [<] and keeps the order of the
    values that do not compare less. *)
Definition sorted (a : list R) : list R :=
  sorting.merge_sort (λ x y, Is_true (negb (ltb y x))) a.

(** [(np.array(sorted(x)) - x) <= PRECISION], element by element *)
Definition inOrder (x : list R) : list bool :=
  zip_with (λ a b, leb (sub a b) PRECISION) (sorted x) x.

(** [StructureFactorConstraint.check_experimental_data] on an array of
    [FLOAT_TYPE] that has two columns: the checks that come after those
    of the type and the shape of the array. *)
Definition SF_check_experimental_data (experimentalData : list (R * R))
  : outcome (bool * string) :=
  let x := fst <$> experimentalData in
  if negb (forallb id (inOrder x))
  then Return (false, "experimentalData distances are not sorted in order")
  else
    row0 ← of_option IndexError (experimentalData !! 0%nat);
    if ltb row0.1 (of_Z 0)
    then Return (false, "experimentalData distances min value is found negative")
    else Return (true, "").

(** [PairDistributionConstraint.check_experimental_data], likewise: it
    also compares every bin with the first one. *)
Definition PDF_check_experimental_data (experimentalData : list (R * R))
  : outcome (bool * string) :=
  let x := fst <$> experimentalData in
  if negb (forallb id (inOrder x))
  then Return (false, "experimentalData distances are not sorted in order")
  else
    row0 ← of_option IndexError (experimentalData !! 0%nat);
    if ltb row0.1 (of_Z 0)
    then Return (false, "experimentalData distances min value is found negative")
    else
      row1 ← of_option IndexError (experimentalData !! 1%nat);
      row0 ← of_option IndexError (experimentalData !! 0%nat);
      let bin := sub row1.1 row0.1 in
      let bins := zip_with sub (drop 1 x) (take (length x - 1) x) in
      if existsb (λ b, ltb PRECISION (np_abs (sub b bin))) bins
      then Return (false, "experimentalData distances bins are found not coherent")
      else Return (true, "").
End check.

(** ** Exact arithmetic and a kernel for atoms on a line

    The properties are stated for every arithmetic and every kernel.  The
    instances below are used to run the methods on concrete inputs: the
    rational numbers in canonical form, on which every cast is exact, and a
    kernel for a one-dimensional box. *)

Module Exact.
Abbreviation Qc := Qcanon.Qc.

#[export] Instance Qc_Num : Num Qc := {|
  of_Z z := Qcanon.Q2Qc (QArith_base.inject_Z z);
  add := Qcanon.Qcplus;
  sub := Qcanon.Qcminus;
  mul := Qcanon.Qcmult;
  div := Qcanon.Qcdiv;
  eqb x y := QArith_base.Qeq_bool (Qcanon.this x) (Qcanon.this y);
  ltb x y := match Qcanon.Qccompare x y with Lt => true | _ => false end;
  leb x y := match Qcanon.Qccompare x y with Gt => false | _ => true end;
  FLOAT_TYPE x := x;
  PI := Qcanon.Q2Qc (QArith_base.Qmake 13176795 4194304)   (* the single precision value of pi *)
|}.

(** The fraction [n / d]. *)
Definition frac (n : Z) (d : positive) : Qc := Qcanon.Q2Qc (QArith_base.Qmake n d).
End Exact.

(** IEEE 754 binary floating point, the arithmetic numpy computes with:
    [prec] bits of significand, exponents below [emax], every operation
    rounded to nearest, ties to even. *)
Module IEEE.
Abbreviation float := SpecFloat.spec_float.

Definition IEEE_Num (prec emax : Z) : Num float := {|
  of_Z z := SpecFloat.binary_normalize prec emax z 0 false;
  add := SpecFloat.SFadd prec emax;
  sub := SpecFloat.SFsub prec emax;
  mul := SpecFloat.SFmul prec emax;
  div := SpecFloat.SFdiv prec emax;
  eqb := SpecFloat.SFeqb;
  ltb := SpecFloat.SFltb;
  leb := SpecFloat.SFleb;
  FLOAT_TYPE x := x;
  PI := SpecFloat.binary_normalize prec emax 7074237752028440 (-51) false
|}.

(** [numpy.float32] and [numpy.float64]. *)
Definition binary32 : Num float := IEEE_Num 24 128.
Definition binary64 : Num float := IEEE_Num 53 1024.
End IEEE.

Module Line.
Import Exact.

(** A coordinate on the line; [None] is NaN. *)
Definition coord : Type := option Z.

Definition zeros3 (nElements histSize : nat) : arr3 Qc :=
  replicate nElements (replicate nElements (zeros histSize)).

(** [a[i,j,k] += 1] *)
Definition bump (a : arr3 Qc) (i j k : nat) : arr3 Qc :=
  match a !! i with
  | Some m =>
      match m !! j with
      | Some r =>
          match r !! k with
          | Some x => <[i := <[j := <[k := add x (of_Z 1)]> r]> m]> a
          | None => a
          end
      | None => a
      end
  | None => a
  end.

(** Modelled from the spec: the Pair Histogram Kernel (4.1), for atoms on
    a line.  The pair of atoms [i] and [j] at distance [d] in
    [[minDistance, maxDistance)] counts once in bin
    [floor((d - minDistance) / binSize)] of the entry of their elements (the
    element of the atom of lower index first), in [intra] when the atoms share a molecule and in
    [inter] otherwise; a NaN distance is rejected. *)
Definition count_pair (boxCoords : list coord) (moleculeIndex elementIndex : list nat)
    (minDistance maxDistance binSize : Qc) (acc : arr3 Qc * arr3 Qc) (ij : nat * nat)
  : outcome (arr3 Qc * arr3 Qc) :=
  xi ← of_option ExternalError (boxCoords !! ij.1);
  xj ← of_option ExternalError (boxCoords !! ij.2);
  mi ← of_option ExternalError (moleculeIndex !! ij.1);
  mj ← of_option ExternalError (moleculeIndex !! ij.2);
  ei ← of_option ExternalError (elementIndex !! (ij.1 `min` ij.2)%nat);
  ej ← of_option ExternalError (elementIndex !! (ij.1 `max` ij.2)%nat);
  match xi, xj with
  | Some xi, Some xj =>
      let d := of_Z (Z.abs (xi - xj)) in
      if leb minDistance d && ltb d maxDistance then
        let k := Z.to_nat (Qround.Qfloor (Qcanon.this (div (sub d minDistance) binSize))) in
        if decide (mi = mj) then Return (bump acc.1 ei ej k, acc.2)
        else Return (acc.1, bump acc.2 ei ej k)
      else Return acc
  | _, _ => Raise ExternalError
  end.

(** All pairs [i < j] of [n] atoms. *)
Definition all_pairs (n : nat) : list (nat * nat) :=
  i ← seq 0 n; j ← seq (S i) (n - S i); [(i, j)].

(** The pairs of each atom of [indexes] with every other atom. *)
Definition pairs_of (indexes : list nat) (n : nat) : list (nat * nat) :=
  i ← indexes; j ← seq 0 n; if decide (i = j) then [] else [(i, j)].

(** An example of a normalized weighting: with [c] the fraction of atoms
    of an element and [b] its weight, the pair of an element with itself
    weighs [c*b*c*b], a pair of two elements twice [c*b*c'*b'], over the
    square of the sum of [c*b]. *)
Definition weighting (numbers : gmap string Z) (weights : gmap string Qc)
  : outcome (gmap string Qc) :=
  terms ← mapM (λ en, b ← dict_get weights en.1; Return (en.1, mul (of_Z en.2) b))
               (map_to_list numbers);
  let total := vsum (snd <$> terms) in
  if eqb total (of_Z 0) then Raise ExternalError
  else Return (list_to_map
         (ip ← imap (λ i p, (i, p)) terms;
          jq ← imap (λ j q, (j, q)) terms;
          if decide (ip.1 < jq.1)%nat
          then [(ip.2.1 +:+ "-" +:+ jq.2.1,
                 div (mul (of_Z 2) (mul ip.2.2 jq.2.2)) (mul total total))]
          else if decide (ip.1 = jq.1)
          then [(ip.2.1 +:+ "-" +:+ jq.2.1, div (mul ip.2.2 jq.2.2) (mul total total))]
          else [])).

#[export] Instance line_kernels : External Qc coord := {|
  multiple_pairs_histograms_coords indexes boxCoords basis pbc moleculeIndex
      elementIndex nElements minDistance maxDistance histSize binSize allAtoms ncores :=
    foldlM (count_pair boxCoords moleculeIndex elementIndex minDistance maxDistance binSize)
      (zeros3 nElements histSize, zeros3 nElements histSize)
      (pairs_of indexes (length boxCoords));
  full_pairs_histograms_coords boxCoords basis pbc moleculeIndex elementIndex
      nElements minDistance maxDistance histSize binSize ncores :=
    foldlM (count_pair boxCoords moleculeIndex elementIndex minDistance maxDistance binSize)
      (zeros3 nElements histSize, zeros3 nElements histSize)
      (all_pairs (length boxCoords));
  get_normalized_weighting := weighting
|}.

(** *** A box of four atoms

    Two atoms of element A in one molecule at 0 and 1, two atoms of
    element B at 3 and 6, each a molecule of its own; bins of width 1 from
    0 to 4. *)
Definition engine0 : Engine Qc coord := {|
  boxCoordinates := [Some 0; Some 1; Some 3; Some 6]%Z;
  numberOfAtomsPerElement := {[ "A" := 2%Z; "B" := 2%Z ]};
  basisVectors := [Some 8%Z];
  isPBC := false;
  moleculesIndex := [0; 0; 1; 2]%nat;
  elementsIndex := [0; 0; 1; 1]%nat;
  numberOfElements := 2;
  elements := ["A"; "B"];
  allElements := ["A"; "A"; "B"; "B"];
  numberOfAtoms := 4;
  volume := frac 8 1;
  numberDensity := frac 1 2;
  _runtime_ncores := 1;
  allowFittingScaleFactor := false;
  generated := 0
|}.

Definition config0 (k : Kind) (window : option (list Qc)) : Config Qc := {|
  kind := k;
  experimentalY := [frac 0 1; frac 1 2; frac (-1) 4; frac 1 8];
  _usedDataWeights := None;
  shellCenters := [frac 1 2; frac 3 2; frac 5 2; frac 7 2];
  shellVolumes := (λ c, mul (mul (frac 4 3) PI) (frac c 1)) <$> [1; 7; 19; 37]%Z;
  histogramSize := 4;
  minimumDistance := frac 0 1;
  maximumDistance := frac 4 1;
  bin := frac 1 1;
  elementsPairs := [("A", "A"); ("A", "B"); ("B", "B")];
  _elementsWeight := {[ "A" := frac 1 1; "B" := frac 2 1 ]};
  _shapeArray := None;
  windowFunction := window;
  Gr2SqMatrix := [[frac 1 1; frac 1 2; frac 1 4; frac 1 8];
                  [frac 1 2; frac 1 4; frac 1 8; frac 1 1];
                  [frac 1 4; frac 1 8; frac 1 1; frac 1 2];
                  [frac 1 8; frac 1 1; frac 1 2; frac 1 4]];
  adjustScaleFactorMinimum := frac 4 5;
  adjustScaleFactorMaximum := frac 6 5
|}.

(** A constraint that has computed nothing yet, with scale factor [sf]
    and adjustment frequency [freq]. *)
Definition constraint0 (sf : Qc) (freq : Z) : Constraint Qc := {|
  data := None;
  originalData := None;
  activeAtomsDataBeforeMove := None;
  activeAtomsDataAfterMove := None;
  standardError := None;
  afterMoveStandardError := None;
  amputationData := None;
  amputationStandardError := None;
  scaleFactor := sf;
  _fittedScaleFactor := None;
  adjustScaleFactorFrequency := freq;
  weightingScheme := {[ "A-A" := frac 1 9; "A-B" := frac 4 9; "B-B" := frac 4 9 ]}
|}.

Definition state0 (k : Kind) (window : option (list Qc)) (sf : Qc) (freq : Z)
  : State Qc coord :=
  mkState engine0 (config0 k window) (constraint0 sf freq).

(** The state after [compute_data]. *)
Definition computed (k : Kind) (window : option (list Qc)) (sf : Qc) (freq : Z)
  : State Qc coord :=
  (compute_data (state0 k window sf freq)).2.

(** A pair distribution constraint with a fixed scale factor of 1, and
    the move of atom 1 from 1 to 2: idle, after [compute_before_move],
    and after [compute_after_move]. *)
Definition idle : State Qc coord := computed PairDistributionConstraint None (frac 1 1) 0.
Definition begun : State Qc coord := (compute_before_move [1%nat] idle).2.
Definition staged : State Qc coord := (compute_after_move [1%nat] [Some 2%Z] begun).2.

(** The same constraint refitting its scale factor every third move. *)
Definition fitting : State Qc coord := computed PairDistributionConstraint None (frac 1 1) 3.

(** The same constraint with a fixed scale factor of 2, outside its
    bounds of 4/5 and 6/5. *)
Definition fixed2 : State Qc coord := computed PairDistributionConstraint None (frac 2 1) 0.

(** One move evaluated and accepted. *)
Definition one_move : list (event (coord:=coord)) :=
  [Begin [1%nat]; Stage [1%nat] [Some 2%Z]; Accept].

(** A normalized window function, and the constraints of the two classes
    with and without it. *)
Definition window : list Qc := [frac 1 4; frac 1 2; frac 1 4].
Definition windowed (k : Kind) : State Qc coord := computed k (Some window) (frac 1 1) 0.
Definition unwindowed (k : Kind) : State Qc coord := computed k None (frac 1 1) 0.
End Line.

(** ** The set-up on exact numbers *)

Module ExactSetup.
Import Exact Line.

(** The sine is replaced by the first two terms of its series: what is
    proved about the set-up does not depend on it. *)
#[export] Instance Qc_Elementary : Elementary Qc := {|
  np_abs x := if ltb x (of_Z 0) then Qcanon.Qcopp x else x;
  np_sin x := sub x (div (mul x (mul x x)) (of_Z 6));
  cube x := mul x (mul x x)
|}.

#[export] Instance Qc_Globals : Globals Qc := {| PRECISION := frac 1 100000 |}.

(** A pair distribution function measured at 0.5, 1.5, 2.5 and 3.5, and
    weights for its four points. *)
Definition table : list (Qc * Qc) :=
  [(frac 1 2, frac 0 1); (frac 3 2, frac 1 2); (frac 5 2, frac (-1) 4);
   (frac 7 2, frac 1 8)].
Definition weights : list Qc := [frac 1 1; frac 2 1; frac 3 1; frac 4 1].

(** A window function of five points, one more than the experimental
    data of the box of four atoms. *)
Definition long_window : list Qc :=
  [frac 1 8; frac 1 4; frac 1 4; frac 1 4; frac 1 8].

(** A session: a move that is accepted, an atom that is removed, and the
    standard error computed again. *)
Definition calls : list (call (coord:=coord)) :=
  [Move (Begin [1%nat]); Move (Stage [1%nat] [Some 2%Z]); Move Accept;
   ComputeAsIfAmputated [0%nat]; AcceptAmputation;
   ComputeAndSetStandardError; ResetStandardError].
End ExactSetup.

(** * Properties *)

(** ** Reasoning about method calls *)

Section logic.
Context {R coord : Type}.
Local Abbreviation Mth := (M R coord).
Implicit Types (s : State R coord).

Lemma bind_unfold {A B} (m : Mth A) (f : A → Mth B) s :
  (m ≫= f) s = match m s with
               | (Return a, s') => f a s'
               | (Raise e, s') => (Raise e, s')
               end.
Proof. reflexivity. Qed.

Lemma bind_get {B} (f : State R coord → Mth B) s : (get ≫= f) s = f s s.
Proof. reflexivity. Qed.

Lemma bind_modify {B} (g : State R coord → State R coord) (f : () → Mth B) s :
  (modify g ≫= f) s = f () (g s).
Proof. reflexivity. Qed.

Lemma bind_mret {A B} (a : A) (f : A → Mth B) s : (mret a ≫= f) s = f a s.
Proof. reflexivity. Qed.

Lemma bind_lift {A B} (o : outcome A) (f : A → Mth B) s :
  (lift o ≫= f) s = match o with
                    | Return a => f a s
                    | Raise e => (Raise e, s)
                    end.
Proof. by destruct o. Qed.

Lemma bind_subscript {A B} (o : option A) (f : A → Mth B) s :
  (subscript o ≫= f) s = match o with
                         | Some a => f a s
                         | None => (Raise TypeError, s)
                         end.
Proof. by destruct o. Qed.

Lemma bind_if {A B} (c : bool) (m1 m2 : Mth A) (f : A → Mth B) s :
  ((if c then m1 else m2) ≫= f) s = if c then (m1 ≫= f) s else (m2 ≫= f) s.
Proof. by destruct c. Qed.

Lemma preserves_bind {A B} P `{!Transitive P} (m : Mth A) (f : A → Mth B) :
  preserves P m → (∀ a, preserves P (f a)) → preserves P (m ≫= f).
Proof.
  intros Hm Hf s. rewrite bind_unfold. specialize (Hm s).
  destruct (m s) as [[a|e] s1]; simpl in *; [|done].
  etrans; [exact Hm|apply Hf].
Qed.

Lemma preserves_pure {A} P `{!Reflexive P} (m : Mth A) :
  (∀ s, (m s).2 = s) → preserves P m.
Proof. intros Hm s. by rewrite Hm. Qed.

Lemma preserves_modify P (g : State R coord → State R coord) :
  (∀ s, P s (g s)) → preserves P (modify g).
Proof. intros Hg s. apply Hg. Qed.

#[global] Instance same_on_refl {B} (f : State R coord → B) : Reflexive (same_on f).
Proof. by intros s. Qed.
#[global] Instance same_on_trans {B} (f : State R coord → B) : Transitive (same_on f).
Proof. intros s1 s2 s3 H12 H23. unfold same_on in *. congruence. Qed.
End logic.

Ltac frame_step :=
  lazymatch goal with
  | |- preserves _ (_ ≫= _) => apply preserves_bind; [apply _| |intros ?]
  | |- preserves _ (modify _) =>
      apply preserves_modify; intros ?; first [reflexivity | exact (λ x, x)]
  | |- preserves _ get => apply preserves_pure; [apply _|reflexivity]
  | |- preserves _ (gets _) => apply preserves_pure; [apply _|reflexivity]
  | |- preserves _ (lift _) => apply preserves_pure; [apply _|reflexivity]
  | |- preserves _ (subscript _) => apply preserves_pure; [apply _|reflexivity]
  | |- preserves _ (raise _) => apply preserves_pure; [apply _|reflexivity]
  | |- preserves _ (mret _) => apply preserves_pure; [apply _|reflexivity]
  | |- preserves _ (match ?x with _ => _ end) => destruct x
  | |- preserves _ (if ?x then _ else _) => destruct x
  | |- preserves _ (let '(_, _) := ?x in _) => destruct x
  end.

Ltac frame := repeat frame_step.

Ltac unfold_setters :=
  unfold set_data, set_active_atoms_data_before_move,
    set_active_atoms_data_after_move, set_standard_error,
    set_after_move_standard_error, set_amputation_data,
    set_amputation_standard_error, _set_fitted_scale_factor_value,
    _set_adjust_scale_factor_frequency, _set_original_data,
    assign_fittedScaleFactor, assign_weightingScheme, assign_boxCoordinates,
    assign_numberOfAtomsPerElement in *.

(** One step of a method call that is known to return: the hypothesis [H]
    says that [(m ≫= f) s] returns, so [m] returns and [f] goes on. *)
Ltac mstep H :=
  first
    [ rewrite bind_get in H
    | rewrite bind_modify in H
    | rewrite bind_mret in H
    | rewrite bind_subscript in H; cbv beta iota in H;
      lazymatch type of H with
      | match ?o with _ => _ end = _ =>
          let E := fresh "E" in destruct o eqn:E; [|discriminate H]
      | _ => idtac
      end
    | rewrite bind_lift in H; cbv beta iota in H;
      lazymatch type of H with
      | match ?o with _ => _ end = _ =>
          let E := fresh "E" in destruct o eqn:E; [|discriminate H]
      | _ => idtac
      end
    | rewrite bind_if in H;
      lazymatch type of H with
      | (if ?c then _ else _) = _ =>
          let E := fresh "E" in destruct c eqn:E
      end
    | rewrite bind_unfold in H;
      lazymatch type of H with
      | match ?m ?s with _ => _ end = _ =>
          let E := fresh "E" in
          destruct (m s) as [[?|?] ?] eqn:E; [|discriminate H]
      end ];
  cbv beta in H; unfold with_self, with_engine in H; simpl in H.


(** ** Arrays *)

Section array_facts.
Context {R : Type} `{Num R}.

Lemma outcome_bind_Return {A B} (f : A → outcome B) (o : outcome A) (b : B) :
  o ≫= f = Return b → ∃ a, o = Return a ∧ f a = Return b.
Proof. destruct o as [a|e]; [eauto|discriminate]. Qed.

Lemma vop_cons (f : R → R → R) (x y : R) (xs ys : list R) :
  vop f (x :: xs) (y :: ys) = (zs ← vop f xs ys; Return (f x y :: zs)).
Proof. reflexivity. Qed.

Lemma vop_lookup (f : R → R → R) (xs ys zs : list R) (k : nat) :
  vop f xs ys = Return zs →
  zs !! k = (x ← xs !! k; y ← ys !! k; Some (f x y)).
Proof.
  revert ys zs k. induction xs as [|x xs IH]; intros [|y ys] zs k Hz;
    try discriminate.
  - injection Hz as <-. done.
  - rewrite vop_cons in Hz.
    apply outcome_bind_Return in Hz as (zs' & Hzs' & Hzs).
    injection Hzs as <-.
    destruct k as [|k]; [done|]. simpl. by apply IH.
Qed.

Lemma vop_length (f : R → R → R) (xs ys zs : list R) :
  vop f xs ys = Return zs → length ys = length xs ∧ length zs = length xs.
Proof.
  revert ys zs. induction xs as [|x xs IH]; intros [|y ys] zs Hz;
    try discriminate.
  - by injection Hz as <-.
  - rewrite vop_cons in Hz.
    apply outcome_bind_Return in Hz as (zs' & Hzs' & Hzs).
    injection Hzs as <-. destruct (IH _ _ Hzs') as [Hy Hz']. simpl. by rewrite Hy, Hz'.
Qed.

(** The histogram arithmetic of [accept_move], component by component,
    is [d - b + a]. *)
Lemma hist_minus_plus_components (d b a : Hist R) (i e : arr3 R) :
  (x ← arr3_op sub (intra d) (intra b); arr3_op add x (intra a)) = Return i →
  (x ← arr3_op sub (inter d) (inter b); arr3_op add x (inter a)) = Return e →
  hist_minus_plus d b a = Return (mkHist i e).
Proof.
  intros Hi He.
  apply outcome_bind_Return in Hi as (xi & Hxi & Hi).
  apply outcome_bind_Return in He as (xe & Hxe & He).
  unfold hist_minus_plus, hist_sub, hist_add, hist_op.
  rewrite Hxi, Hxe. simpl. rewrite Hi, He. done.
Qed.

Lemma vzip_lookup {A B C} (f : A → B → outcome C) (xs : list A) (ys : list B)
    (zs : list C) (k : nat) :
  vzip f xs ys = Return zs →
  match zs !! k with
  | Some z => ∃ x y, xs !! k = Some x ∧ ys !! k = Some y ∧ f x y = Return z
  | None => xs !! k = None ∧ ys !! k = None
  end.
Proof.
  revert ys zs k. induction xs as [|x xs IH]; intros [|y ys] zs k Hz;
    try discriminate.
  - injection Hz as <-. done.
  - simpl in Hz.
    apply outcome_bind_Return in Hz as (z & Hz & Hzs).
    apply outcome_bind_Return in Hzs as (zs' & Hzs' & Hzs).
    injection Hzs as <-. destruct k as [|k]; simpl.
    + by exists x, y.
    + by apply IH.
Qed.

Lemma arr3_op_entry (f : R → R → R) (a b c : arr3 R) (i j k : nat) :
  arr3_op f a b = Return c →
  entry c i j k = (x ← entry a i j k; y ← entry b i j k; Some (f x y)).
Proof.
  intros Hc. unfold entry.
  pose proof (vzip_lookup _ _ _ _ i Hc) as Hi. unfold arr3, arr2 in *. revert Hi.
  destruct (c !! i) as [ci|]; simpl.
  - intros (ai & bi & -> & -> & Hci). simpl.
    pose proof (vzip_lookup _ _ _ _ j Hci) as Hj. unfold arr2 in *. revert Hj.
    destruct (ci !! j) as [cij|]; simpl.
    + intros (aij & bij & -> & -> & Hcij). simpl.
      by apply vop_lookup.
    + by intros [-> ->].
  - by intros [-> ->].
Qed.

(** Entry by entry, [hist_minus_plus d b a] is [(d - b) + a]. *)
Lemma hist_minus_plus_entry (d b a h : Hist R) (i j k : nat) :
  hist_minus_plus d b a = Return h →
  entry (intra h) i j k
    = (x ← entry (intra d) i j k; y ← entry (intra b) i j k;
       z ← entry (intra a) i j k; Some (add (sub x y) z)) ∧
  entry (inter h) i j k
    = (x ← entry (inter d) i j k; y ← entry (inter b) i j k;
       z ← entry (inter a) i j k; Some (add (sub x y) z)).
Proof.
  unfold hist_minus_plus, hist_sub, hist_add, hist_op. intros Hh.
  apply outcome_bind_Return in Hh as ([xi xe] & Hx & Hh).
  apply outcome_bind_Return in Hx as (xi' & Hxi & Hx).
  apply outcome_bind_Return in Hx as (xe' & Hxe & Hx).
  injection Hx as -> ->. simpl in Hh.
  apply outcome_bind_Return in Hh as (hi & Hhi & Hh).
  apply outcome_bind_Return in Hh as (he & Hhe & Hh).
  injection Hh as <-. simpl.
  rewrite (arr3_op_entry _ _ _ _ i j k Hhi), (arr3_op_entry _ _ _ _ i j k Hxi).
  rewrite (arr3_op_entry _ _ _ _ i j k Hhe), (arr3_op_entry _ _ _ _ i j k Hxe).
  split.
  - by destruct (entry (intra d) i j k), (entry (intra b) i j k).
  - by destruct (entry (inter d) i j k), (entry (inter b) i j k).
Qed.
End array_facts.

(** ** The observable *)

Section observable.
Context {R coord : Type} `{Num R}.
Implicit Types (s : State R coord) (d : Hist R).

(** C9. A constraint whose data have never been computed ([data] is
    [None]) answers [get_constraint_value] with the empty dictionary: it
    neither raises nor returns partial results. *)
Theorem get_constraint_value_without_data s :
  data (self s) = None → get_constraint_value s = Return ∅.
Proof. intros Hd. unfold get_constraint_value. by rewrite Hd. Qed.

(** The structure factor is the reduced structure factor plus one, in
    every arithmetic. *)
Lemma SF_is_RSF_plus_one (m : arr2 R) (Gr : list R) :
  SF_get_Sq_from_Gr m Gr =
    (q ← RSF_get_Sq_from_Gr m Gr; Return (fmap (M:=list) (λ x, add x (of_Z 1)) q)).
Proof. reflexivity. Qed.

(** C10, as the code has it.  For every input array [Gr] the structure
    factor transform is the reduced transform plus 1 at every reciprocal
    sample point, in every arithmetic: this is what the two methods
    compute.  The reduced transform is the structure factor transform minus
    1 exactly when adding 1 and subtracting it again gives back every
    value [x] of the reduced transform, [(x + 1) - 1 = x]; floating point
    numbers do not all have this property. *)
Theorem RSF_is_SF_minus_one_iff (m : arr2 R) (Gr : list R) :
  SF_get_Sq_from_Gr m Gr =
    (q ← RSF_get_Sq_from_Gr m Gr; Return (fmap (M:=list) (λ x, add x (of_Z 1)) q)) ∧
  (RSF_get_Sq_from_Gr m Gr =
     (q ← SF_get_Sq_from_Gr m Gr; Return (fmap (M:=list) (λ x, sub x (of_Z 1)) q))
   ↔ ∀ q, RSF_get_Sq_from_Gr m Gr = Return q →
          Forall (λ x, sub (add x (of_Z 1)) (of_Z 1) = x) q).
Proof.
  split; [apply SF_is_RSF_plus_one|].
  rewrite SF_is_RSF_plus_one.
  destruct (RSF_get_Sq_from_Gr m Gr) as [q|e]; simpl; [|by split].
  rewrite <- list_fmap_compose. split.
  - intros [= Hq] q' [= <-]. apply Forall_lookup_2. intros k x Hx.
    apply (f_equal (.!! k)) in Hq. rewrite list_lookup_fmap, Hx in Hq.
    simpl in Hq. by injection Hq as <-.
  - intros Hq. specialize (Hq q eq_refl). f_equal. symmetry.
    rewrite <- (list_fmap_id q) at 2. apply list_fmap_ext.
    intros k x Hx. simpl. exact (Forall_lookup_1 _ _ _ _ Hq Hx).
Qed.



End observable.

(** ** The coordinate store *)

Section store.
Context {A : Type}.
Implicit Types (a : list A) (indexes : list nat).

Lemma gather_spec a indexes (v : list A) :
  gather a indexes = Return v → Forall2 (λ i x, a !! i = Some x) indexes v.
Proof.
  revert v. induction indexes as [|i indexes IH]; intros v Hv.
  - injection Hv as <-. constructor.
  - unfold gather in Hv. simpl in Hv.
    destruct (a !! i) as [x|] eqn:Hx; [|discriminate]. simpl in Hv.
    apply outcome_bind_Return in Hv as (v' & Hv' & Hv).
    injection Hv as <-. constructor; [done|]. by apply IH.
Qed.

Lemma writes_length a (ivs : list (nat * A)) :
  length (foldl (λ a iv, <[iv.1 := iv.2]> a) a ivs) = length a.
Proof.
  revert a. induction ivs as [|iv ivs IH]; intros a; [done|].
  simpl. by rewrite IH, length_insert.
Qed.

Lemma writes_elsewhere a (ivs : list (nat * A)) (p : nat) :
  p ∉ ivs.*1 → foldl (λ a iv, <[iv.1 := iv.2]> a) a ivs !! p = a !! p.
Proof.
  revert a. induction ivs as [|[i v] ivs IH]; intros a Hp; [done|].
  simpl in *. apply not_elem_of_cons in Hp as [Hpi Hp].
  rewrite IH by done. by apply list_lookup_insert_ne.
Qed.

(** Writing back, at every index, the value an array [a0] has there
    gives [a0], whatever was written at these indexes before. *)
Lemma writes_restore a0 (ivs : list (nat * A)) a :
  length a = length a0 →
  (∀ i v, (i, v) ∈ ivs → a0 !! i = Some v) →
  (∀ p, p ∉ ivs.*1 → a !! p = a0 !! p) →
  foldl (λ a iv, <[iv.1 := iv.2]> a) a ivs = a0.
Proof.
  revert a. induction ivs as [|[i v] ivs IH]; intros a Hlen Hval Hrest.
  - apply list_eq. intros p. apply Hrest. apply not_elem_of_nil.
  - simpl. apply IH.
    + by rewrite length_insert.
    + intros j w Hjw. apply Hval. by right.
    + intros p Hp. destruct (decide (p = i)) as [->|Hpi].
      * assert (a0 !! i = Some v) as Hv by (apply Hval; left).
        rewrite Hv. apply list_lookup_insert_eq.
        rewrite Hlen. by eapply lookup_lt_Some.
      * rewrite list_lookup_insert_ne by done. apply Hrest.
        simpl. by apply not_elem_of_cons.
Qed.

Lemma broadcast_rows_length (values rows : list A) (n : nat) :
  broadcast_rows values n = Some rows → length rows = n.
Proof.
  unfold broadcast_rows. intros Hb.
  destruct (decide (length values = n)) as [Hlen|_].
  - by injection Hb as <-.
  - destruct values as [|v [|]]; try discriminate.
    injection Hb as <-. apply length_replicate.
Qed.

Lemma broadcast_rows_same (values : list A) :
  broadcast_rows values (length values) = Some values.
Proof. unfold broadcast_rows. by rewrite decide_True. Qed.

Lemma scatter_Return a indexes (values a' : list A) :
  scatter a indexes values = Return a' →
  ∃ rows, broadcast_rows values (length indexes) = Some rows ∧
          length rows = length indexes ∧
          a' = foldl (λ a iv, <[iv.1 := iv.2]> a) a (zip indexes rows).
Proof.
  unfold scatter. intros Hs.
  destruct (broadcast_rows values (length indexes)) as [rows|] eqn:Hb;
    [|discriminate].
  destruct (decide (Forall _ indexes)); [|discriminate].
  injection Hs as <-. exists rows.
  split; [done|]. split; [by eapply broadcast_rows_length|done].
Qed.

(** The coordinates that [compute_after_move] copies before it writes the
    candidate coordinates put the store back as it was. *)
Lemma scatter_restore a indexes (boxData moved a' : list A) :
  gather a indexes = Return boxData →
  scatter a indexes moved = Return a' →
  scatter a' indexes boxData = Return a.
Proof.
  intros Hg%gather_spec Hs.
  assert (Forall (λ i, i < length a)%nat indexes) as Hin.
  { clear Hs. induction Hg as [|i x ? ? Hx]; constructor; [|done].
    by eapply lookup_lt_Some. }
  apply scatter_Return in Hs as (rows & _ & Hlen & ->).
  assert (length boxData = length indexes) as Hlen'
    by (symmetry; by eapply Forall2_length).
  unfold scatter. rewrite <- Hlen', broadcast_rows_same.
  rewrite decide_True by (by rewrite writes_length).
  f_equal. apply writes_restore.
  - apply writes_length.
  - intros i v Hiv. apply list_elem_of_lookup in Hiv as [k Hk].
    apply lookup_zip_with_Some in Hk as (i' & v' & Heq & Hi & Hv).
    injection Heq as -> ->.
    exact (Forall2_lookup_lr _ _ _ _ _ _ Hg Hi Hv).
  - intros p Hp. apply writes_elsewhere.
    rewrite fst_zip in Hp by lia. by rewrite fst_zip by lia.
Qed.
End store.

(** ** Moves *)

Ltac unfold_methods :=
  unfold compute_before_move, compute_after_move, accept_move, reject_move,
    compute_data, active_atoms_data, get_total, get_total_Gr, get_total_Sq,
    get_adjusted_scale_factor, compute_and_set_standard_error in *.

(** Frames of the methods for a given attribute. *)
Ltac frame_methods := intros; unfold_methods; unfold_setters; frame.

Section moves.
Context {R coord : Type} `{Num R} `{External R coord}.
Local Abbreviation Mth := (M R coord).
Implicit Types (s : State R coord) (S : list nat) (d : Hist R).

Lemma run_Return {A} (m : Mth A) s (a : A) :
  (m s).1 = Return a → m s = (Return a, (m s).2).
Proof. destruct (m s) as [o s']. simpl. by intros ->. Qed.

Lemma with_boxCoordinates_same s :
  with_boxCoordinates (boxCoordinates (engine s)) s = s.
Proof. by destruct s as [[] ? ?]. Qed.

(** The histogram kernels are called on the engine and change nothing. *)
Lemma active_atoms_data_pure S s : (active_atoms_data S s).2 = s.
Proof.
  assert (preserves (same_on id) (active_atoms_data (coord:=coord) S)) as Hp
    by frame_methods.
  apply Hp.
Qed.

Lemma active_atoms_data_self S (e : Engine R coord) (c : Config R) (x y : Constraint R) :
  (active_atoms_data S (mkState e c x)).1 = (active_atoms_data S (mkState e c y)).1.
Proof.
  unfold active_atoms_data. rewrite !bind_get. simpl.
  repeat (rewrite !bind_lift; simpl;
          repeat match goal with
            | |- context [match ?o with Return _ => _ | Raise _ => _ end] =>
                lazymatch o with
                | context [match _ with _ => _ end] => fail
                | _ => destruct o as [[? ?]|?]
                end
            | |- context [match ?o with Return _ => _ | Raise _ => _ end] =>
                lazymatch o with
                | context [match _ with _ => _ end] => fail
                | _ => destruct o
                end
            end; simpl; try done).
Qed.

(** The delta depends on the engine and the set-up only. *)
Lemma delta_at_ext S (store : list coord) s s' :
  engine s' = engine s → cfg s' = cfg s → delta_at S store s' = delta_at S store s.
Proof.
  destruct s as [e c x], s' as [e' c' y]. simpl. intros -> ->.
  apply active_atoms_data_self.
Qed.

Lemma delta_at_current S s b s' :
  active_atoms_data S s = (Return b, s') →
  delta_at S (boxCoordinates (engine s)) s = Return b.
Proof.
  intros Hb. unfold delta_at. by rewrite with_boxCoordinates_same, Hb.
Qed.

(** What [compute_before_move] leaves when it returns. *)
Lemma compute_before_move_Return S s s1 :
  compute_before_move S s = (Return (), s1) →
  ∃ b, delta_at S (boxCoordinates (engine s)) s = Return b ∧
       s1 = mkState (engine s) (cfg s)
              (mkConstraint (data (self s)) (originalData (self s)) (Some b) None
                 (standardError (self s)) (afterMoveStandardError (self s))
                 (amputationData (self s)) (amputationStandardError (self s))
                 (scaleFactor (self s)) (_fittedScaleFactor (self s))
                 (adjustScaleFactorFrequency (self s)) (weightingScheme (self s))).
Proof.
  unfold compute_before_move. unfold_setters. intros Hm.
  mstep Hm. pose proof (active_atoms_data_pure S s) as Hp.
  rewrite E in Hp. simpl in Hp. subst.
  repeat mstep Hm. injection Hm as <-.
  exists a. split; [by eapply delta_at_current|done].
Qed.

(** [data - before + after] reads these three attributes only. *)
Lemma data_minus_before_plus_after_ext (c : Hist R → arr3 R) s s' :
  data (self s') = data (self s) →
  activeAtomsDataBeforeMove (self s') = activeAtomsDataBeforeMove (self s) →
  activeAtomsDataAfterMove (self s') = activeAtomsDataAfterMove (self s) →
  data_minus_before_plus_after c s' = data_minus_before_plus_after c s.
Proof. unfold data_minus_before_plus_after. by intros -> -> ->. Qed.

Lemma data_minus_before_plus_after_Return s i e :
  data_minus_before_plus_after intra s = Return i →
  data_minus_before_plus_after inter s = Return e →
  ∃ d b a, data (self s) = Some d ∧
           activeAtomsDataBeforeMove (self s) = Some b ∧
           activeAtomsDataAfterMove (self s) = Some a ∧
           hist_minus_plus d b a = Return (mkHist i e).
Proof.
  unfold data_minus_before_plus_after. intros Hi He.
  destruct (data (self s)) as [d|]; [|discriminate].
  destruct (activeAtomsDataBeforeMove (self s)) as [b|]; [|discriminate].
  simpl in Hi, He.
  destruct (activeAtomsDataAfterMove (self s)) as [a|].
  - exists d, b, a. repeat split. by apply hist_minus_plus_components.
  - apply outcome_bind_Return in Hi as (? & _ & Hi). discriminate.
Qed.

(** [get_total] assigns [_fittedScaleFactor] and nothing else. *)
Lemma get_total_frame {B} (f : State R coord → B) d rho0 :
  (∀ v s, f (assign_fittedScaleFactor v s).2 = f s) →
  preserves (same_on f) (get_total d rho0).
Proof.
  intros Hf. unfold_methods. unfold_setters.
  repeat first [ frame_step
               | apply preserves_modify; intros ?; apply Hf ].
Qed.

Lemma get_total_Return d rho0 s total s' :
  get_total d rho0 s = (Return total, s') →
  ∃ sf, _fittedScaleFactor (self s') = Some sf.
Proof.
  unfold_methods. unfold_setters. intros Hm. mstep Hm.
  destruct (kind (cfg s)); repeat mstep Hm;
    repeat match type of Hm with
           | context [match ?o with _ => _ end] => destruct o eqn:?; simpl in Hm
           end;
    try discriminate Hm; repeat mstep Hm; injection Hm as _ <-; simpl; eauto.
Qed.

(** What [compute_after_move] has done when it returns. *)
Lemma compute_after_move_Return S (moved : list coord) s s2 :
  compute_after_move S moved s = (Return (), s2) →
  ∃ store' a i e total sT se,
    scatter (boxCoordinates (engine s)) S moved = Return store' ∧
    delta_at S store' s = Return a ∧
    data_minus_before_plus_after intra
      (set_active_atoms_data_after_move (Some a) s).2 = Return i ∧
    data_minus_before_plus_after inter
      (set_active_atoms_data_after_move (Some a) s).2 = Return e ∧
    get_total (mkHist i e) (numberDensity (engine s))
      (set_active_atoms_data_after_move (Some a) s).2 = (Return total, sT) ∧
    compute_standard_error sT total = Return se ∧
    s2 = (set_after_move_standard_error (Some se) sT).2.
Proof.
  destruct s as [[] c x]. unfold compute_after_move, delta_at, with_boxCoordinates.
  unfold_setters. simpl. intros Hm.
  do 4 mstep Hm.
  mstep Hm.
  match type of E1 with
  | active_atoms_data S ?sm = _ =>
      pose proof (active_atoms_data_pure S sm) as Hp; rewrite E1 in Hp;
      simpl in Hp; subst
  end.
  do 3 mstep Hm.
  rewrite (scatter_restore _ _ _ _ _ E E0) in E2. injection E2 as <-.
  repeat mstep Hm. injection Hm as <-.
  unfold with_engine, with_self. simpl.
  eexists _, _, _, _, _, _, _. rewrite E1. simpl.
  repeat split; eauto.
Qed.

Lemma accept_move_returns s i e f :
  data_minus_before_plus_after intra s = Return i →
  data_minus_before_plus_after inter s = Return e →
  _fittedScaleFactor (self s) = Some f →
  accept_move s =
    (Return (),
     mkState (engine s) (cfg s)
       (mkConstraint (Some (mkHist i e)) (originalData (self s)) None None
          (afterMoveStandardError (self s)) None (amputationData (self s))
          (amputationStandardError (self s)) f (Some f)
          (adjustScaleFactorFrequency (self s)) (weightingScheme (self s)))).
Proof.
  intros Hi He Hf. unfold accept_move. unfold_setters.
  rewrite bind_get, bind_lift, Hi, bind_lift, He.
  rewrite !bind_modify, bind_get, !bind_modify, bind_get. simpl.
  rewrite bind_lift. unfold modify, with_self. simpl. by rewrite Hf.
Qed.

(** C1. For every move transaction over an atom subset: once
    [compute_before_move] and [compute_after_move] have staged the deltas
    of that subset, [accept_move] returns and sets the committed data
    (intra and inter) to exactly the data committed before, minus the
    delta computed before the move, plus the delta computed with the
    candidate coordinates, and clears both deltas. *)
Theorem accept_move_commits_delta S (moved : list coord) s s1 s2 :
  compute_before_move S s = (Return (), s1) →
  compute_after_move S moved s1 = (Return (), s2) →
  ∃ d b a store' h s3,
    data (self s) = Some d ∧
    delta_at S (boxCoordinates (engine s)) s = Return b ∧
    scatter (boxCoordinates (engine s)) S moved = Return store' ∧
    delta_at S store' s = Return a ∧
    activeAtomsDataBeforeMove (self s2) = Some b ∧
    activeAtomsDataAfterMove (self s2) = Some a ∧
    hist_minus_plus d b a = Return h ∧
    accept_move s2 = (Return (), s3) ∧
    data (self s3) = Some h ∧
    activeAtomsDataBeforeMove (self s3) = None ∧
    activeAtomsDataAfterMove (self s3) = None.
Proof.
  intros (b & Hb & ->)%compute_before_move_Return Hafter.
  apply compute_after_move_Return in Hafter
    as (store' & a & i & e & total & sT & se & Hsc & Ha & Hi & He & Ht & Hse & ->).
  simpl in *.
  destruct (data_minus_before_plus_after_Return _ _ _ Hi He)
    as (d & b' & a' & Hd & Hb' & Ha' & Hh).
  simpl in *. injection Hb' as <-. injection Ha' as <-.
  match type of Ht with
  | get_total ?h ?rho ?s0 = _ =>
      pose proof (get_total_frame
                    (λ s, (data (self s), activeAtomsDataBeforeMove (self s),
                           activeAtomsDataAfterMove (self s)))
                    h rho (λ _ _, eq_refl) s0) as Hfr
  end.
  rewrite Ht in Hfr. unfold same_on in Hfr. simpl in Hfr.
  injection Hfr as HdT HbT HaT.
  destruct (get_total_Return _ _ _ _ _ Ht) as [sf Hsf].
  assert (delta_at S store' s = Return a) as Ha'
    by (rewrite <- Ha; symmetry; by apply delta_at_ext).
  eexists d, b, a, store', _, _.
  split; [done|]. split; [done|]. split; [done|]. split; [done|].
  split; [done|]. split; [done|]. split; [exact Hh|].
  split.
  - apply accept_move_returns; [| |exact Hsf].
    + rewrite <- Hi. by apply data_minus_before_plus_after_ext.
    + rewrite <- He. by apply data_minus_before_plus_after_ext.
  - done.
Qed.

(** The committed data and standard error are not written by the moves. *)
Lemma moves_keep_committed S (moved : list coord) :
  let committed s := (data (self s), standardError (self s)) in
  preserves (same_on committed) (compute_before_move S) ∧
  preserves (same_on committed) (compute_after_move S moved).
Proof. split; frame_methods. Qed.

(** C3. After [compute_before_move], [compute_after_move] and
    [reject_move] the committed data and the committed standard error are
    what they were before the transaction, whether the first two calls
    returned or raised; [reject_move] clears the two deltas and the
    staged standard error and touches nothing else. *)
Theorem reject_move_discards S (moved : list coord) s :
  let s1 := (compute_before_move S s).2 in
  let s2 := (compute_after_move S moved s1).2 in
  reject_move s2 = (Return (), move_discarded s2) ∧
  data (self (move_discarded s2)) = data (self s) ∧
  standardError (self (move_discarded s2)) = standardError (self s) ∧
  activeAtomsDataBeforeMove (self (move_discarded s2)) = None ∧
  activeAtomsDataAfterMove (self (move_discarded s2)) = None ∧
  afterMoveStandardError (self (move_discarded s2)) = None.
Proof.
  intros s1 s2. split; [done|]. simpl.
  destruct (moves_keep_committed S moved) as [Hb Ha].
  specialize (Hb s). specialize (Ha s1). unfold same_on in Hb, Ha.
  fold s1 in Hb. fold s2 in Ha.
  assert ((data (self s2), standardError (self s2))
          = (data (self s), standardError (self s))) as Heq by congruence.
  by injection Heq as -> ->.
Qed.

(** C2, as the code has it.  [compute_after_move] has no clean-up on its
    error paths, and this is what it leaves in the engine's coordinate
    store for every atom subset and every candidate coordinates.  When the
    copy of the original rows or the write of the candidates raises (an
    index out of range, rows that cannot be assigned), the call raises
    before it has written anything and the store is as before.  When the
    candidates are written and the histogram computation on them returns,
    the store is as before when the call ends, whether the call then
    returns or raises in the transform or in the standard error.  When the
    candidates are written and the histogram computation on them raises,
    the call raises that error and the store holds the candidate
    coordinates. *)
Theorem compute_after_move_store S (moved : list coord) s :
  let store := boxCoordinates (engine s) in
  let r := compute_after_move S moved s in
  match gather store S, scatter store S moved with
  | Return _, Return store' =>
      match delta_at S store' s with
      | Return _ => boxCoordinates (engine r.2) = store
      | Raise e => r.1 = Raise e ∧ boxCoordinates (engine r.2) = store'
      end
  | Raise e, _ | Return _, Raise e =>
      r.1 = Raise e ∧ boxCoordinates (engine r.2) = store
  end.
Proof.
  destruct s as [[] c x]. unfold delta_at, with_boxCoordinates.
  unfold compute_after_move. unfold_setters. simpl.
  rewrite bind_get, bind_lift. simpl.
  destruct (gather _ S) as [boxData|?] eqn:Hg; [|done].
  rewrite bind_lift.
  destruct (scatter _ S moved) as [store'|?] eqn:Hs; [|done].
  rewrite bind_modify, bind_unfold. unfold with_engine, with_self. simpl.
  match goal with
  | |- context [active_atoms_data S ?sm] =>
      pose proof (active_atoms_data_pure S sm) as Hp;
      destruct (active_atoms_data S sm) as [[a|err] sm'] eqn:Ha;
      simpl in Hp; subst sm'
  end.
  - simpl. rewrite bind_modify, bind_get, bind_lift. simpl.
    rewrite (scatter_restore _ _ _ _ _ Hg Hs). rewrite bind_modify. simpl.
    match goal with
    | |- boxCoordinates (engine (?m ?s0).2) = _ =>
        assert (preserves (same_on (λ s, boxCoordinates (engine s))) m) as Hp
          by frame_methods;
        apply (Hp s0)
    end.
  - done.
Qed.
End moves.

(** ** Amputation *)

Section amputation.
Context {R coord : Type} `{Num R} `{External R coord}.
Implicit Types (s : State R coord) (d : Hist R).

Lemma compute_standard_error_ext s s' (model : list R) :
  cfg s' = cfg s → compute_standard_error s' model = compute_standard_error s model.
Proof. unfold compute_standard_error. by intros ->. Qed.

(** What [compute_as_if_amputated] has staged, and what it has put back,
    when it returns. *)
Lemma compute_as_if_amputated_Return (relativeIndex : list nat) s s1 :
  compute_as_if_amputated relativeIndex s = (Return (), s1) →
  ∃ atom el n d b reduced ws total sT se,
    relativeIndex !! 0%nat = Some atom ∧
    allElements (engine s) !! atom = Some el ∧
    numberOfAtomsPerElement (engine s) !! el = Some n ∧
    data (self s) = Some d ∧
    delta_at relativeIndex (boxCoordinates (engine s)) s = Return b ∧
    hist_sub d b = Return reduced ∧
    get_normalized_weighting (<[el := (n - 1)%Z]> (numberOfAtomsPerElement (engine s)))
      (_elementsWeight (cfg s)) = Return ws ∧
    get_total reduced
      (FLOAT_TYPE (div (of_Z (numberOfAtoms (engine s) - 1)) (volume (engine s))))
      (as_if_amputated b el n ws s) = (Return total, sT) ∧
    compute_standard_error s total = Return se ∧
    amputationData (self s1) = Some (reduced, FLOAT_TYPE <$> ws) ∧
    amputationStandardError (self s1) = Some se ∧
    data (self s1) = data (self s) ∧
    weightingScheme (self s1) = weightingScheme (self s) ∧
    numberOfAtomsPerElement (engine s1) = numberOfAtomsPerElement (engine s).
Proof.
  unfold compute_as_if_amputated. intros Hm.
  mstep Hm. destruct a.
  apply compute_before_move_Return in E as (b & Hb & ->).
  unfold_setters. simpl in Hm.
  repeat mstep Hm.
  all: injection Hm as <-; simpl.
  all: match goal with
       | Ht : get_total ?h ?rho ?st = (Return _, _) |- _ =>
           pose proof (get_total_frame
                         (λ s, (engine s, cfg s, data (self s),
                                weightingScheme (self s)))
                         h rho (λ _ _, eq_refl) st) as Hfr;
           rewrite Ht in Hfr; unfold same_on in Hfr; simpl in Hfr;
           injection Hfr as Hen Hcf Hda Hws
       end.
  all: match goal with
       | Hn : dict_get (numberOfAtomsPerElement (engine _)) _ = Return ?n' |- _ =>
           unfold dict_get in Hn; rewrite Hen in Hn; simpl in Hn;
           rewrite lookup_insert_eq in Hn; injection Hn as <-
       end.
  all: repeat match goal with
         | Ho : of_option _ ?o = Return _ |- _ =>
             destruct o eqn:?; [injection Ho as ->|discriminate Ho]
         | Ho : dict_get _ _ = Return _ |- _ => unfold dict_get in Ho
         end.
  all: eexists _, _, _, _, b, (mkHist _ _), _, _, _, _.
  all: split; [done|]; split; [done|]; split; [done|]; split; [done|].
  all: split; [exact Hb|].
  all: split; [unfold hist_sub, hist_op;
               match goal with
               | Hi : arr3_op sub (intra _) _ = _, He : arr3_op sub (inter _) _ = _ |- _ =>
                   by rewrite Hi, He
               end|].
  all: split; [eassumption|].
  all: split; [unfold as_if_amputated; unfold_setters;
               match goal with
               | Ha : allowFittingScaleFactor (engine _) = _ |- _ => rewrite Ha
               end;
               rewrite ?bind_modify; unfold modify, mret, M_ret, with_self, with_engine;
               simpl;
               repeat match goal with
                 | Ha : allowFittingScaleFactor (engine _) = _ |- _ => rewrite Ha
                 | Hd : data (self _) = Some _ |- _ => rewrite Hd
                 end;
               eassumption|].
  all: split; [match goal with
               | Hse : compute_standard_error _ _ = Return _ |- _ =>
                   rewrite <- Hse; symmetry; by apply compute_standard_error_ext
               end|].
  all: split; [by rewrite Hws|].
  all: split; [done|].
  all: split; [by rewrite Hda|].
  all: split; [done|].
  all: rewrite Hen; simpl; rewrite insert_insert_eq.
  all: match goal with
       | |- <[_ := ?x]> _ = _ => ring_simplify x
       end.
  all: by apply insert_id.
Qed.

(** C5. For a single atom, [compute_as_if_amputated] stages: as data the
    committed data minus the delta of that atom alone, as weighting
    scheme the one recomputed with the population of the atom's element
    decremented by one, and as standard error the one of the observable
    recomputed from these with the number density [(N - 1) / V]; the
    committed data are not changed. *)
Theorem compute_as_if_amputated_stages (relativeIndex : list nat) s s1 :
  compute_as_if_amputated relativeIndex s = (Return (), s1) →
  ∃ atom el n d b reduced ws total sT se,
    relativeIndex !! 0%nat = Some atom ∧
    allElements (engine s) !! atom = Some el ∧
    numberOfAtomsPerElement (engine s) !! el = Some n ∧
    data (self s) = Some d ∧
    delta_at relativeIndex (boxCoordinates (engine s)) s = Return b ∧
    hist_sub d b = Return reduced ∧
    get_normalized_weighting (<[el := (n - 1)%Z]> (numberOfAtomsPerElement (engine s)))
      (_elementsWeight (cfg s)) = Return ws ∧
    get_total reduced
      (FLOAT_TYPE (div (of_Z (numberOfAtoms (engine s) - 1)) (volume (engine s))))
      (as_if_amputated b el n ws s) = (Return total, sT) ∧
    compute_standard_error s total = Return se ∧
    amputationData (self s1) = Some (reduced, FLOAT_TYPE <$> ws) ∧
    amputationStandardError (self s1) = Some se ∧
    data (self s1) = data (self s).
Proof.
  intros (atom & el & n & d & b & reduced & ws & total & sT & se & ? & ? & ? & ?
          & ? & ? & ? & ? & ? & ? & ? & ? & _)%compute_as_if_amputated_Return.
  by exists atom, el, n, d, b, reduced, ws, total, sT, se.
Qed.

(** C4. For a single atom, [compute_as_if_amputated] followed by
    [reject_amputation] leaves the committed data, the weighting scheme
    and the populations of the elements as they were before
    [compute_as_if_amputated] was called. *)
Theorem reject_amputation_restores (relativeIndex : list nat) s s1 :
  compute_as_if_amputated relativeIndex s = (Return (), s1) →
  ∃ s2, reject_amputation s1 = (Return (), s2) ∧
        data (self s2) = data (self s) ∧
        weightingScheme (self s2) = weightingScheme (self s) ∧
        numberOfAtomsPerElement (engine s2) = numberOfAtomsPerElement (engine s) ∧
        amputationData (self s2) = None ∧
        amputationStandardError (self s2) = None.
Proof.
  intros (atom & el & n & d & b & reduced & ws & total & sT & se & _ & _ & _ & _
          & _ & _ & _ & _ & _ & _ & _ & Hd & Hw & Hn)%compute_as_if_amputated_Return.
  eexists. split; [reflexivity|]. by simpl.
Qed.
End amputation.

(** ** The scale factor *)

Section scale_factor_facts.
Context {R coord : Type} `{Num R} `{External R coord}.
Implicit Types (s : State R coord) (d : Hist R).

#[local] Instance keeps_refl (I : State R coord → Prop) : Reflexive (keeps I).
Proof. intros s Hs. exact Hs. Qed.
#[local] Instance keeps_trans (I : State R coord → Prop) : Transitive (keeps I).
Proof. intros s1 s2 s3 H12 H23 H1. by apply H23, H12. Qed.

(** When a refit is not due, the accepted scale factor is what
    [get_adjusted_scale_factor] returns. *)
Lemma get_adjusted_scale_factor_not_due (e m : list R) (w : option (list R)) s :
  refit_due (adjustScaleFactorFrequency (self s)) (generated (engine s)) = false →
  get_adjusted_scale_factor e m w s = (Return (scaleFactor (self s)), s).
Proof.
  intros Hdue. unfold get_adjusted_scale_factor. by rewrite bind_get, Hdue.
Qed.

Lemma get_adjusted_scale_factor_pure (e m : list R) (w : option (list R)) s :
  (get_adjusted_scale_factor e m w s).2 = s.
Proof.
  unfold get_adjusted_scale_factor. rewrite bind_get.
  destruct (refit_due _ _); [|done]. by destruct (fit_scale_factor _ _ _ _ _).
Qed.

Section invariant.
Variables (Q : R → Prop) (C : Config R → Z → Prop).
Hypothesis adjusted :
  ∀ s (e m : list R) (w : option (list R)) (sf : R),
    C (cfg s) (adjustScaleFactorFrequency (self s)) →
    Q (scaleFactor (self s)) →
    (get_adjusted_scale_factor e m w s).1 = Return sf → Q sf.

Lemma assign_fitted_keeps (e m : list R) (w : option (list R))
    (k : R → M R coord (list R)) :
  (∀ sf, preserves (keeps (scale_factor_invariant Q C)) (k sf)) →
  preserves (keeps (scale_factor_invariant Q C))
    (sf ← get_adjusted_scale_factor e m w; assign_fittedScaleFactor (Some sf);; k sf).
Proof.
  intros Hk s Hs. rewrite bind_unfold.
  pose proof (get_adjusted_scale_factor_pure e m w s) as Hp.
  pose proof (adjusted s e m w) as Hq.
  destruct (get_adjusted_scale_factor e m w s) as [[sf|err] s'];
    simpl in Hp; subst s'; [|done].
  unfold assign_fittedScaleFactor. rewrite bind_modify.
  apply Hk. destruct Hs as (HC & Hsf & Hf).
  split; [done|]. split; [done|]. simpl. intros f [= <-].
  by apply Hq.
Qed.

Lemma get_total_keeps d rho0 :
  preserves (keeps (scale_factor_invariant Q C)) (get_total (coord:=coord) d rho0).
Proof.
  unfold get_total, get_total_Gr, get_total_Sq.
  repeat first [ apply assign_fitted_keeps; intros ? | frame_step ].
Qed.

Lemma accept_move_keeps :
  preserves (keeps (scale_factor_invariant Q C)) (accept_move (coord:=coord)).
Proof.
  intros s (HC & Hsf & Hf). unfold accept_move. unfold_setters.
  rewrite bind_get, bind_lift.
  destruct (data_minus_before_plus_after intra s); [|done].
  rewrite bind_lift.
  destruct (data_minus_before_plus_after inter s); [|done].
  rewrite !bind_modify, bind_get, !bind_modify, bind_get, bind_lift.
  unfold with_self. simpl.
  destruct (_fittedScaleFactor (self s)) as [f|] eqn:Hfit; simpl.
  - split; [done|]. split; [by apply Hf|]. exact Hf.
  - split; [done|]. split; [done|]. exact Hf.
Qed.

Lemma step_keeps (ev : event) :
  preserves (keeps (scale_factor_invariant Q C)) (step ev).
Proof.
  destruct ev; simpl.
  - apply preserves_modify. intros s Hs. exact Hs.
  - frame_methods.
  - unfold compute_after_move, active_atoms_data. unfold_setters.
    repeat first [ apply get_total_keeps | frame_step ].
  - apply accept_move_keeps.
  - frame_methods.
Qed.

Lemma run_keeps (evs : list event) s :
  scale_factor_invariant Q C s → scale_factor_invariant Q C (run evs s).
Proof.
  revert s. induction evs as [|ev evs IH]; intros s Hs; [done|].
  simpl. apply IH. by apply step_keeps.
Qed.
End invariant.

Lemma clamp_in_bounds (lo hi x : R) :
  (∀ x : R, leb x x = true) →
  (∀ x y : R, ltb x y = false → leb y x = true) →
  leb lo hi = true →
  leb lo (clamp lo hi x) = true ∧ leb (clamp lo hi x) hi = true.
Proof.
  intros Hrefl Htotal Hlohi. unfold clamp.
  destruct (ltb x lo) eqn:Hlo; [by split|].
  destruct (ltb hi x) eqn:Hhi; [by split|].
  split; by apply Htotal.
Qed.

Lemma fit_scale_factor_in_bounds (lo hi : R) (e m : list R) (w : option (list R)) (sf : R) :
  (∀ x : R, leb x x = true) →
  (∀ x y : R, ltb x y = false → leb y x = true) →
  leb lo hi = true →
  fit_scale_factor lo hi e m w = Return sf →
  leb lo sf = true ∧ leb sf hi = true.
Proof.
  intros Hrefl Htotal Hlohi Hfit. unfold fit_scale_factor in Hfit.
  repeat (apply outcome_bind_Return in Hfit as (? & _ & Hfit)).
  destruct (eqb _ _); [discriminate|]. injection Hfit as <-.
  by apply clamp_in_bounds.
Qed.

(** C6, as the code has it.  In an arithmetic whose order is total: if
    the bounds are in order and the scale factor (and the fitted one, if
    there is one) starts within them, the scale factor lies within the
    bounds after every sequence of move evaluations, accepts and rejects;
    with an adjustment frequency of 0 the accepted scale factor never
    changes; and when a refit is not due the accepted scale factor is
    reused as it is. *)
Theorem scale_factor_policy (evs : list event) s :
  (∀ x : R, leb x x = true) →
  (∀ x y : R, ltb x y = false → leb y x = true) →
  (leb (adjustScaleFactorMinimum (cfg s)) (adjustScaleFactorMaximum (cfg s)) = true →
   in_bounds s (scaleFactor (self s)) →
   (∀ f, _fittedScaleFactor (self s) = Some f → in_bounds s f) →
   in_bounds s (scaleFactor (self (run evs s)))) ∧
  (adjustScaleFactorFrequency (self s) = 0%Z →
   (∀ f, _fittedScaleFactor (self s) = Some f → f = scaleFactor (self s)) →
   scaleFactor (self (run evs s)) = scaleFactor (self s)) ∧
  (∀ (e m : list R) (w : option (list R)),
     refit_due (adjustScaleFactorFrequency (self s)) (generated (engine s)) = false →
     get_adjusted_scale_factor e m w s = (Return (scaleFactor (self s)), s)).
Proof.
  intros Hrefl Htotal. split; [|split].
  - intros Hlohi Hsf Hfit.
    set (lo := adjustScaleFactorMinimum (cfg s)) in *.
    set (hi := adjustScaleFactorMaximum (cfg s)) in *.
    pose (Q := λ x : R, leb lo x = true ∧ leb x hi = true).
    pose (C := λ (c : Config R) (_ : Z),
            adjustScaleFactorMinimum c = lo ∧ adjustScaleFactorMaximum c = hi).
    assert (scale_factor_invariant Q C (run evs s)) as (_ & HQ & _); [|exact HQ].
    apply run_keeps; [|by split].
    intros s' e m w sf [Hlo Hhi] Hsf' Hadj.
    unfold get_adjusted_scale_factor in Hadj. rewrite bind_get in Hadj.
    destruct (refit_due _ _); simpl in Hadj; [|by injection Hadj as <-].
    destruct (fit_scale_factor _ _ e m w) as [x|] eqn:Hx; [|discriminate].
    injection Hadj as <-. rewrite Hlo, Hhi in Hx.
    by eapply fit_scale_factor_in_bounds.
  - intros Hfreq Hfit.
    pose (Q := λ x : R, x = scaleFactor (self s)).
    pose (C := λ (_ : Config R) (freq : Z), freq = 0%Z).
    assert (scale_factor_invariant Q C (run evs s)) as (_ & HQ & _); [|exact HQ].
    apply run_keeps; [|by split].
    intros s' e m w sf Hfreq' Hsf' Hadj.
    rewrite get_adjusted_scale_factor_not_due in Hadj.
    + injection Hadj as <-. exact Hsf'.
    + unfold C in Hfreq'. by rewrite Hfreq'.
  - intros. by apply get_adjusted_scale_factor_not_due.
Qed.
End scale_factor_facts.

(** ** The properties on the box of four atoms *)

Section exact.
Import Exact Line.

Lemma Qc_leb_refl (x : Qc) : leb x x = true.
Proof.
  unfold leb; simpl. by rewrite (proj1 (Qcanon.Qceq_alt x x) eq_refl).
Qed.

Lemma Qc_ltb_leb (x y : Qc) : ltb x y = false → leb y x = true.
Proof.
  unfold ltb, leb; simpl. unfold Qcanon.Qccompare.
  rewrite <- (QArith_base.Qcompare_antisym (Qcanon.this x) (Qcanon.this y)).
  by destruct (QArith_base.Qcompare _ _).
Qed.

Lemma Qc_add_sub_one (x : Qc) : sub (add x (of_Z 1)) (of_Z 1) = x.
Proof.
  simpl. unfold Qcanon.Qcminus.
  by rewrite <- Qcanon.Qcplus_assoc, Qcanon.Qcplus_opp_r, Qcanon.Qcplus_0_r.
Qed.
End exact.

Section examples.
Import Exact Line.

Lemma Qc_option_eq (x y : Qc) :
  QArith_base.Qeq_bool (Qcanon.this x) (Qcanon.this y) = true → Some x = Some y.
Proof.
  intros Heq. f_equal. apply Qcanon.Qc_is_canon.
  by apply QArith_base.Qeq_bool_iff.
Qed.

Lemma accept_move_commits_delta_witness :
  compute_before_move [1%nat] idle = (Return (), begun) ∧
  compute_after_move [1%nat] [Some 2%Z] begun = (Return (), staged) ∧
  ∃ d b a store' h s3,
    data (self idle) = Some d ∧
    delta_at [1%nat] (boxCoordinates (engine idle)) idle = Return b ∧
    scatter (boxCoordinates (engine idle)) [1%nat] [Some 2%Z] = Return store' ∧
    delta_at [1%nat] store' idle = Return a ∧
    activeAtomsDataBeforeMove (self staged) = Some b ∧
    activeAtomsDataAfterMove (self staged) = Some a ∧
    hist_minus_plus d b a = Return h ∧
    accept_move staged = (Return (), s3) ∧
    data (self s3) = Some h ∧
    activeAtomsDataBeforeMove (self s3) = None ∧
    activeAtomsDataAfterMove (self s3) = None.
Proof.
  assert (compute_before_move [1%nat] idle = (Return (), begun)) as H1
    by (apply (run_Return (compute_before_move [1%nat]) idle ());
        vm_compute; reflexivity).
  assert (compute_after_move [1%nat] [Some 2%Z] begun = (Return (), staged)) as H2
    by (apply (run_Return (compute_after_move [1%nat] [Some 2%Z]) begun ());
        vm_compute; reflexivity).
  split; [exact H1|]. split; [exact H2|].
  exact (accept_move_commits_delta _ _ _ _ _ H1 H2).
Defined.

(** On an error path the store is not restored: a candidate coordinate
    that is NaN makes the kernel raise, and the candidate coordinates are
    still in the engine's store when [compute_after_move] raises. *)
Lemma compute_after_move_leaves_candidate :
  (compute_after_move [1%nat] [None] begun).1 = Raise ExternalError ∧
  boxCoordinates (engine begun) = [Some 0; Some 1; Some 3; Some 6]%Z ∧
  boxCoordinates (engine (compute_after_move [1%nat] [None] begun).2)
    = [Some 0%Z; None; Some 3%Z; Some 6%Z] ∧
  boxCoordinates (engine (compute_after_move [1%nat] [None] begun).2)
    ≠ boxCoordinates (engine begun).
Proof.
  split; [vm_compute; reflexivity|]. split; [vm_compute; reflexivity|].
  split; [vm_compute; reflexivity|]. vm_compute. discriminate.
Qed.

Lemma reject_amputation_restores_witness :
  compute_as_if_amputated [1%nat] idle
    = (Return (), (compute_as_if_amputated [1%nat] idle).2) ∧
  ∃ s2, reject_amputation (compute_as_if_amputated [1%nat] idle).2 = (Return (), s2) ∧
        data (self s2) = data (self idle) ∧
        weightingScheme (self s2) = weightingScheme (self idle) ∧
        numberOfAtomsPerElement (engine s2) = numberOfAtomsPerElement (engine idle) ∧
        amputationData (self s2) = None ∧
        amputationStandardError (self s2) = None.
Proof.
  assert (compute_as_if_amputated [1%nat] idle
          = (Return (), (compute_as_if_amputated [1%nat] idle).2)) as H1
    by (apply (run_Return (compute_as_if_amputated [1%nat]) idle ());
        vm_compute; reflexivity).
  split; [exact H1|].
  exact (reject_amputation_restores _ _ _ H1).
Defined.

Lemma compute_as_if_amputated_stages_witness :
  compute_as_if_amputated [1%nat] idle
    = (Return (), (compute_as_if_amputated [1%nat] idle).2) ∧
  ∃ atom el n d b reduced ws total sT se,
    [1%nat] !! 0%nat = Some atom ∧
    allElements (engine idle) !! atom = Some el ∧
    numberOfAtomsPerElement (engine idle) !! el = Some n ∧
    data (self idle) = Some d ∧
    delta_at [1%nat] (boxCoordinates (engine idle)) idle = Return b ∧
    hist_sub d b = Return reduced ∧
    get_normalized_weighting
      (<[el := (n - 1)%Z]> (numberOfAtomsPerElement (engine idle)))
      (_elementsWeight (cfg idle)) = Return ws ∧
    get_total reduced
      (FLOAT_TYPE (div (of_Z (numberOfAtoms (engine idle) - 1)) (volume (engine idle))))
      (as_if_amputated b el n ws idle) = (Return total, sT) ∧
    compute_standard_error idle total = Return se ∧
    amputationData (self (compute_as_if_amputated [1%nat] idle).2)
      = Some (reduced, FLOAT_TYPE <$> ws) ∧
    amputationStandardError (self (compute_as_if_amputated [1%nat] idle).2) = Some se ∧
    data (self (compute_as_if_amputated [1%nat] idle).2) = data (self idle).
Proof.
  assert (compute_as_if_amputated [1%nat] idle
          = (Return (), (compute_as_if_amputated [1%nat] idle).2)) as H1
    by (apply (run_Return (compute_as_if_amputated [1%nat]) idle ());
        vm_compute; reflexivity).
  split; [exact H1|].
  exact (compute_as_if_amputated_stages _ _ _ H1).
Defined.

(** A scale factor that is configured outside its bounds and never
    refitted stays outside: it is 2, outside [4/5, 6/5], after a move is
    evaluated and accepted. *)
Lemma fixed_scale_factor_out_of_bounds :
  adjustScaleFactorFrequency (self fixed2) = 0%Z ∧
  (step Accept (run [Begin [1%nat]; Stage [1%nat] [Some 2%Z]] fixed2)).1 = Return () ∧
  ¬ in_bounds fixed2 (scaleFactor (self (run one_move fixed2))).
Proof.
  split; [vm_compute; reflexivity|]. split; [vm_compute; reflexivity|].
  intros [_ Hmax]. vm_compute in Hmax. discriminate.
Qed.

Lemma scale_factor_policy_witness :
  in_bounds fitting (scaleFactor (self (run one_move fitting))) ∧
  scaleFactor (self (run one_move idle)) = scaleFactor (self idle) ∧
  get_adjusted_scale_factor [] [] None idle = (Return (scaleFactor (self idle)), idle).
Proof.
  split; [|split].
  - apply (scale_factor_policy one_move fitting Qc_leb_refl Qc_ltb_leb).
    + vm_compute; reflexivity.
    + split; vm_compute; reflexivity.
    + intros f Hf. vm_compute in Hf. injection Hf as <-.
      split; vm_compute; reflexivity.
  - apply (scale_factor_policy one_move idle Qc_leb_refl Qc_ltb_leb).
    + vm_compute; reflexivity.
    + intros f Hf. vm_compute in Hf. injection Hf as <-.
      apply Qcanon.Qc_is_canon. vm_compute. reflexivity.
  - apply (scale_factor_policy one_move idle Qc_leb_refl Qc_ltb_leb).
    vm_compute; reflexivity.
Defined.

(** C7.  [compute_and_set_standard_error] compares the observable before
    the convolution with the experimental data: on a constraint with a
    window function it sets a standard error that differs from the one
    [compute_data] sets for the same data, and that is the standard
    error of the constraint without window function.  This holds in the
    pair distribution class and in the structure factor class. *)
Theorem compute_and_set_standard_error_skips_window :
  let skips (k : Kind) :=
    (compute_and_set_standard_error (windowed k)).1 = Return () ∧
    data (self (windowed k)) = data (self (unwindowed k)) ∧
    standardError (self (compute_and_set_standard_error (windowed k)).2)
      ≠ standardError (self (windowed k)) ∧
    standardError (self (compute_and_set_standard_error (windowed k)).2)
      = standardError (self (unwindowed k)) in
  skips PairDistributionConstraint ∧ skips StructureFactorConstraint.
Proof.
  split.
  - split; [vm_compute; reflexivity|]. split; [vm_compute; reflexivity|]. split.
    + intros Heq. vm_compute in Heq. discriminate.
    + vm_compute. apply Qc_option_eq. vm_compute. reflexivity.
  - split; [vm_compute; reflexivity|]. split; [vm_compute; reflexivity|]. split.
    + intros Heq. vm_compute in Heq. discriminate.
    + vm_compute. apply Qc_option_eq. vm_compute. reflexivity.
Qed.


Lemma get_constraint_value_without_data_witness :
  data (self (state0 PairDistributionConstraint None (frac 1 1) 0)) = None ∧
  get_constraint_value (state0 PairDistributionConstraint None (frac 1 1) 0) = Return ∅.
Proof.
  split; [reflexivity|].
  apply get_constraint_value_without_data. reflexivity.
Defined.

Lemma RSF_is_SF_minus_one_iff_witness :
  RSF_get_Sq_from_Gr (Gr2SqMatrix (config0 StructureFactorConstraint None))
    [frac 1 2; frac (-1) 3; frac 0 1; frac 2 1] =
  (q ← SF_get_Sq_from_Gr (Gr2SqMatrix (config0 StructureFactorConstraint None))
         [frac 1 2; frac (-1) 3; frac 0 1; frac 2 1];
   Return (fmap (M:=list) (λ x, sub x (of_Z 1)) q)).
Proof.
  apply (proj2 (RSF_is_SF_minus_one_iff _ _)).
  intros q _. apply Forall_forall. intros x _. apply Qc_add_sub_one.
Defined.
End examples.

Section examples_float.
#[local] Existing Instance IEEE.binary32.

(** In single precision the reduced transform is not the structure factor
    transform minus 1: with one distance, one reciprocal sample point, the
    matrix entry 1 and [Gr = [0.1]] the reduced transform is
    [13421773 / 2^27], the float next to 0.1, the structure factor
    transform is [9227469 / 2^23] = 1.10000002384..., and 1 less than that
    is [13421776 / 2^27] = 0.10000002384.... *)
Lemma RSF_is_not_SF_minus_one_binary32 :
  let m : arr2 IEEE.float := [[of_Z 1]] in
  let Gr : list IEEE.float := [div (of_Z 1) (of_Z 10)] in
  RSF_get_Sq_from_Gr m Gr = Return [SpecFloat.S754_finite false 13421773 (-27)] ∧
  SF_get_Sq_from_Gr m Gr = Return [SpecFloat.S754_finite false 9227469 (-23)] ∧
  (q ← SF_get_Sq_from_Gr m Gr; Return (fmap (M:=list) (λ x, sub x (of_Z 1)) q))
    = Return [SpecFloat.S754_finite false 13421776 (-27)] ∧
  RSF_get_Sq_from_Gr m Gr ≠
    (q ← SF_get_Sq_from_Gr m Gr; Return (fmap (M:=list) (λ x, sub x (of_Z 1)) q)).
Proof.
  split; [vm_compute; reflexivity|]. split; [vm_compute; reflexivity|].
  split; [vm_compute; reflexivity|]. vm_compute. discriminate.
Qed.
End examples_float.

(** * Further properties of the code *)

Section transactions_more.
Context {R coord : Type} `{Num R} `{External R coord}.
Implicit Types (s : State R coord) (S : list nat) (d : Hist R).

(** [get_total] leaves the state it found, with [_fittedScaleFactor]
    assigned. *)
Lemma get_total_state d rho0 s total s' :
  get_total d rho0 s = (Return total, s') →
  ∃ sf, s' = (assign_fittedScaleFactor (Some sf) s).2.
Proof.
  intros Ht. destruct (get_total_Return _ _ _ _ _ Ht) as [sf Hsf]. exists sf.
  pose proof (get_total_frame
                (λ s, (engine s, cfg s,
                       (data (self s), originalData (self s),
                        activeAtomsDataBeforeMove (self s),
                        activeAtomsDataAfterMove (self s)),
                       (standardError (self s), afterMoveStandardError (self s),
                        amputationData (self s), amputationStandardError (self s)),
                       (scaleFactor (self s), adjustScaleFactorFrequency (self s),
                        weightingScheme (self s))))
                d rho0 (λ _ _, eq_refl) s) as Hfr.
  rewrite Ht in Hfr. unfold same_on in Hfr. simpl in Hfr.
  destruct s' as [e' c' []], s as [e c []]. simpl in *.
  unfold with_self. simpl. congruence.
Qed.

(** The state [compute_as_if_amputated] leaves when it returns. *)
Lemma compute_as_if_amputated_final (relativeIndex : list nat) s s1 :
  compute_as_if_amputated relativeIndex s = (Return (), s1) →
  ∃ staged se f,
    s1 = mkState (engine s) (cfg s)
           (mkConstraint (data (self s)) (originalData (self s)) None None
              (standardError (self s)) (afterMoveStandardError (self s))
              (Some staged) (Some se) (scaleFactor (self s)) (Some f)
              (adjustScaleFactorFrequency (self s)) (weightingScheme (self s))).
Proof.
  unfold compute_as_if_amputated. intros Hm.
  mstep Hm. destruct a.
  apply compute_before_move_Return in E as (b & Hb & ->).
  unfold_setters. simpl in Hm.
  repeat mstep Hm.
  all: injection Hm as <-; simpl.
  all: match goal with
       | Ht : get_total ?h ?rho ?st = (Return _, _) |- _ =>
           apply get_total_state in Ht as [sf ->]
       end.
  all: unfold_setters; simpl in *.
  all: match goal with
       | Hn : dict_get (<[_ := _]> _) _ = Return _ |- _ =>
           unfold dict_get in Hn; rewrite lookup_insert_eq in Hn; injection Hn as <-
       end.
  all: match goal with
       | Hn : dict_get ?m ?el = Return ?n |- _ =>
           unfold dict_get in Hn; destruct (m !! el) eqn:Hel;
           [injection Hn as ->|discriminate Hn]
       end.
  all: rewrite insert_insert_eq.
  all: match goal with
       | |- context [<[_ := ?x]> _] => ring_simplify x
       end.
  all: rewrite insert_id by done.
  all: eexists _, _, _.
  all: match goal with
       | Hd : data (self _) = Some _ |- _ => rewrite <- Hd
       end.
  all: match goal with
       | Ha : allowFittingScaleFactor (engine _) = _ |- _ => rewrite <- Ha
       end.
  all: match goal with
       | |- context [engine ?s0] => destruct s0 as [[] ? []]; reflexivity
       end.
Qed.

(** X7. When [compute_as_if_amputated] returns, the engine (coordinates
    and populations included), the set-up, the committed data and
    standard error, the scale factor, its adjustment frequency and the
    weighting scheme are as before the call; the amputation data and
    standard error are staged, [_fittedScaleFactor] is assigned, and the
    two move deltas are [None], whatever they were. *)
Theorem compute_as_if_amputated_footprint (relativeIndex : list nat) s s1 :
  compute_as_if_amputated relativeIndex s = (Return (), s1) →
  ∃ staged se f,
    s1 = mkState (engine s) (cfg s)
           (mkConstraint (data (self s)) (originalData (self s)) None None
              (standardError (self s)) (afterMoveStandardError (self s))
              (Some staged) (Some se) (scaleFactor (self s)) (Some f)
              (adjustScaleFactorFrequency (self s)) (weightingScheme (self s))).
Proof. apply compute_as_if_amputated_final. Qed.

(** X8. After a [compute_as_if_amputated] that returned,
    [accept_amputation] returns: the data become the staged data (the
    data minus the delta of the atom), the weighting scheme the staged
    one, the standard error the staged one and the scale factor the
    fitted one; the staged amputation is cleared, and the engine, its
    populations included, is as it was before [compute_as_if_amputated]. *)
Theorem accept_amputation_commits (relativeIndex : list nat) s s1 :
  compute_as_if_amputated relativeIndex s = (Return (), s1) →
  ∃ d b reduced ws se f,
    data (self s) = Some d ∧
    delta_at relativeIndex (boxCoordinates (engine s)) s = Return b ∧
    hist_sub d b = Return reduced ∧
    amputationData (self s1) = Some (reduced, ws) ∧
    amputationStandardError (self s1) = Some se ∧
    _fittedScaleFactor (self s1) = Some f ∧
    accept_amputation s1 =
      (Return (),
       mkState (engine s) (cfg s)
         (mkConstraint (Some reduced) (originalData (self s)) None None (Some se)
            (afterMoveStandardError (self s)) None None f (Some f)
            (adjustScaleFactorFrequency (self s)) ws)).
Proof.
  intros Hm.
  destruct (compute_as_if_amputated_Return _ _ _ Hm)
    as (atom & el & n & d & b & reduced & ws & total & sT & se & _ & _ & _ & Hd
        & Hb & Hr & _ & _ & _ & Ha & Hse & _).
  destruct (compute_as_if_amputated_final _ _ _ Hm) as (staged & se' & f & ->).
  simpl in Ha, Hse. injection Ha as ->. injection Hse as ->.
  exists d, b, reduced, (FLOAT_TYPE <$> ws), se, f.
  repeat (split; [done|]). reflexivity.
Qed.

(** X6. A commit with nothing staged raises and changes nothing:
    [accept_move] without data or without a before-move delta raises
    [TypeError], without an after-move delta it raises, and
    [accept_amputation] without staged amputation data raises
    [TypeError]; in each case the state is exactly the one before the
    call. *)
Theorem commit_without_stage s :
  (data (self s) = None ∨ activeAtomsDataBeforeMove (self s) = None →
     accept_move s = (Raise TypeError, s)) ∧
  (activeAtomsDataAfterMove (self s) = None → ∃ e, accept_move s = (Raise e, s)) ∧
  (amputationData (self s) = None → accept_amputation s = (Raise TypeError, s)).
Proof.
  split; [|split].
  - intros Hn. unfold accept_move, data_minus_before_plus_after.
    rewrite bind_get, bind_lift.
    destruct (data (self s)) as [d|]; [|done].
    destruct Hn as [Hn|Hn]; [done|]. by rewrite Hn.
  - intros Hn. unfold accept_move, data_minus_before_plus_after.
    rewrite bind_get, bind_lift, Hn.
    destruct (data (self s)) as [d|]; [|by eexists].
    destruct (activeAtomsDataBeforeMove (self s)) as [b|]; [|by eexists].
    simpl. destruct (arr3_op sub (intra d) (intra b)); by eexists.
  - intros Hn. unfold accept_amputation. by rewrite bind_get, bind_subscript, Hn.
Qed.

(** X1. [compute_before_move] is all or nothing.  When it returns, the
    delta of the subset on the current coordinates is staged, the
    after-move delta is [None] and nothing else has changed; when it
    raises, it raises what the histogram computation raised and the state
    is exactly the one before the call. *)
Theorem compute_before_move_atomic S s :
  match (compute_before_move S s).1 with
  | Return _ =>
      ∃ b, delta_at S (boxCoordinates (engine s)) s = Return b ∧
           (compute_before_move S s).2
           = mkState (engine s) (cfg s)
               (mkConstraint (data (self s)) (originalData (self s)) (Some b) None
                  (standardError (self s)) (afterMoveStandardError (self s))
                  (amputationData (self s)) (amputationStandardError (self s))
                  (scaleFactor (self s)) (_fittedScaleFactor (self s))
                  (adjustScaleFactorFrequency (self s)) (weightingScheme (self s)))
  | Raise e =>
      delta_at S (boxCoordinates (engine s)) s = Raise e ∧
      (compute_before_move S s).2 = s
  end.
Proof.
  destruct (compute_before_move S s) as [[[]|e] s1] eqn:Hm; simpl.
  - by apply compute_before_move_Return.
  - unfold compute_before_move in Hm. rewrite bind_unfold in Hm.
    pose proof (active_atoms_data_pure S s) as Hp.
    unfold delta_at. rewrite with_boxCoordinates_same.
    destruct (active_atoms_data S s) as [[b|e'] s'] eqn:Ha; simpl in Hp; subst s'.
    + unfold_setters. rewrite !bind_modify in Hm. discriminate.
    + by injection Hm as <- <-.
Qed.
End transactions_more.

Section store_more.
Context {A : Type}.
Implicit Types (a : list A) (indexes : list nat).

Lemma gather_Return a indexes :
  Forall (λ i, i < length a)%nat indexes → ∃ v, gather a indexes = Return v.
Proof.
  induction 1 as [|i indexes Hi _ [v Hv]]; [by exists []|].
  destruct (lookup_lt_is_Some_2 a i Hi) as [x Hx].
  exists (x :: v). unfold gather in *. simpl. rewrite Hx. simpl. by rewrite Hv.
Qed.

Lemma scatter_in_range a indexes (values a' : list A) :
  scatter a indexes values = Return a' → Forall (λ i, i < length a)%nat indexes.
Proof.
  unfold scatter. intros Hs.
  destruct (broadcast_rows values (length indexes)); [|discriminate].
  by destruct (decide (Forall _ indexes)).
Qed.

(** Writing back the rows that were read changes nothing. *)
Lemma scatter_gathered a indexes (v : list A) :
  gather a indexes = Return v → scatter a indexes v = Return a.
Proof.
  intros Hg%gather_spec.
  assert (Forall (λ i, i < length a)%nat indexes) as Hin.
  { induction Hg as [|i x ? ? Hx]; constructor; [|done]. by eapply lookup_lt_Some. }
  assert (length v = length indexes) as Hlen by (symmetry; by eapply Forall2_length).
  unfold scatter. rewrite <- Hlen, broadcast_rows_same.
  rewrite decide_True by done. f_equal. apply writes_restore; [done| |done].
  intros i x Hix. apply list_elem_of_lookup in Hix as [k Hk].
  apply lookup_zip_with_Some in Hk as (i' & x' & Heq & Hi & Hx).
  injection Heq as -> ->.
  exact (Forall2_lookup_lr _ _ _ _ _ _ Hg Hi Hx).
Qed.
End store_more.

Section cancel.
Context {R : Type} `{Num R}.

Lemma vzip_cancel {A B C} (f : A → B → outcome C) (g : C → B → outcome A)
    (xs : list A) (ys : list B) (zs : list C) (hs : list A) :
  (∀ x y z h, f x y = Return z → g z y = Return h → h = x) →
  vzip f xs ys = Return zs → vzip g zs ys = Return hs → hs = xs.
Proof.
  intros Hfg. revert ys zs hs.
  induction xs as [|x xs IH]; intros [|y ys] zs hs Hz Hh; try discriminate.
  - injection Hz as <-. by injection Hh as <-.
  - simpl in Hz.
    apply outcome_bind_Return in Hz as (z & Hz & Hzs).
    apply outcome_bind_Return in Hzs as (zs' & Hzs' & Hzs).
    injection Hzs as <-. simpl in Hh.
    apply outcome_bind_Return in Hh as (h & Hh & Hhs).
    apply outcome_bind_Return in Hhs as (hs' & Hhs' & Hhs).
    injection Hhs as <-. f_equal; [by eapply Hfg|by eapply IH].
Qed.

(** In an arithmetic in which [(x - y) + y] is [x], subtracting a
    histogram and adding it again gives the histogram back. *)
Lemma hist_minus_plus_same (d b h : Hist R) :
  (∀ x y : R, add (sub x y) y = x) →
  hist_minus_plus d b b = Return h → h = d.
Proof.
  intros Hexact. unfold hist_minus_plus, hist_sub, hist_add, hist_op. intros Hh.
  apply outcome_bind_Return in Hh as ([xi xe] & Hx & Hh).
  apply outcome_bind_Return in Hx as (xi' & Hxi & Hx).
  apply outcome_bind_Return in Hx as (xe' & Hxe & Hx).
  injection Hx as -> ->. simpl in Hh.
  apply outcome_bind_Return in Hh as (hi & Hhi & Hh).
  apply outcome_bind_Return in Hh as (he & Hhe & Hh).
  injection Hh as <-.
  assert (∀ a b x h' : arr3 R,
            arr3_op sub a b = Return x → arr3_op add x b = Return h' → h' = a) as Hc.
  { intros a b' x h'. apply vzip_cancel. intros a2 b2 x2 h2. apply vzip_cancel.
    intros a1 b1 x1 h1. apply vzip_cancel.
    intros u v w t [= <-] [= <-]. apply Hexact. }
  destruct d as [di de]. simpl in *. f_equal; by eapply Hc.
Qed.
End cancel.

Section moves_more.
Context {R coord : Type} `{Num R} `{External R coord}.
Implicit Types (s : State R coord) (S : list nat) (d : Hist R).

(** X5. A move that puts the atoms where they already are stages an
    after-move delta equal to the before-move delta, and accepting it
    leaves the committed data unchanged, in an arithmetic in which
    [(x - y) + y] is [x]. *)
Theorem null_move_is_neutral S (current : list coord) s s1 s2 :
  (∀ x y : R, add (sub x y) y = x) →
  compute_before_move S s = (Return (), s1) →
  gather (boxCoordinates (engine s)) S = Return current →
  compute_after_move S current s1 = (Return (), s2) →
  activeAtomsDataAfterMove (self s2) = activeAtomsDataBeforeMove (self s2) ∧
  ∃ s3, accept_move s2 = (Return (), s3) ∧ data (self s3) = data (self s).
Proof.
  intros Hexact (b & Hb & ->)%compute_before_move_Return Hg Hafter.
  apply compute_after_move_Return in Hafter
    as (store' & a & i & e & total & sT & se & Hsc & Ha & Hi & He & Ht & Hse & ->).
  simpl in *.
  rewrite (scatter_gathered _ _ _ Hg) in Hsc. injection Hsc as <-.
  assert (a = b) as ->.
  { assert (delta_at S (boxCoordinates (engine s)) s = Return a) as Ha'
      by (rewrite <- Ha; symmetry; by apply delta_at_ext).
    congruence. }
  destruct (data_minus_before_plus_after_Return _ _ _ Hi He)
    as (d & b' & a' & Hd & Hb' & Ha' & Hh).
  simpl in *. injection Hb' as <-. injection Ha' as <-.
  apply (hist_minus_plus_same _ _ _ Hexact) in Hh. subst d.
  destruct (get_total_state _ _ _ _ _ Ht) as [sf ->]. simpl.
  split; [done|]. eexists. split.
  - apply (accept_move_returns _ i e sf); [| |done].
    + rewrite <- Hi. by apply data_minus_before_plus_after_ext.
    + rewrite <- He. by apply data_minus_before_plus_after_ext.
  - done.
Qed.

(** X2. Without a begun move ([activeAtomsDataBeforeMove] is [None])
    [compute_after_move] always raises, and it leaves the data, the
    standard error and the staged standard error as they were.  When the
    indexes are valid and the histogram computation on the candidate
    coordinates succeeds, it raises [TypeError] with the after-move delta
    staged and the coordinate store restored. *)
Theorem compute_after_move_needs_begin S (moved : list coord) s :
  activeAtomsDataBeforeMove (self s) = None →
  let r := compute_after_move S moved s in
  (∃ e, r.1 = Raise e) ∧
  data (self r.2) = data (self s) ∧
  standardError (self r.2) = standardError (self s) ∧
  afterMoveStandardError (self r.2) = afterMoveStandardError (self s) ∧
  ∀ store' a,
    scatter (boxCoordinates (engine s)) S moved = Return store' →
    delta_at S store' s = Return a →
    r.1 = Raise TypeError ∧
    activeAtomsDataAfterMove (self r.2) = Some a ∧
    boxCoordinates (engine r.2) = boxCoordinates (engine s).
Proof.
  intros Hn r. subst r.
  destruct s as [[] c x]. unfold delta_at, with_boxCoordinates.
  unfold compute_after_move. unfold_setters. simpl in *.
  rewrite bind_get, bind_lift. simpl.
  destruct (gather _ S) as [boxData|?] eqn:Hg.
  2:{ simpl. split; [by eexists|]. do 3 (split; [done|]).
      intros store' a Hs%scatter_in_range _.
      destruct (gather_Return _ _ Hs) as [v Hv]. simpl in *. congruence. }
  rewrite bind_lift.
  destruct (scatter _ S moved) as [store'|?] eqn:Hs.
  2:{ simpl. split; [by eexists|]. do 3 (split; [done|]). by intros. }
  rewrite bind_modify, bind_unfold. unfold with_engine, with_self. simpl.
  match goal with
  | |- context [active_atoms_data S ?sm] =>
      pose proof (active_atoms_data_pure S sm) as Hp;
      destruct (active_atoms_data S sm) as [[a|err] sm'] eqn:Ha;
      simpl in Hp; subst sm'
  end.
  2:{ simpl. split; [by eexists|]. do 3 (split; [done|]).
      intros ? ? [= <-]. by rewrite Ha. }
  rewrite bind_modify, bind_get, bind_lift. simpl.
  rewrite (scatter_restore _ _ _ _ _ Hg Hs). rewrite bind_modify, bind_get. simpl.
  rewrite bind_lift. unfold data_minus_before_plus_after. simpl. rewrite Hn.
  assert (∀ o : option (Hist R),
            (d ← of_option TypeError o;
             b ← of_option TypeError (@None (Hist R));
             x0 ← arr3_op sub (intra d) (intra b);
             a0 ← of_option TypeError (Some a); arr3_op add x0 (intra a0))
            = Raise TypeError) as Hr by (by intros [d|]).
  rewrite Hr. simpl.
  split; [by eexists|]. do 3 (split; [done|]).
  intros ? ? [= <-]. rewrite Ha. by intros [= <-].
Qed.
End moves_more.

Section data_facts.
Context {R coord : Type} `{Num R} `{External R coord}.
Implicit Types (s : State R coord) (S : list nat) (d : Hist R).

(** The observable that [get_total] returns depends on the engine, the
    set-up, the scale factor, its adjustment frequency and the weighting
    scheme only. *)
Lemma get_total_ext d rho0 s s' :
  engine s' = engine s → cfg s' = cfg s →
  scaleFactor (self s') = scaleFactor (self s) →
  adjustScaleFactorFrequency (self s') = adjustScaleFactorFrequency (self s) →
  weightingScheme (self s') = weightingScheme (self s) →
  (get_total d rho0 s').1 = (get_total d rho0 s).1.
Proof.
  destruct s as [e c x], s' as [e' c' x']. simpl. intros -> -> Hsf Hfr Hws.
  destruct x, x'. simpl in *. subst.
  unfold get_total, get_total_Gr, get_total_Sq, get_adjusted_scale_factor, total_step,
    reduce_Gr, to_Gr, apply_window, _get_Sq_from_Gr.
  unfold_setters.
  rewrite !bind_get. simpl.
  destruct (kind c); rewrite !bind_get; simpl.
  all: repeat first
         [ progress (rewrite ?bind_lift, ?bind_get, ?bind_modify, ?bind_mret; simpl)
         | match goal with
           | |- (match ?o with _ => _ end).1 = (match ?o with _ => _ end).1 =>
               destruct o
           | |- (if ?o then _ else _).1 = (if ?o then _ else _).1 => destruct o
           | |- ((match ?o with _ => _ end ≫= _) _).1 = _ => destruct o
           | |- (((get ≫= _) ≫= _) _).1 = _ => rewrite !(bind_unfold (get ≫= _))
           | |- ((if ?o then _ else _) _).1 = _ => destruct o
           | |- ((match ?o with _ => _ end) _).1 = _ => destruct o
           | |- context [if refit_due ?a ?b then _ else _] => destruct (refit_due a b)
           | |- context [lift ?o _] => unfold lift at 1; destruct o
           | |- context [mret ?o _] => unfold mret, M_ret
           end
         | reflexivity ].
Qed.

(** The state [compute_data] leaves when it returns. *)
Lemma compute_data_final s s' :
  compute_data s = (Return (), s') →
  ∃ i e total se f,
    full_pairs_histograms_coords (boxCoordinates (engine s)) (basisVectors (engine s))
      (isPBC (engine s)) (moleculesIndex (engine s)) (elementsIndex (engine s))
      (numberOfElements (engine s)) (minimumDistance (cfg s)) (maximumDistance (cfg s))
      (histogramSize (cfg s)) (bin (cfg s)) (_runtime_ncores (engine s))
      = Return (i, e) ∧
    (get_total (mkHist i e) (numberDensity (engine s)) s).1 = Return total ∧
    compute_standard_error s total = Return se ∧
    s' = mkState (engine s) (cfg s)
           (mkConstraint (Some (mkHist i e))
              (match originalData (self s) with
               | None => Some (mkHist i e)
               | Some o => Some o
               end)
              None None (Some se) (afterMoveStandardError (self s))
              (amputationData (self s)) (amputationStandardError (self s))
              (scaleFactor (self s)) (Some f)
              (adjustScaleFactorFrequency (self s)) (weightingScheme (self s))).
Proof.
  unfold compute_data. unfold_setters. intros Hm.
  do 2 mstep Hm. destruct a as [i e].
  do 4 mstep Hm.
  destruct (get_total_state _ _ _ _ _ E0) as [f Hf]. subst s0.
  unfold_setters. simpl in *.
  do 4 mstep Hm.
  match type of E0 with
  | get_total ?h ?rho ?st = _ =>
      pose proof (get_total_ext h rho s st eq_refl eq_refl eq_refl eq_refl eq_refl)
        as Hext; rewrite E0 in Hext; simpl in Hext
  end.
  exists i, e, a, a0, f.
  split; [done|]. split; [done|]. split; [exact E1|].
  destruct (originalData (self s)); simpl in Hm; by injection Hm as <-.
Qed.

(** X9. Whatever has run before the body of [compute_data] (its decorator
    [reset_if_collected_out_of_date] runs first), when the call returns
    the state it leaves is consistent: the data are the histograms that
    [full_pairs_histograms_coords] gives for the engine and the set-up of
    that state, the standard error is the one of the observable of these
    data, no move delta is staged and [originalData] is set. *)
Theorem compute_data_snapshot (before : M R coord ()) s s' :
  (before;; compute_data) s = (Return (), s') →
  ∃ i e total se,
    full_pairs_histograms_coords (boxCoordinates (engine s')) (basisVectors (engine s'))
      (isPBC (engine s')) (moleculesIndex (engine s')) (elementsIndex (engine s'))
      (numberOfElements (engine s')) (minimumDistance (cfg s')) (maximumDistance (cfg s'))
      (histogramSize (cfg s')) (bin (cfg s')) (_runtime_ncores (engine s'))
      = Return (i, e) ∧
    data (self s') = Some (mkHist i e) ∧
    (get_total (mkHist i e) (numberDensity (engine s')) s').1 = Return total ∧
    compute_standard_error s' total = Return se ∧
    standardError (self s') = Some se ∧
    activeAtomsDataBeforeMove (self s') = None ∧
    activeAtomsDataAfterMove (self s') = None ∧
    is_Some (originalData (self s')).
Proof.
  intros Hm. rewrite bind_unfold in Hm.
  destruct (before s) as [[[]|?] sm]; [|discriminate].
  apply compute_data_final in Hm as (i & e & total & se & f & Hk & Ht & Hse & ->).
  exists i, e, total, se. simpl.
  split; [done|]. split; [done|].
  split; [rewrite <- Ht; by apply get_total_ext|].
  split; [rewrite <- Hse; by apply compute_standard_error_ext|].
  split; [done|]. split; [done|]. split; [done|].
  destruct (originalData (self sm)); eauto.
Qed.

(** X11. Right after the first [compute_data] of a constraint,
    [originalData] is the computed data and
    [get_constraint_original_value] returns what [get_constraint_value]
    returns. *)
Theorem original_value_after_first_compute_data s s' :
  originalData (self s) = None →
  compute_data s = (Return (), s') →
  originalData (self s') = data (self s') ∧
  get_constraint_original_value s' = get_constraint_value s'.
Proof.
  intros Ho (i & e & total & se & f & _ & _ & _ & ->)%compute_data_final.
  unfold get_constraint_original_value, get_constraint_value. simpl.
  by rewrite Ho.
Qed.

#[local] Instance keeps_reflexive (I : State R coord → Prop) : Reflexive (keeps I).
Proof. intros s Hs. exact Hs. Qed.
#[local] Instance keeps_transitive (I : State R coord → Prop) : Transitive (keeps I).
Proof. intros s1 s2 s3 H12 H23 H1. by apply H23, H12. Qed.

(** [originalData] is assigned by [compute_data] only. *)
Lemma perform_same_originalData (c : call) :
  c ≠ ComputeData → preserves (same_on (λ s, originalData (self s))) (perform c).
Proof.
  destruct c as [[]| | | | | |]; simpl; intros Hc; [..|done| | | | |];
    unfold compute_as_if_amputated, accept_amputation, reject_amputation,
      _reset_standard_error; frame_methods.
Qed.

(** X10. No sequence of calls of the move and amputation methods,
    [compute_and_set_standard_error] and [_reset_standard_error] changes
    [originalData], whether the calls return or raise: [compute_data] is
    the only one of these methods that assigns it. *)
Theorem originalData_frozen (calls : list call) s :
  ComputeData ∉ calls →
  originalData (self (session calls s)) = originalData (self s).
Proof.
  revert s. induction calls as [|c calls IH]; intros s Hc; [done|].
  apply not_elem_of_cons in Hc as [Hc Hcalls].
  simpl. rewrite IH by done.
  apply (perform_same_originalData c); congruence.
Qed.
End data_facts.

Section reset.
Context {R coord : Type} `{Num R} `{External R coord}.
Implicit Types (s : State R coord) (d : Hist R).

Lemma get_total_PDF d rho0 s :
  kind (cfg s) = PairDistributionConstraint →
  get_total d rho0 s = get_total_Gr d rho0 s.
Proof. intros Hk. unfold get_total. by rewrite bind_get, Hk. Qed.

(** X12. In the pair distribution class, [_reset_standard_error] right
    after a [compute_data] that returned returns as well and sets the
    standard error that [compute_data] has set: both compare the
    observable of [__get_total_Gr] with the experimental data. *)
Theorem reset_standard_error_agrees s s' :
  kind (cfg s) = PairDistributionConstraint →
  compute_data s = (Return (), s') →
  ∃ s'', _reset_standard_error s' = (Return (), s'') ∧
         standardError (self s'') = standardError (self s') ∧
         data (self s'') = data (self s').
Proof.
  intros Hk (i & e & total & se & f & _ & Ht & Hse & ->)%compute_data_final.
  unfold _reset_standard_error. rewrite bind_get. simpl. rewrite bind_unfold.
  match goal with
  | |- context [get_total_Gr ?h ?rho ?st] =>
      pose proof (get_total_ext h rho s st eq_refl eq_refl eq_refl eq_refl eq_refl)
        as Hext;
      rewrite (get_total_PDF h rho st Hk) in Hext;
      destruct (get_total_Gr h rho st) as [o sT] eqn:Hg
  end.
  simpl in Hext. rewrite Ht in Hext. subst o.
  match type of Hg with
  | get_total_Gr ?h ?rho ?st = _ => rewrite <- (get_total_PDF h rho st Hk) in Hg
  end.
  destruct (get_total_state _ _ _ _ _ Hg) as [sf ->].
  rewrite bind_get, bind_lift.
  unfold_setters. simpl.
  match goal with
  | |- context [compute_standard_error ?st total] =>
      rewrite (compute_standard_error_ext s st total eq_refl), Hse
  end.
  eexists. split; [reflexivity|]. done.
Qed.
End reset.

Section commit_rollback.
Context {R coord : Type} `{Num R} `{External R coord}.
Implicit Types (s : State R coord) (S : list nat) (d : Hist R).

(** The state [compute_after_move] leaves when it returns. *)
Lemma compute_after_move_final S (moved : list coord) s s2 :
  compute_after_move S moved s = (Return (), s2) →
  ∃ store' a i e total se f,
    scatter (boxCoordinates (engine s)) S moved = Return store' ∧
    delta_at S store' s = Return a ∧
    data_minus_before_plus_after intra
      (set_active_atoms_data_after_move (Some a) s).2 = Return i ∧
    data_minus_before_plus_after inter
      (set_active_atoms_data_after_move (Some a) s).2 = Return e ∧
    (get_total (mkHist i e) (numberDensity (engine s)) s).1 = Return total ∧
    compute_standard_error s total = Return se ∧
    s2 = mkState (engine s) (cfg s)
           (mkConstraint (data (self s)) (originalData (self s))
              (activeAtomsDataBeforeMove (self s)) (Some a)
              (standardError (self s)) (Some se)
              (amputationData (self s)) (amputationStandardError (self s))
              (scaleFactor (self s)) (Some f)
              (adjustScaleFactorFrequency (self s)) (weightingScheme (self s))).
Proof.
  intros (store' & a & i & e & total & sT & se & Hsc & Ha & Hi & He & Ht & Hse & ->)
    %compute_after_move_Return.
  match type of Ht with
  | get_total ?h ?rho ?st = _ =>
      pose proof (get_total_ext h rho s st eq_refl eq_refl eq_refl eq_refl eq_refl)
        as Hext; rewrite Ht in Hext; simpl in Hext
  end.
  destruct (get_total_state _ _ _ _ _ Ht) as [f ->].
  exists store', a, i, e, total, se, f.
  split; [done|]. split; [done|]. split; [done|]. split; [done|].
  split; [done|]. split; [|done].
  rewrite <- Hse. by apply compute_standard_error_ext.
Qed.

(** X3. When [compute_after_move] has returned, the staged standard
    error is the one of the observable of [data - before + after], and
    [accept_move] returns: it commits these data, that standard error and
    the scale factor fitted during the evaluation, clears the two deltas
    and the staged standard error, and leaves the engine, the set-up and
    every other attribute as they were. *)
Theorem accept_move_commits_standard_error S (moved : list coord) s s2 :
  compute_after_move S moved s = (Return (), s2) →
  ∃ d b a h total se f,
    data (self s) = Some d ∧
    activeAtomsDataBeforeMove (self s) = Some b ∧
    activeAtomsDataAfterMove (self s2) = Some a ∧
    hist_minus_plus d b a = Return h ∧
    (get_total h (numberDensity (engine s)) s).1 = Return total ∧
    compute_standard_error s total = Return se ∧
    afterMoveStandardError (self s2) = Some se ∧
    _fittedScaleFactor (self s2) = Some f ∧
    accept_move s2 =
      (Return (),
       mkState (engine s) (cfg s)
         (mkConstraint (Some h) (originalData (self s)) None None (Some se) None
            (amputationData (self s)) (amputationStandardError (self s)) f (Some f)
            (adjustScaleFactorFrequency (self s)) (weightingScheme (self s)))).
Proof.
  intros (store' & a & i & e & total & se & f & _ & _ & Hi & He & Ht & Hse & ->)
    %compute_after_move_final.
  destruct (data_minus_before_plus_after_Return _ _ _ Hi He)
    as (d & b & a' & Hd & Hb & Ha' & Hh).
  simpl in Hd, Hb, Ha'. injection Ha' as <-.
  exists d, b, a, (mkHist i e), total, se, f. simpl.
  split; [done|]. split; [done|]. split; [done|]. split; [done|].
  split; [done|]. split; [done|]. split; [done|]. split; [done|].
  rewrite (accept_move_returns _ i e f); [done| | |done].
  - rewrite <- Hi. by apply data_minus_before_plus_after_ext.
  - rewrite <- He. by apply data_minus_before_plus_after_ext.
Qed.

(** X4. A move that is begun from a clean state, evaluated and rejected
    leaves the engine and the constraint exactly as before the move, up
    to [_fittedScaleFactor], which keeps the value fitted for the rejected
    candidate. *)
Theorem reject_move_rolls_back S (moved : list coord) s s1 s2 :
  activeAtomsDataBeforeMove (self s) = None →
  activeAtomsDataAfterMove (self s) = None →
  afterMoveStandardError (self s) = None →
  compute_before_move S s = (Return (), s1) →
  compute_after_move S moved s1 = (Return (), s2) →
  ∃ f, reject_move s2 = (Return (), (assign_fittedScaleFactor (Some f) s).2).
Proof.
  intros Hb Ha Hse (b & _ & ->)%compute_before_move_Return
    (store' & a & i & e & total & se & f & _ & _ & _ & _ & _ & _ & ->)
    %compute_after_move_final.
  exists f. unfold reject_move. unfold_setters.
  rewrite !bind_modify. unfold modify, with_self. simpl.
  destruct s as [en c []]. simpl in *. by subst.
Qed.
End commit_rollback.

Section shapes.
Context {R : Type} `{Num R}.

Lemma vop_Raise (f : R → R → R) (xs ys : list R) :
  length xs ≠ length ys → vop f xs ys = Raise ValueError.
Proof.
  revert ys. induction xs as [|x xs IH]; intros [|y ys] Hlen; try done.
  rewrite vop_cons, IH; [done|]. simpl in Hlen. lia.
Qed.

Lemma vop_Return (f : R → R → R) (xs ys : list R) :
  length xs = length ys → vop f xs ys = Return (zip_with f xs ys).
Proof.
  revert ys. induction xs as [|x xs IH]; intros [|y ys] Hlen; try done.
  rewrite vop_cons, IH; [done|]. simpl in Hlen. lia.
Qed.

Lemma correlate_same_length (a w : list R) :
  length (correlate_same a w) = length a.
Proof. unfold correlate_same. by rewrite length_fmap, length_seq. Qed.

Lemma convolve_same_cases (a v : list R) :
  match convolve_same a v with
  | Return y => a ≠ [] ∧ v ≠ [] ∧ length y = (length a `max` length v)%nat
  | Raise e => e = ValueError ∧ (a = [] ∨ v = [])
  end.
Proof.
  unfold convolve_same.
  destruct (decide (length a < length v)%nat) as [Hlt|Hge].
  - destruct (decide (length v = 0)%nat) as [Hv|Hv]; [lia|].
    destruct (decide (length a = 0)%nat) as [Ha|Ha].
    + split; [done|]. left. by apply nil_length_inv.
    + rewrite correlate_same_length.
      repeat split; [by intros ->|by intros ->|lia].
  - destruct (decide (length a = 0)%nat) as [Ha|Ha].
    + split; [done|]. left. by apply nil_length_inv.
    + destruct (decide (length v = 0)%nat) as [Hv|Hv].
      * split; [done|]. right. by apply nil_length_inv.
      * rewrite correlate_same_length.
        repeat split; [by intros ->|by intros ->|lia].
Qed.

(** X13. [np.convolve(a, v, 'same')] raises [ValueError] exactly when
    one of the two arrays is empty, and otherwise returns an array as
    long as the longer of the two. *)
Theorem convolve_same_length (a v : list R) :
  match convolve_same a v with
  | Return y => a ≠ [] ∧ v ≠ [] ∧ length y = (length a `max` length v)%nat
  | Raise e => e = ValueError ∧ (a = [] ∨ v = [])
  end.
Proof. apply convolve_same_cases. Qed.
End shapes.

Section fit.
Context {R coord : Type} `{Num R} `{External R coord}.
Implicit Types (s : State R coord) (d : Hist R).

Lemma vsum_zeros (l : list R) :
  add (of_Z 0) (of_Z 0) = of_Z 0 → Forall (λ x, x = of_Z 0) l → vsum l = of_Z 0.
Proof.
  intros H00 Hl. unfold vsum. induction Hl as [|x l -> _ IH]; [done|].
  simpl. by rewrite H00.
Qed.

(** X15. The standard error of a model that equals the experimental
    data is 0, with or without data weights, in an arithmetic in which
    [x - x], [w * 0] and [0 + 0] are 0. *)
Theorem compute_standard_error_perfect_fit s :
  (∀ x : R, sub x x = of_Z 0) →
  (∀ w : R, mul w (of_Z 0) = of_Z 0) →
  add (of_Z 0) (of_Z 0) = of_Z 0 →
  match _usedDataWeights (cfg s) with
  | Some w => length w = length (experimentalY (cfg s))
  | None => True
  end →
  compute_standard_error s (experimentalY (cfg s)) = Return (of_Z 0).
Proof.
  intros Hsub Hmul Hadd Hw. unfold compute_standard_error, vsub, vmul.
  rewrite vop_Return by done. simpl.
  assert (Forall (λ x, x = of_Z 0)
            ((λ x, mul x x) <$> zip_with sub (experimentalY (cfg s))
                                             (experimentalY (cfg s)))) as Hz.
  { apply Forall_fmap, Forall_forall. intros z Hz.
    apply list_elem_of_lookup in Hz as [k Hk].
    apply lookup_zip_with_Some in Hk as (x & y & -> & Hx & Hy).
    assert (x = y) as -> by congruence. simpl. by rewrite Hsub, Hmul. }
  destruct (_usedDataWeights (cfg s)) as [w|]; [|by rewrite vsum_zeros].
  rewrite vop_Return by (by rewrite length_fmap, length_zip_with, Hw, Nat.min_id).
  simpl. rewrite vsum_zeros; [done|done|].
  apply Forall_forall. intros z Hz'.
  apply list_elem_of_lookup in Hz' as [k Hk].
  apply lookup_zip_with_Some in Hk as (x & y & -> & Hx & Hy).
  rewrite Forall_forall in Hz.
  rewrite (Hz y) by (by eapply list_elem_of_lookup_2). apply Hmul.
Qed.

(** The observable that [get_total] returns has gone through
    [apply_window]. *)
Lemma get_total_windowed d rho0 s total s' :
  get_total d rho0 s = (Return total, s') →
  ∃ x, apply_window s x = Return total.
Proof.
  unfold_methods. unfold_setters. intros Hm. mstep Hm.
  destruct (kind (cfg s)); repeat mstep Hm.
  all: repeat match type of Hm with
         | context [match ?o with _ => _ end] => destruct o eqn:?; simpl in Hm
         end.
  all: try discriminate Hm.
  all: match type of Hm with
       | lift (apply_window ?s0 ?x) _ = _ =>
           exists x; unfold lift in Hm;
           destruct (apply_window s0 x); [by injection Hm as -> _|discriminate Hm]
       end.
Qed.

(** X14. With a window function that is longer than the experimental
    data in use (which have more than one point), [compute_data] cannot
    return: the convolved observable is as long as the window, and its
    difference with the experimental data raises. *)
Theorem window_longer_than_data s (w : list R) :
  windowFunction (cfg s) = Some w →
  (1 < length (experimentalY (cfg s)) < length w)%nat →
  ∃ e, (compute_data s).1 = Raise e.
Proof.
  intros Hw Hlen.
  destruct (compute_data s) as [[[]|e] s'] eqn:Hm; [|by exists e].
  apply compute_data_final in Hm as (i & e & total & se & f & _ & Ht & Hse & _).
  destruct (get_total _ _ s) as [o sT] eqn:Hg. simpl in Ht. subst o.
  apply get_total_windowed in Hg as [x Hx].
  unfold apply_window in Hx. rewrite Hw in Hx.
  pose proof (convolve_same_cases x w) as Hc. rewrite Hx in Hc.
  destruct Hc as (_ & _ & Hc).
  unfold compute_standard_error, vsub in Hse.
  rewrite vop_Raise in Hse by lia. discriminate.
Qed.
End fit.

Section dictionary.
Context {R coord : Type} `{Num R}.
Implicit Types (s : State R coord) (d : Hist R) (output : gmap string (list R)).

Lemma init_output_dom (prefix : string) (n : nat) (pairs : list (string * string)) :
  dom (init_output (R:=R) prefix n pairs) = list_to_set (partial_keys prefix pairs).
Proof.
  unfold init_output.
  assert (∀ acc : gmap string (list R),
            dom (foldl (λ output pair,
                          <[key prefix "total" pair := zeros n]>
                            (<[key prefix "inter" pair := zeros n]>
                               (<[key prefix "intra" pair := zeros n]> output)))
                   acc pairs)
            = dom acc ∪ list_to_set (partial_keys prefix pairs)) as Hacc.
  { unfold partial_keys. induction pairs as [|pair pairs IH]; intros acc.
    - simpl. by rewrite (right_id_L ∅ (∪)).
    - simpl. rewrite IH, !dom_insert_L. clear. set_solver. }
  rewrite Hacc, dom_empty_L. by rewrite (left_id_L ∅ (∪)).
Qed.

Lemma iadd_dom output (k : string) (rhs : outcome (list R)) output' :
  iadd output k rhs = Return output' → dom output' = dom output.
Proof.
  unfold iadd, dict_get. intros Hm.
  destruct (output !! k) as [x|] eqn:Hk; [|discriminate]. simpl in Hm.
  apply outcome_bind_Return in Hm as (r & _ & Hm).
  apply outcome_bind_Return in Hm as (x' & _ & Hm).
  injection Hm as <-. rewrite dom_insert_L.
  apply elem_of_dom_2 in Hk.
  by apply subseteq_union_1_L, singleton_subseteq_l.
Qed.

Lemma update_dom output (k : string) (f : list R → outcome (list R)) output' :
  update output k f = Return output' → dom output' = dom output.
Proof.
  unfold update, dict_get. intros Hm.
  destruct (output !! k) as [x|] eqn:Hk; [|discriminate]. simpl in Hm.
  apply outcome_bind_Return in Hm as (x' & _ & Hm).
  injection Hm as <-. rewrite dom_insert_L.
  apply elem_of_dom_2 in Hk.
  by apply subseteq_union_1_L, singleton_subseteq_l.
Qed.

Lemma value_step_dom (prefix : string) (castN : R → R)
    (post : list R → outcome (list R)) s d output (gr : list R)
    (pair : string * string) output' (gr' : list R) :
  value_step prefix castN post s d (output, gr) pair = Return (output', gr') →
  key prefix "total" pair ∈ dom output →
  dom output' = dom output.
Proof.
  unfold value_step. intros Hm Hk.
  repeat (apply outcome_bind_Return in Hm as (? & ? & Hm)).
  match goal with
  | Hb : (if decide _ is left _ then _ else _) = Return ?p |- _ =>
      destruct p as [Nij o1]; destruct (decide _);
      repeat (apply outcome_bind_Return in Hb as (? & ? & Hb));
      injection Hb as _ <-
  end.
  all: repeat (apply outcome_bind_Return in Hm as (? & ? & Hm)).
  all: injection Hm as <- _.
  all: repeat match goal with
         | Hi : iadd _ _ _ = Return _ |- _ => apply iadd_dom in Hi
         | Hu : update _ _ _ = Return _ |- _ => apply update_dom in Hu
         end.
  all: repeat match goal with
         | Hd : dom _ = dom _ |- _ => rewrite Hd in *; clear Hd
         end.
  all: rewrite dom_insert_L.
  all: repeat match goal with
         | Hd : dom _ = dom _ |- _ => rewrite Hd in *; clear Hd
         end.
  all: apply subseteq_union_1_L, singleton_subseteq_l, Hk.
Qed.

Lemma value_steps_dom (prefix : string) (castN : R → R)
    (post : list R → outcome (list R)) s d (pairs : list (string * string))
    output (gr : list R) output' (gr' : list R) :
  foldlM (value_step prefix castN post s d) (output, gr) pairs = Return (output', gr') →
  list_to_set (partial_keys prefix pairs) ⊆ dom output →
  dom output' = dom output.
Proof.
  revert output gr. induction pairs as [|pair pairs IH]; intros output gr Hm Hk.
  - by injection Hm as <- _.
  - simpl in Hm. apply outcome_bind_Return in Hm as ([o1 g1] & H1 & Hm).
    unfold partial_keys in Hk. simpl in Hk.
    apply value_step_dom in H1; [|clear -Hk; set_solver].
    rewrite <- H1. apply (IH _ _ Hm). rewrite H1. unfold partial_keys.
    clear -Hk. set_solver.
Qed.

(** X16. The dictionary that [_get_constraint_value] returns has exactly
    these keys: for every entry of [elementsPairs] the three keys of its
    intra, inter and total partial observables, and the two keys of the
    total observable before and after the convolution (["pdf_total"] and
    ["pdf"], or ["sf_total"] and ["sf"]). *)
Theorem get_constraint_value_keys s d output :
  _get_constraint_value s d = Return output →
  dom output =
    match kind (cfg s) with
    | PairDistributionConstraint =>
        list_to_set (partial_keys "rdf" (elementsPairs (cfg s))) ∪ {[ "pdf_total"; "pdf" ]}
    | _ =>
        list_to_set (partial_keys "sf" (elementsPairs (cfg s))) ∪ {[ "sf_total"; "sf" ]}
    end.
Proof.
  unfold _get_constraint_value, PDF_get_constraint_value, SF_get_constraint_value.
  intros Hm.
  destruct (kind (cfg s)).
  all: apply outcome_bind_Return in Hm as ([o g] & Hf & Hm).
  all: apply value_steps_dom in Hf; [|by rewrite init_output_dom].
  all: rewrite init_output_dom in Hf.
  all: repeat (apply outcome_bind_Return in Hm as (? & ? & Hm)).
  all: injection Hm as <-.
  all: rewrite !dom_insert_L, Hf.
  all: clear; set_solver.
Qed.
End dictionary.

Section pairs_facts.
Implicit Types (pool : list string) (a b : string).

Lemma elem_of_combinations_cons pool (x a b : string) :
  (a, b) ∈ combinations_with_replacement_2 (x :: pool) ↔
  (a = x ∧ b ∈ x :: pool) ∨ (a, b) ∈ combinations_with_replacement_2 pool.
Proof.
  simpl. rewrite elem_of_cons, elem_of_app, list_elem_of_fmap. split.
  - intros [[= -> ->]|[(y & [= -> ->] & Hy)|Hab]]; [left|left|right]; try done.
    + split; [done|]. by left.
    + split; [done|]. by right.
  - intros [[-> [->|Hb]%elem_of_cons]|Hab]; [by left| |by right; right].
    right. left. by exists b.
Qed.

Lemma combinations_elements pool a b :
  (a, b) ∈ combinations_with_replacement_2 pool → a ∈ pool ∧ b ∈ pool.
Proof.
  induction pool as [|x pool IH]; [by intros ?%elem_of_nil|].
  rewrite elem_of_combinations_cons. intros [[-> Hb]|Hab].
  - split; [by left|done].
  - destruct (IH Hab). split; by right.
Qed.

Lemma combinations_cover pool a b :
  a ∈ pool → b ∈ pool →
  (a, b) ∈ combinations_with_replacement_2 pool ∨
  (b, a) ∈ combinations_with_replacement_2 pool.
Proof.
  induction pool as [|x pool IH]; [by intros ?%elem_of_nil|].
  rewrite !elem_of_combinations_cons.
  intros [->|Ha]%elem_of_cons Hb.
  - left. left. done.
  - apply elem_of_cons in Hb as [->|Hb].
    + right. left. split; [done|]. by right.
    + destruct (IH Ha Hb); [left|right]; by right.
Qed.

Lemma combinations_once pool a b :
  NoDup pool → a ≠ b →
  (a, b) ∈ combinations_with_replacement_2 pool →
  (b, a) ∉ combinations_with_replacement_2 pool.
Proof.
  induction 1 as [|x pool Hx Hnd IH]; intros Hab; [by intros ?%elem_of_nil|].
  rewrite !elem_of_combinations_cons.
  intros [[-> Hb]|H1] [[-> Ha]|H2].
  - done.
  - apply combinations_elements in H2 as [_ ?]. done.
  - apply combinations_elements in H1 as [_ ?]. done.
  - by apply IH.
Qed.

Lemma combinations_NoDup pool :
  NoDup pool → NoDup (combinations_with_replacement_2 pool).
Proof.
  induction 1 as [|x pool Hx Hnd IH]; [constructor|].
  simpl. constructor.
  - rewrite elem_of_app, list_elem_of_fmap.
    intros [(y & [= <-] & Hy)|[Hx' _]%combinations_elements]; done.
  - apply NoDup_app. split; [|split; [|done]].
    + apply (NoDup_fmap_2 _). done.
    + intros [a b] (y & [= -> ->] & Hy)%list_elem_of_fmap
        [Hx' _]%combinations_elements. done.
Qed.

Lemma combinations_length pool :
  (2 * length (combinations_with_replacement_2 pool)
   = length pool * (length pool + 1))%nat.
Proof.
  induction pool as [|x pool IH]; [done|].
  simpl. rewrite length_app, length_fmap. lia.
Qed.

#[local] Instance tuple_le_total : Total tuple_le.
Proof.
  intros p q. unfold tuple_le.
  destruct (decide (p.1 = q.1)) as [Heq|Hne].
  - rewrite decide_True by done. apply (total String.le).
  - rewrite decide_False by done. apply (total String.le).
Qed.

(** X17. For distinct element names, [elementsPairs] is the sorted list
    of the [n (n + 1) / 2] combinations with replacement of two
    elements: its entries are pairs of elements, no entry occurs twice,
    and every unordered pair of elements occurs in exactly one of its two
    orders. *)
Theorem elements_pairs_cover (elements : list string) :
  NoDup elements →
  elements_pairs elements ≡ₚ combinations_with_replacement_2 elements ∧
  Sorted.Sorted tuple_le (elements_pairs elements) ∧
  NoDup (elements_pairs elements) ∧
  (2 * length (elements_pairs elements)
   = length elements * (length elements + 1))%nat ∧
  (∀ a b, (a, b) ∈ elements_pairs elements → a ∈ elements ∧ b ∈ elements) ∧
  (∀ a b, a ∈ elements → b ∈ elements →
          (a, b) ∈ elements_pairs elements ∨ (b, a) ∈ elements_pairs elements) ∧
  (∀ a b, a ≠ b → (a, b) ∈ elements_pairs elements →
          (b, a) ∉ elements_pairs elements).
Proof.
  intros Hnd.
  pose proof (sorting.merge_sort_Permutation tuple_le
                (combinations_with_replacement_2 elements)) as Hp.
  fold (elements_pairs elements) in Hp.
  split; [done|]. split; [apply (sorting.Sorted_merge_sort _)|].
  split; [rewrite Hp; by apply combinations_NoDup|].
  split; [rewrite Hp; apply combinations_length|].
  split; [|split].
  - intros a b. rewrite Hp. apply combinations_elements.
  - intros a b. rewrite Hp. apply combinations_cover.
  - intros a b. rewrite Hp. by apply combinations_once.
Qed.
End pairs_facts.

Section setup_facts.
Context {R : Type} `{Num R} `{Elementary R}.

Lemma checked_bind_Done {A B} (f : A → checked B) (m : checked A) (b : B) :
  m ≫= f = Done b → ∃ a, m = Done a ∧ f a = Done b.
Proof. destruct m as [a| |e]; [eauto|discriminate|discriminate]. Qed.

Lemma assert_Done (c : bool) (u : ()) : assert c = Done u → c = true.
Proof. by destruct c. Qed.

Lemma unchecked_Done {A} (o : outcome A) (a : A) : unchecked o = Done a → o = Return a.
Proof. destruct o; [by intros [= ->]|discriminate]. Qed.

(** The sum of the images under a map that is additive. *)
Lemma vsum_fmap_additive (g : R → R) (l : list R) :
  (∀ x y, g (add x y) = add (g x) (g y)) → g (of_Z 0) = of_Z 0 →
  vsum (g <$> l) = g (vsum l).
Proof.
  intros Hadd H0'. unfold vsum. rewrite <- H0' at 1.
  generalize (of_Z 0). induction l as [|x l IH]; intros acc; [done|].
  simpl. by rewrite <- Hadd, IH.
Qed.

(** X18. [set_window_function] fails its assertion exactly when the
    window is longer than the experimental data; otherwise it stores a
    window of the same length, divided by its sum whatever the sum is,
    and the stored window sums to 1, in exact arithmetic, when the sum of
    the given window is not zero. *)
Theorem set_window_function_normalises (nData : nat) (w : list R) :
  exact_normalisation R →
  (set_window_function nData (Some w) = AssertionError ↔ (nData < length w)%nat) ∧
  ∀ w', set_window_function nData (Some w) = Done w' →
        ∃ normalised, w' = Some normalised ∧
          length normalised = length w ∧
          (eqb (vsum w) (of_Z 0) = false → vsum normalised = of_Z 1).
Proof.
  intros Hexact. unfold set_window_function, assert. split.
  - destruct (bool_decide_reflect (length w ≤ nData)%nat); simpl; split;
      try done; lia.
  - intros w' Hm. destruct (bool_decide (length w ≤ nData)%nat); [|discriminate].
    simpl in Hm. injection Hm as <-. eexists. split; [done|].
    split; [by rewrite length_fmap|]. intros Hnz.
    rewrite vsum_fmap_additive.
    + by apply (div_same R Hexact).
    + intros x y. apply (div_add R Hexact).
    + apply (div_zero R Hexact).
Qed.

(** X19. When [__set_used_data_weights] accepts data weights, the used
    weights are the weights of the points between the two indexes, scaled
    so that their sum is the number of these points, in exact
    arithmetic. *)
Theorem set_used_data_weights_normalises (dataWeights : list R) (nData : nat)
    (minDistIdx maxDistIdx : option nat) (used : option (list R)) :
  exact_normalisation R →
  set_used_data_weights (Some dataWeights) nData minDistIdx maxDistIdx = Done used →
  ∃ u, used = Some u ∧
       length u = length (slice dataWeights (default 0%nat minDistIdx)
                            (default nData maxDistIdx + 1)) ∧
       vsum u = of_Z (Z.of_nat (length u)).
Proof.
  intros Hexact. unfold set_used_data_weights.
  intros (u0 & Hnz%assert_Done & Hm)%checked_bind_Done.
  injection Hm as <-. eexists. split; [done|].
  rewrite !length_fmap. split; [done|].
  apply negb_true_iff in Hnz.
  rewrite <- list_fmap_compose.
  rewrite !(cast_exact R Hexact).
  rewrite vsum_fmap_additive; unfold compose.
  - rewrite (div_same R Hexact) by done. apply (mul_one R Hexact).
  - intros x y. by rewrite (div_add R Hexact), (mul_add R Hexact).
  - by rewrite (div_zero R Hexact), (mul_zero R Hexact).
Qed.
End setup_facts.

Section limits_facts.
Context {R coord : Type} `{Num R} `{Elementary R}.

Lemma slice_length {A} (a : list A) (lo hi : nat) :
  (hi ≤ length a)%nat → length (slice a lo hi) = (hi - lo)%nat.
Proof. intros Hhi. unfold slice. rewrite length_take, length_drop. lia. Qed.

Lemma set_used_data_weights_length (dataWeights : option (list R)) (nData : nat)
    (minDistIdx maxDistIdx : nat) (used : option (list R)) :
  set_used_data_weights dataWeights nData (Some minDistIdx) (Some maxDistIdx)
    = Done used →
  match dataWeights, used with
  | Some w, Some u => length u = length (slice w minDistIdx (maxDistIdx + 1))
  | None, None => True
  | _, _ => False
  end.
Proof.
  unfold set_used_data_weights. destruct dataWeights as [w|]; [|by intros [= <-]].
  intros (u0 & _ & Hm)%checked_bind_Done. injection Hm as <-.
  by rewrite !length_fmap.
Qed.

(** X20. When [set_limits] returns, for data weights that have one
    weight for each experimental point: the shell centers, the shell
    volumes, the experimental values in use and the used data weights all
    have [histogramSize] entries, [histogramSize] is at most the number
    of experimental points, and the standard error of every model of
    [histogramSize] points is defined. *)
Theorem set_limits_shapes (experimentalData : list (R * R))
    (dataWeights : option (list R)) (limits : option (list (option R)))
    (c c' : Config R) :
  set_limits experimentalData dataWeights limits c = Done c' →
  match dataWeights with
  | Some w => length w = length experimentalData
  | None => True
  end →
  (histogramSize c' ≤ length experimentalData)%nat ∧
  length (shellCenters c') = histogramSize c' ∧
  length (shellVolumes c') = histogramSize c' ∧
  length (experimentalY c') = histogramSize c' ∧
  match dataWeights, _usedDataWeights c' with
  | Some _, Some u => length u = histogramSize c'
  | None, None => True
  | _, _ => False
  end ∧
  ∀ (s : State R coord) (modelData : list R),
    cfg s = c' → length modelData = histogramSize c' →
    ∃ se, compute_standard_error s modelData = Return se.
Proof.
  unfold set_limits. intros Hm Hw.
  apply checked_bind_Done in Hm as (lim & _ & Hm).
  apply checked_bind_Done in Hm as (minDistIdx & _ & Hm).
  apply checked_bind_Done in Hm as (maxDistIdx & _ & Hm).
  apply checked_bind_Done in Hm as (rowMin & Hmin%unchecked_Done & Hm).
  apply checked_bind_Done in Hm as (rowMax & Hmax%unchecked_Done & Hm).
  apply checked_bind_Done in Hm as (rows & Hrows%unchecked_Done & Hm).
  apply checked_bind_Done in Hm as (used & Hused%set_used_data_weights_length & Hm).
  injection Hm as <-. simpl.
  apply gather_spec, Forall2_length in Hrows. rewrite length_seq in Hrows.
  assert (maxDistIdx < length experimentalData)%nat as Hlt.
  { destruct (experimentalData !! maxDistIdx) eqn:Hl; [|discriminate].
    by eapply lookup_lt_Some. }
  rewrite !length_app, !length_fmap. simpl.
  assert (length (slice experimentalData minDistIdx (maxDistIdx + 1))
          = length rows) as Hslice by (rewrite slice_length by lia; lia).
  assert (length (zip_with
            (λ hi lo : R, mul (mul (FLOAT_TYPE (div (of_Z 4) (of_Z 3))) PI)
                              (sub (cube hi) (cube lo)))
            (drop 1 (((λ row : R * R, FLOAT_TYPE (sub row.1 (div (bin c) (of_Z 2))))
                        <$> rows)
                       ++ [FLOAT_TYPE (add rowMax.1 (div (bin c) (of_Z 2)))]))
            (take (length rows + 1 - 1)
               (((λ row : R * R, FLOAT_TYPE (sub row.1 (div (bin c) (of_Z 2))))
                   <$> rows)
                  ++ [FLOAT_TYPE (add rowMax.1 (div (bin c) (of_Z 2)))])))
          = length rows) as Hvol.
  { rewrite length_zip_with, length_drop, length_take, !length_app, !length_fmap.
    simpl. lia. }
  assert (match dataWeights, used with
          | Some _, Some u => length u = length rows
          | None, None => True
          | _, _ => False
          end) as Hu.
  { destruct dataWeights as [w|], used as [u|]; try done.
    rewrite Hused, slice_length by lia. lia. }
  replace (length rows + 1 - 1)%nat with (length rows) in * by lia.
  split; [lia|]. split; [done|]. split; [exact Hvol|]. split; [exact Hslice|].
  split; [exact Hu|].
  intros s modelData Hc Hlen. unfold compute_standard_error, vsub, vmul.
  rewrite Hc. simpl in *.
  rewrite vop_Return by (rewrite length_fmap; lia). simpl.
  destruct dataWeights as [w|], used as [u|]; try done; [|by eexists].
  rewrite vop_Return; [by eexists|].
  rewrite length_fmap, length_zip_with, length_fmap. lia.
Qed.
End limits_facts.

Section transform_facts.
Context {R : Type} `{Num R} `{Elementary R}.

Lemma vzip_total {A B C} (f : A → B → C) (xs : list A) (ys : list B) :
  length xs = length ys →
  vzip (λ x y, Return (f x y)) xs ys = Return (zip_with f xs ys).
Proof.
  revert ys. induction xs as [|x xs IH]; intros [|y ys] Hlen; try done.
  simpl. rewrite IH; [done|]. simpl in Hlen. lia.
Qed.

Lemma foldlM_vadd_length (q : nat) (rs : list (list R)) (r : list R) :
  length r = q → Forall (λ r, length r = q) rs →
  ∃ total, foldlM vadd r rs = Return total ∧ length total = q.
Proof.
  intros Hr Hrs. revert r Hr.
  induction Hrs as [|r' rs Hr' _ IH]; intros r Hr; [by exists r|].
  change (foldlM vadd r (r' :: rs)) with (a' ← vadd r r'; foldlM vadd a' rs).
  replace (vadd r r') with (Return (zip_with add r r'))
    by (symmetry; apply vop_Return; lia).
  change (∃ total, foldlM vadd (zip_with add r r') rs = Return total ∧ length total = q).
  apply IH. rewrite length_zip_with. lia.
Qed.

Lemma sine_transform_length (q : nat) (Gr : list R) (m : arr2 R) :
  length Gr = length m → m ≠ [] → Forall (λ r, length r = q) m →
  ∃ Sq, sine_transform Gr m = Return Sq ∧ length Sq = q.
Proof.
  intros Hlen Hm Hq. unfold sine_transform.
  rewrite vzip_total by done. simpl.
  destruct Gr as [|g Gr], m as [|r m]; try done. simpl.
  apply Forall_cons in Hq as [Hr Hq].
  apply foldlM_vadd_length; [by rewrite length_fmap|].
  apply Forall_forall. intros r' Hr'.
  apply list_elem_of_lookup in Hr' as [k Hk].
  apply lookup_zip_with_Some in Hk as (g' & r0 & -> & _ & Hr0).
  rewrite length_fmap. rewrite Forall_forall in Hq. apply Hq.
  by eapply list_elem_of_lookup_2.
Qed.

(** X21. [__set_Gr_2_Sq_matrix] raises [IndexError] when there are fewer
    than two shell centers.  Otherwise the matrix has one row for each
    shell center and one column for each experimental Q value, and
    [_get_Sq_from_Gr] of both structure factor classes returns, for every
    G(r) of one value for each shell center, one value for each
    experimental Q value. *)
Theorem Gr_2_Sq_matrix_shape (Qs Rs : list R) :
  match set_Gr_2_Sq_matrix (Some Qs) (Some Rs) with
  | Return (Some m) =>
      (2 ≤ length Rs)%nat ∧
      length m = length Rs ∧
      Forall (λ r, length r = length Qs) m ∧
      ∀ Gr : list R, length Gr = length Rs →
        (∃ Sq, RSF_get_Sq_from_Gr m Gr = Return Sq ∧ length Sq = length Qs) ∧
        (∃ Sq, SF_get_Sq_from_Gr m Gr = Return Sq ∧ length Sq = length Qs)
  | Return None => False
  | Raise e => e = IndexError ∧ (length Rs < 2)%nat
  end.
Proof.
  unfold set_Gr_2_Sq_matrix.
  destruct (Rs !! 1%nat) as [r1|] eqn:H1; simpl.
  2:{ split; [done|]. apply lookup_ge_None in H1. lia. }
  apply lookup_lt_Some in H1.
  destruct (Rs !! 0%nat) as [r0|] eqn:H0'; simpl.
  2:{ apply lookup_ge_None in H0'. lia. }
  split; [lia|]. split; [by rewrite length_fmap|].
  assert (Forall (λ r : list R, length r = length Qs)
            ((λ r, (λ q, mul (sub r1 r0)
                           (div (np_sin (mul r (mul (FLOAT_TYPE (of_Z 1)) q))) q))
                     <$> Qs) <$> Rs)) as Hq.
  { apply Forall_fmap, Forall_forall. intros r _. simpl. by rewrite length_fmap. }
  split; [exact Hq|]. intros Gr HGr.
  match type of Hq with
  | Forall _ ?m =>
      destruct (sine_transform_length (length Qs) Gr m) as (Sq & HSq & Hlen);
        [by rewrite length_fmap| |exact Hq|]
  end.
  { destruct Rs; [simpl in H1; lia|done]. }
  split.
  - exists Sq. done.
  - unfold SF_get_Sq_from_Gr. rewrite HSq. simpl. eexists. split; [done|].
    by rewrite length_fmap.
Qed.
End transform_facts.

Section check_facts.
Context {R : Type} `{Num R} `{Elementary R} `{Globals R}.

(** X22. [check_experimental_data] of the pair distribution class never
    accepts a table of fewer than two rows: it returns [False] or raises
    [IndexError]; on a table without rows both classes raise
    [IndexError] instead of returning a result. *)
Theorem check_experimental_data_short (experimentalData : list (R * R)) :
  (length experimentalData < 2)%nat →
  match PDF_check_experimental_data experimentalData with
  | Return (ok, _) => ok = false
  | Raise e => e = IndexError
  end ∧
  (experimentalData = [] →
     PDF_check_experimental_data experimentalData = Raise IndexError ∧
     SF_check_experimental_data experimentalData = Raise IndexError).
Proof.
  intros Hlen. split.
  - unfold PDF_check_experimental_data.
    destruct (negb (forallb id _)); [done|].
    destruct experimentalData as [|row0 [|row1 rest]]; [done| |simpl in Hlen; lia].
    simpl. by destruct (ltb row0.1 (of_Z 0)).
  - intros ->. done.
Qed.

(** X23. A table that [check_experimental_data] of the pair distribution
    class accepts has at least two rows, a first distance that is not
    negative, and bins that all differ from the first bin by at most
    [PRECISION]; the message is empty, and the structure factor class
    accepts the table as well. *)
Theorem check_experimental_data_accepted (experimentalData : list (R * R))
    (message : string) :
  PDF_check_experimental_data experimentalData = Return (true, message) →
  message = "" ∧
  SF_check_experimental_data experimentalData = Return (true, "") ∧
  ∃ row0 row1,
    experimentalData !! 0%nat = Some row0 ∧
    experimentalData !! 1%nat = Some row1 ∧
    ltb row0.1 (of_Z 0) = false ∧
    ∀ k a b,
      experimentalData !! k = Some a → experimentalData !! (S k) = Some b →
      ltb PRECISION (np_abs (sub (sub b.1 a.1) (sub row1.1 row0.1))) = false.
Proof.
  unfold PDF_check_experimental_data, SF_check_experimental_data.
  destruct (negb (forallb id _)); [discriminate|].
  destruct (experimentalData !! 0%nat) as [row0|] eqn:H0'; [|discriminate].
  simpl. destruct (ltb row0.1 (of_Z 0)) eqn:Hneg; [discriminate|].
  destruct (experimentalData !! 1%nat) as [row1|] eqn:H1'; [|discriminate].
  simpl.
  destruct (existsb _ _) eqn:Hbins; [discriminate|].
  intros [= <-]. split; [done|]. split; [done|].
  exists row0, row1. split; [done|]. split; [done|]. split; [done|].
  intros k a b Ha Hb.
  assert (zip_with sub (drop 1 (fst <$> experimentalData))
            (take (length (fst <$> experimentalData) - 1) (fst <$> experimentalData))
            !! k = Some (sub b.1 a.1)) as Hk.
  { apply lookup_zip_with_Some. exists b.1, a.1. split; [done|]. split.
    - rewrite lookup_drop, list_lookup_fmap. simpl. by rewrite Hb.
    - rewrite lookup_take_lt, list_lookup_fmap, Ha; [done|].
      apply lookup_lt_Some in Hb. rewrite length_fmap. lia. }
  apply list_elem_of_lookup_2 in Hk.
  destruct (ltb PRECISION _) eqn:Hb'; [|done].
  assert (existsb (λ b0 : R, ltb PRECISION (np_abs (sub b0 (sub row1.1 row0.1))))
            (zip_with sub (drop 1 (fst <$> experimentalData))
               (take (length (fst <$> experimentalData) - 1)
                  (fst <$> experimentalData))) = true) as Hex.
  { apply existsb_exists. exists (sub b.1 a.1). split; [|done].
    by apply list_elem_of_In. }
  congruence.
Qed.
End check_facts.

(** ** The two computations of the observable, on exact numbers *)

Section agree.
Import Exact.
Import Qcanon.
Context {coord : Type}.
Implicit Types (s : State Qc coord) (d : Hist Qc) (o : gmap string (list Qc)).

Lemma Qc_cast (x : Qc) : FLOAT_TYPE x = x.
Proof. reflexivity. Qed.

Lemma Qc_vadd_zeros (n : nat) (r x : list Qc) : vadd (zeros n) r = Return x → x = r.
Proof.
  intros Hx. apply list_eq. intros k. rewrite (vop_lookup _ _ _ _ k Hx).
  destruct (vop_length _ _ _ _ Hx) as [Hr _].
  unfold zeros in *. rewrite length_replicate in Hr.
  destruct (r !! k) as [q|] eqn:Hk.
  - apply lookup_lt_Some in Hk. rewrite lookup_replicate_2 by lia. simpl. f_equal.
    change (0 + q = q)%Qc. ring.
  - by destruct (replicate n _ !! k).
Qed.

Lemma iadd_fresh o (k : string) (n : nat) (rhs : outcome (list Qc)) o' :
  o !! k = Some (zeros n) → iadd o k rhs = Return o' →
  ∃ r, rhs = Return r ∧ o' = <[k := r]> o.
Proof.
  unfold iadd, dict_get. intros Hk Hm. rewrite Hk in Hm. simpl in Hm.
  destruct rhs as [r|e]; [|discriminate]. simpl in Hm.
  apply outcome_bind_Return in Hm as (x & Hx%Qc_vadd_zeros & Hm). subst x.
  injection Hm as <-. by exists r.
Qed.

Lemma update_Return o (k : string) (f : list Qc → outcome (list Qc)) o' :
  update o k f = Return o' →
  ∃ x x', o !! k = Some x ∧ f x = Return x' ∧ o' = <[k := x']> o.
Proof.
  unfold update, dict_get. intros Hm.
  destruct (o !! k) as [x|]; [|discriminate]. simpl in Hm.
  apply outcome_bind_Return in Hm as (x' & Hx & Hm). injection Hm as <-.
  by exists x, x'.
Qed.

Lemma key_parts_distinct (prefix : string) (pair : string * string) :
  NoDup [key prefix "intra" pair; key prefix "inter" pair; key prefix "total" pair].
Proof.
  assert (∀ (x y : string) (rest1 rest2 : string),
            x ≠ y → String.length x = String.length y →
            prefix +:+ "_" +:+ x +:+ rest1 ≠ prefix +:+ "_" +:+ y +:+ rest2) as Hne.
  { intros x y rest1 rest2 Hxy Hlen Heq.
    apply (inj (String.app prefix)) in Heq. injection Heq as Heq.
    revert y Hxy Hlen Heq. induction x as [|a x IH]; intros [|b y] Hxy Hlen Heq;
      try done.
    simpl in Heq. injection Heq as -> Heq. apply (IH y); [congruence| |done].
    simpl in Hlen. lia. }
  unfold key. repeat constructor; set_unfold; intros Hk.
  - destruct Hk as [Hk|[Hk|[]]]; revert Hk; by apply Hne.
  - destruct Hk as [Hk|[]]; revert Hk; by apply Hne.
  - done.
Qed.

Lemma value_step_agrees (prefix : string) (castN castD : Qc → Qc)
    (post : list Qc → outcome (list Qc)) s d o o' (g g' G G' : list Qc)
    (pair : string * string) (n : nat) :
  (∀ x, castN x = x) → (∀ x, castD x = x) →
  o !! key prefix "intra" pair = Some (zeros n) →
  o !! key prefix "inter" pair = Some (zeros n) →
  value_step prefix castN post s d (o, g) pair = Return (o', g') →
  total_step castD s d G pair = Return G' →
  (∀ k, g !! k = (x ← G !! k; v ← shellVolumes (cfg s) !! k; Some (div x v))) →
  (∀ k, g' !! k = (x ← G' !! k; v ← shellVolumes (cfg s) !! k; Some (div x v))) ∧
  (∀ k, k ∉ [key prefix "intra" pair; key prefix "inter" pair; key prefix "total" pair] →
        o' !! k = o !! k).
Proof.
  intros HcastN HcastD Hi He Hv Ht Hinv. unfold value_step in Hv.
  unfold total_step in Ht.
  apply outcome_bind_Return in Hv as (wij & Hw & Hv). rewrite Hw in Ht. simpl in Ht.
  apply outcome_bind_Return in Hv as (ni & Hni & Hv). rewrite Hni in Ht. simpl in Ht.
  apply outcome_bind_Return in Hv as (nj & Hnj & Hv). rewrite Hnj in Ht. simpl in Ht.
  apply outcome_bind_Return in Hv as (idi & Hidi & Hv). rewrite Hidi in Ht. simpl in Ht.
  apply outcome_bind_Return in Hv as (idj & Hidj & Hv). rewrite Hidj in Ht. simpl in Ht.
  apply outcome_bind_Return in Hv as ([Nij o1] & Hb & Hv).
  apply outcome_bind_Return in Ht as ([Nij' nij] & Hc & Ht).
  rewrite HcastD in Ht.
  pose proof (key_parts_distinct prefix pair) as Hk.
  apply NoDup_cons in Hk as [Hk1 Hk]. apply NoDup_cons in Hk as [Hk2 _].
  set_unfold in Hk1. set_unfold in Hk2.
  assert (∃ r1 r2,
            o1 = <[key prefix "inter" pair := r2]> (<[key prefix "intra" pair := r1]> o) ∧
            Nij = Nij' ∧
            ∀ nij', vadd r1 r2 = Return nij' → ∀ k, nij' !! k = nij !! k) as Hsum.
  { unfold pair_counts in Hc. destruct (decide (idi = idj)) as [->|Hij].
    - apply outcome_bind_Return in Hb as (oa & Ha & Hb).
      apply outcome_bind_Return in Hb as (ob & Hb' & Hb).
      injection Hb as <- <-. rewrite HcastN.
      apply (iadd_fresh _ _ n) in Ha as (r1 & Hr1 & ->); [|done].
      apply (iadd_fresh _ _ n) in Hb' as (r2 & Hr2 & ->);
        [|rewrite lookup_insert_ne by naive_solver; done].
      rewrite Hr1, Hr2 in Hc. simpl in Hc.
      apply outcome_bind_Return in Hc as (nij0 & Hn & Hc). injection Hc as <- <-.
      exists r1, r2. split; [done|]. split; [done|].
      intros nij' Hn'. unfold vadd in *. congruence.
    - apply outcome_bind_Return in Hb as (oa & Ha & Hb).
      apply outcome_bind_Return in Hb as (ob & Hb' & Hb).
      injection Hb as <- <-. rewrite HcastN.
      apply (iadd_fresh _ _ n) in Ha as (r1 & Hr1 & ->); [|done].
      apply (iadd_fresh _ _ n) in Hb' as (r2 & Hr2 & ->);
        [|rewrite lookup_insert_ne by naive_solver; done].
      apply outcome_bind_Return in Hr1 as (a & Ha & Hr1).
      apply outcome_bind_Return in Hr1 as (b & Hb & Hr1).
      apply outcome_bind_Return in Hr2 as (c & Hc' & Hr2).
      apply outcome_bind_Return in Hr2 as (e & He' & Hr2).
      rewrite Ha, Hb, Hc', He' in Hc. simpl in Hc.
      apply outcome_bind_Return in Hc as (ab & Hab & Hc).
      apply outcome_bind_Return in Hc as (abc & Habc & Hc).
      apply outcome_bind_Return in Hc as (nij0 & Hn & Hc). injection Hc as <- <-.
      exists r1, r2. split; [done|]. split; [done|].
      intros nij' Hn' k.
      rewrite (vop_lookup _ _ _ _ k Hn'), (vop_lookup _ _ _ _ k Hn),
        (vop_lookup _ _ _ _ k Habc), (vop_lookup _ _ _ _ k Hab),
        (vop_lookup _ _ _ _ k Hr1), (vop_lookup _ _ _ _ k Hr2).
      destruct (a !! k) as [ak|], (b !! k) as [bk|], (c !! k) as [ck|],
        (e !! k) as [ek|]; simpl; try done.
      f_equal. change (ak + bk + (ck + ek) = ak + bk + ck + ek)%Qc. ring. }
  destruct Hsum as (r1 & r2 & -> & -> & Hn).
  clear Hb Hc.
  apply outcome_bind_Return in Hv as (xi & Hxi & Hv).
  apply outcome_bind_Return in Hv as (xe & Hxe & Hv).
  unfold dict_get in Hxi, Hxe.
  rewrite lookup_insert_ne, lookup_insert_eq in Hxi by naive_solver.
  rewrite lookup_insert_eq in Hxe.
  injection Hxi as <-. injection Hxe as <-.
  apply outcome_bind_Return in Hv as (nij' & Hn' & Hv).
  specialize (Hn nij' Hn').
  apply outcome_bind_Return in Hv as (dij & Hd & Hv).
  apply outcome_bind_Return in Hv as (g1 & Hg & Hv).
  apply outcome_bind_Return in Hv as (o2 & (x2 & x2' & _ & _ & ->)%update_Return & Hv).
  apply outcome_bind_Return in Hv as (o3 & (x3 & x3' & _ & _ & ->)%update_Return & Hv).
  apply outcome_bind_Return in Hv as (xi' & _ & Hv).
  apply outcome_bind_Return in Hv as (xe' & _ & Hv).
  apply outcome_bind_Return in Hv as (tot & _ & Hv).
  apply outcome_bind_Return in Hv as (o4 & (x4 & x4' & _ & _ & ->)%update_Return & Hv).
  apply outcome_bind_Return in Hv as (o5 & (x5 & x5' & _ & _ & ->)%update_Return & Hv).
  apply outcome_bind_Return in Hv as (o6 & (x6 & x6' & _ & _ & ->)%update_Return & Hv).
  injection Hv as <- <-.
  split.
  - intros k.
    rewrite (vop_lookup _ _ _ _ k Hg), (vop_lookup _ _ _ _ k Ht), !list_lookup_fmap,
      (vop_lookup _ _ _ _ k Hd), Hn, Hinv.
    destruct (G !! k) as [x|], (nij !! k) as [y|],
      (shellVolumes (cfg s) !! k) as [v|]; simpl; try done.
    f_equal. unfold Qcdiv. ring.
  - intros k Hk. set_unfold in Hk.
    rewrite !lookup_insert_ne by naive_solver. done.
Qed.

Lemma init_output_zeros (prefix : string) (n : nat) (pairs : list (string * string))
    (k : string) :
  k ∈ partial_keys prefix pairs →
  init_output (R:=Qc) prefix n pairs !! k = Some (zeros n).
Proof.
  unfold init_output. intros Hk.
  assert (∀ acc : gmap string (list Qc),
            k ∈ partial_keys prefix pairs ∨ acc !! k = Some (zeros n) →
            foldl (λ output pair,
                     <[key prefix "total" pair := zeros n]>
                       (<[key prefix "inter" pair := zeros n]>
                          (<[key prefix "intra" pair := zeros n]> output)))
              acc pairs !! k = Some (zeros n)) as Hacc; [|by apply Hacc; left].
  clear Hk. unfold partial_keys.
  induction pairs as [|pair pairs IH]; intros acc Hk.
  - destruct Hk as [Hk|Hk]; [by apply elem_of_nil in Hk|done].
  - simpl. apply IH. simpl in Hk. rewrite !elem_of_cons in Hk.
    destruct (decide (k = key prefix "total" pair)) as [->|H3];
      [right; by rewrite lookup_insert_eq|].
    rewrite lookup_insert_ne by done.
    destruct (decide (k = key prefix "inter" pair)) as [->|H2];
      [right; by rewrite lookup_insert_eq|].
    rewrite lookup_insert_ne by done.
    destruct (decide (k = key prefix "intra" pair)) as [->|H1];
      [right; by rewrite lookup_insert_eq|].
    rewrite lookup_insert_ne by done.
    destruct Hk as [[->|[->|[->|Hk]]]|Hk]; [done|done|done|by left|by right].
Qed.

Lemma value_steps_agree (prefix : string) (castN castD : Qc → Qc)
    (post : list Qc → outcome (list Qc)) s d (n : nat)
    (pairs : list (string * string)) o o' (g g' G G' : list Qc) :
  (∀ x, castN x = x) → (∀ x, castD x = x) →
  NoDup (partial_keys prefix pairs) →
  (∀ k, k ∈ partial_keys prefix pairs → o !! k = Some (zeros n)) →
  foldlM (value_step prefix castN post s d) (o, g) pairs = Return (o', g') →
  foldlM (total_step castD s d) G pairs = Return G' →
  (∀ k, g !! k = (x ← G !! k; v ← shellVolumes (cfg s) !! k; Some (div x v))) →
  ∀ k, g' !! k = (x ← G' !! k; v ← shellVolumes (cfg s) !! k; Some (div x v)).
Proof.
  intros HcastN HcastD. revert o g G.
  induction pairs as [|pair pairs IH]; intros o g G Hnd Hz Hv Ht Hinv.
  - injection Hv as <- <-. by injection Ht as <-.
  - simpl in Hv, Ht.
    apply outcome_bind_Return in Hv as ([o1 g1] & Hv1 & Hv).
    apply outcome_bind_Return in Ht as (G1 & Ht1 & Ht).
    unfold partial_keys in Hnd, Hz. simpl in Hnd, Hz.
    fold (partial_keys prefix pairs) in Hnd, Hz.
    apply NoDup_cons in Hnd as [Hn1 Hnd]. apply NoDup_cons in Hnd as [Hn2 Hnd].
    apply NoDup_cons in Hnd as [Hn3 Hnd].
    destruct (value_step_agrees prefix castN castD post s d o o1 g g1 G G1 pair n)
      as [Hinv1 Hfr];
      [done|done|apply Hz; by left|apply Hz; right; by left|done|done|done|].
    apply (IH o1 g1 G1); [done| |done|done|done].
    intros k Hk. rewrite Hfr; [apply Hz; by do 3 right|].
    intros Hin. apply elem_of_cons in Hin as [->|Hin]; [apply Hn1; by do 2 right|].
    apply elem_of_cons in Hin as [->|Hin]; [apply Hn2; by right|].
    apply list_elem_of_singleton in Hin as ->. by apply Hn3.
Qed.

Lemma total_steps_length (castD : Qc → Qc) s d (pairs : list (string * string))
    (G G' : list Qc) :
  foldlM (total_step castD s d) G pairs = Return G' → length G' = length G.
Proof.
  revert G. induction pairs as [|pair pairs IH]; intros G Hm.
  - by injection Hm as <-.
  - simpl in Hm. apply outcome_bind_Return in Hm as (G1 & H1 & Hm).
    rewrite (IH _ Hm). unfold total_step in H1.
    repeat (apply outcome_bind_Return in H1 as (? & ? & H1)).
    match goal with
    | Hp : pair_counts _ _ _ _ _ = Return ?p |- _ => destruct p
    end.
    by destruct (vop_length _ _ _ _ H1) as [_ ->].
Qed.

(** The observable that [__get_total_Gr] returns is the one that
    [_get_constraint_value] stores under ["pdf"]. *)
Lemma get_total_is_pdf s d (total : list Qc) s' output :
  kind (cfg s) = PairDistributionConstraint →
  refit_due (adjustScaleFactorFrequency (self s)) (generated (engine s)) = false →
  NoDup (partial_keys "rdf" (elementsPairs (cfg s))) →
  get_total d (numberDensity (engine s)) s = (Return total, s') →
  _get_constraint_value s d = Return output →
  output !! "pdf" = Some total.
Proof.
  intros Hk Hdue Hnd Ht Hv.
  unfold _get_constraint_value in Hv. rewrite Hk in Hv.
  unfold PDF_get_constraint_value in Hv.
  apply outcome_bind_Return in Hv as ([o gr] & Hfold & Hv).
  unfold get_total in Ht. rewrite bind_get, Hk in Ht.
  unfold get_total_Gr in Ht. unfold_setters.
  rewrite bind_get, bind_lift in Ht.
  destruct (foldlM (total_step FLOAT_TYPE s d) _ _) as [G|] eqn:HG; [|discriminate].
  rewrite bind_lift in Ht. unfold reduce_Gr in Ht.
  destruct (vdiv G (shellVolumes (cfg s))) as [Gq|] eqn:Hq; [|discriminate].
  assert (Gq = gr) as ->.
  { apply list_eq. intros k.
    rewrite (value_steps_agree "rdf" FLOAT_TYPE FLOAT_TYPE Return s d _ _ _ _ _ _ _ _
               Qc_cast Qc_cast Hnd (init_output_zeros "rdf" _ _)
               Hfold HG).
    - apply (vop_lookup _ _ _ _ k Hq).
    - intros j. unfold zeros. destruct (decide (j < histogramSize (cfg s))%nat).
      + rewrite !lookup_replicate_2 by done. simpl.
        destruct (vop_length _ _ _ _ Hq) as [Hlen _].
        rewrite (total_steps_length _ _ _ _ _ _ HG) in Hlen.
        unfold zeros in Hlen. rewrite length_replicate in Hlen.
        destruct (lookup_lt_is_Some_2 (shellVolumes (cfg s)) j) as [v Hv'];
          [lia|].
        rewrite Hv'. simpl. f_equal. change (0 = 0 / v)%Qc. unfold Qcdiv. ring.
      + destruct (replicate (histogramSize (cfg s)) (of_Z 0) !! j) eqn:Hrep; [|done].
        apply lookup_replicate in Hrep as [_ ?]. lia. }
  apply outcome_bind_Return in Hv as (t0 & Hto & Hv).
  change (Return gr ≫= (λ Gr, to_Gr (of_Z 4) s (numberDensity (engine s)) Gr))
    with (to_Gr (of_Z 4) s (numberDensity (engine s)) gr) in Ht.
  rewrite Hto, bind_unfold in Ht.
  apply outcome_bind_Return in Hv as (t1 & Hsh & Hv).
  assert (match _shapeArray (cfg s) with
          | Some shape => lift (vsub t0 shape)
          | None => mret t0
          end s = (Return t1, s)) as Hsh'.
  { destruct (_shapeArray (cfg s)); [|by injection Hsh as <-].
    unfold lift. by rewrite Hsh. }
  rewrite Hsh', bind_unfold in Ht.
  rewrite (get_adjusted_scale_factor_not_due _ _ _ _ Hdue) in Ht.
  rewrite bind_modify in Ht. unfold lift in Ht.
  apply outcome_bind_Return in Hv as (pdf & Hwin & Hv).
  injection Hv as <-. rewrite lookup_insert_eq.
  injection Ht as Ht _.
  assert (Return (A:=list Qc) pdf = Return total) as Heq
    by (rewrite <- Hwin, <- Ht; reflexivity).
  by injection Heq as <-.
Qed.

(** Likewise in the structure factor classes, for the number density
    [numberOfAtoms / volume] that [_get_constraint_value] uses. *)
Lemma get_total_is_sf s d (total : list Qc) s' output :
  kind (cfg s) ≠ PairDistributionConstraint →
  refit_due (adjustScaleFactorFrequency (self s)) (generated (engine s)) = false →
  NoDup (partial_keys "sf" (elementsPairs (cfg s))) →
  get_total d (div (of_Z (numberOfAtoms (engine s))) (volume (engine s))) s
    = (Return total, s') →
  _get_constraint_value s d = Return output →
  output !! "sf" = Some total.
Proof.
  intros Hk Hdue Hnd Ht Hv.
  assert (get_total_Sq d (div (of_Z (numberOfAtoms (engine s))) (volume (engine s))) s
          = (Return total, s')) as Ht'.
  { unfold get_total in Ht. rewrite bind_get in Ht. by destruct (kind (cfg s)). }
  assert (SF_get_constraint_value s d = Return output) as Hv'.
  { unfold _get_constraint_value in Hv. by destruct (kind (cfg s)). }
  clear Ht Hv Hk. rename Ht' into Ht. rename Hv' into Hv.
  unfold SF_get_constraint_value in Hv.
  apply outcome_bind_Return in Hv as ([o gr] & Hfold & Hv).
  unfold get_total_Sq in Ht. unfold_setters.
  rewrite bind_get, bind_lift in Ht.
  destruct (foldlM (total_step id s d) _ _) as [G|] eqn:HG; [|discriminate].
  rewrite bind_lift in Ht. unfold reduce_Gr in Ht.
  destruct (vdiv G (shellVolumes (cfg s))) as [Gq|] eqn:Hq; [|discriminate].
  assert (Gq = gr) as ->.
  { apply list_eq. intros k.
    rewrite (value_steps_agree "sf" id id (_get_Sq_from_Gr s) s d _ _ _ _ _ _ _ _
               (λ x, eq_refl x) (λ x, eq_refl x) Hnd (init_output_zeros "sf" _ _)
               Hfold HG).
    - apply (vop_lookup _ _ _ _ k Hq).
    - intros j. unfold zeros. destruct (decide (j < histogramSize (cfg s))%nat).
      + rewrite !lookup_replicate_2 by done. simpl.
        destruct (vop_length _ _ _ _ Hq) as [Hlen _].
        rewrite (total_steps_length _ _ _ _ _ _ HG) in Hlen.
        unfold zeros in Hlen. rewrite length_replicate in Hlen.
        destruct (lookup_lt_is_Some_2 (shellVolumes (cfg s)) j) as [v Hv'];
          [lia|].
        rewrite Hv'. simpl. f_equal. change (0 = 0 / v)%Qc. unfold Qcdiv. ring.
      + destruct (replicate (histogramSize (cfg s)) (of_Z 0) !! j) eqn:Hrep; [|done].
        apply lookup_replicate in Hrep as [_ ?]. lia. }
  apply outcome_bind_Return in Hv as (t0 & Hto & Hv).
  change (Return gr ≫= (λ Gr, to_Gr (FLOAT_TYPE (of_Z 4)) s
                                 (div (of_Z (numberOfAtoms (engine s)))
                                      (volume (engine s))) Gr))
    with (to_Gr (FLOAT_TYPE (of_Z 4)) s
            (FLOAT_TYPE (div (of_Z (numberOfAtoms (engine s))) (volume (engine s))))
            gr) in Ht.
  rewrite Hto, bind_lift in Ht.
  apply outcome_bind_Return in Hv as (Sq & HSq & Hv).
  rewrite HSq, bind_unfold in Ht.
  rewrite (get_adjusted_scale_factor_not_due _ _ _ _ Hdue) in Ht.
  rewrite bind_modify in Ht. unfold lift in Ht.
  apply outcome_bind_Return in Hv as (sf & Hwin & Hv).
  injection Hv as <-. rewrite lookup_insert_eq.
  injection Ht as Ht _.
  assert ((λ x : Qc, Qcmult x (scaleFactor (self s))) <$> Sq
          = (λ x : Qc, mul (scaleFactor (self s)) x) <$> Sq) as Hcomm.
  { apply list_fmap_ext. intros _ x _. apply Qcmult_comm. }
  rewrite Hcomm in Ht. unfold apply_window in Ht.
  destruct (windowFunction (cfg s)) as [w|].
  - rewrite Ht in Hwin. simpl in Hwin. injection Hwin as <-.
    change (FLOAT_TYPE (R:=Qc)) with (@id Qc). by rewrite list_fmap_id.
  - rewrite Ht in Hwin. by injection Hwin as <-.
Qed.

(** X24. In the pair distribution class, on exact (rational) numbers,
    when no refit of the scale factor is due and the keys of the partial
    observables are distinct: the observable that [__get_total_Gr]
    computes from the data with the number density of the engine is the
    array that [_get_constraint_value] stores under ["pdf"] for the same
    data, whenever both return. *)
Theorem total_agrees_with_value s d (total : list Qc) s' output :
  kind (cfg s) = PairDistributionConstraint →
  refit_due (adjustScaleFactorFrequency (self s)) (generated (engine s)) = false →
  NoDup (partial_keys "rdf" (elementsPairs (cfg s))) →
  get_total d (numberDensity (engine s)) s = (Return total, s') →
  _get_constraint_value s d = Return output →
  output !! "pdf" = Some total.
Proof. apply get_total_is_pdf. Qed.

(** X26. In the structure factor classes, on exact (rational) numbers,
    when no refit of the scale factor is due and the keys of the partial
    observables are distinct: the observable that [__get_total_Sq]
    computes from the data with the number density
    [numberOfAtoms / volume] is the array that [_get_constraint_value]
    stores under ["sf"] for the same data, whenever both return. *)
Theorem structure_factor_agrees_with_value s d (total : list Qc) s' output :
  kind (cfg s) ≠ PairDistributionConstraint →
  refit_due (adjustScaleFactorFrequency (self s)) (generated (engine s)) = false →
  NoDup (partial_keys "sf" (elementsPairs (cfg s))) →
  get_total d (div (of_Z (numberOfAtoms (engine s))) (volume (engine s))) s
    = (Return total, s') →
  _get_constraint_value s d = Return output →
  output !! "sf" = Some total.
Proof. apply get_total_is_sf. Qed.

Lemma pdf_total_without_window s d output :
  kind (cfg s) = PairDistributionConstraint →
  windowFunction (cfg s) = None →
  _get_constraint_value s d = Return output →
  output !! "pdf_total" = output !! "pdf".
Proof.
  intros Hk Hw Hv. unfold _get_constraint_value in Hv. rewrite Hk in Hv.
  unfold PDF_get_constraint_value, apply_window in Hv. rewrite Hw in Hv.
  apply outcome_bind_Return in Hv as ([o gr] & _ & Hv).
  apply outcome_bind_Return in Hv as (t0 & _ & Hv).
  apply outcome_bind_Return in Hv as (t1 & _ & Hv).
  simpl in Hv. injection Hv as <-.
  rewrite lookup_insert_eq, lookup_insert_ne by done. by rewrite lookup_insert_eq.
Qed.
End agree.

Section agree_error.
Import Exact.
Context {coord : Type} `{External Qc coord}.
Implicit Types (s : State Qc coord).

(** X25. In the pair distribution class without window function, on
    exact numbers, when no refit of the scale factor is due and the keys
    of the partial observables are distinct:
    [compute_and_set_standard_error] right after a [compute_data] that
    returned leaves the standard error as [compute_data] has set it,
    whether it returns or raises. *)
Theorem standard_error_paths_agree s s1 :
  kind (cfg s) = PairDistributionConstraint →
  windowFunction (cfg s) = None →
  refit_due (adjustScaleFactorFrequency (self s)) (generated (engine s)) = false →
  NoDup (partial_keys "rdf" (elementsPairs (cfg s))) →
  compute_data s = (Return (), s1) →
  standardError (self (compute_and_set_standard_error s1).2) = standardError (self s1).
Proof.
  intros Hk Hw Hdue Hnd (i & e & total & se & f & _ & Ht & Hse & ->)%compute_data_final.
  unfold compute_and_set_standard_error. rewrite bind_get, bind_lift.
  unfold get_constraint_value. simpl.
  match goal with
  | |- context [_get_constraint_value ?st ?h] =>
      destruct (_get_constraint_value st h) as [output|err] eqn:Hv; [|done];
      pose proof (get_total_ext h (numberDensity (engine s)) s st
                    eq_refl eq_refl eq_refl eq_refl eq_refl) as Hext;
      rewrite Ht in Hext;
      destruct (get_total h (numberDensity (engine s)) st) as [ot sT] eqn:Ht1;
      simpl in Hext; subst ot;
      pose proof (get_total_is_pdf st h total sT output Hk Hdue Hnd Ht1 Hv)
        as Hpdf;
      rewrite <- (pdf_total_without_window st h output Hk Hw Hv) in Hpdf
  end.
  rewrite bind_lift. simpl. rewrite Hk. unfold dict_get. simpl. rewrite Hpdf. simpl.
  rewrite bind_lift.
  match goal with
  | |- context [compute_standard_error ?st total] =>
      rewrite (compute_standard_error_ext s st total eq_refl), Hse
  end.
  done.
Qed.
End agree_error.

Section exact_more.
Import Exact Line ExactSetup.

Lemma Qc_eqb_false (x y : Qc) : eqb x y = false → x ≠ y.
Proof.
  simpl. intros Hne ->.
  by rewrite (proj2 (QArith_base.Qeq_bool_iff _ _) (QArith_base.Qeq_refl _)) in Hne.
Qed.

Lemma Qc_sub_add (x y : Qc) : add (sub x y) y = x.
Proof.
  simpl. unfold Qcanon.Qcminus.
  by rewrite <- Qcanon.Qcplus_assoc, (Qcanon.Qcplus_comm (Qcanon.Qcopp y)),
       Qcanon.Qcplus_opp_r, Qcanon.Qcplus_0_r.
Qed.

Lemma Qc_sub_diag (x : Qc) : sub x x = of_Z 0.
Proof. simpl. unfold Qcanon.Qcminus. apply Qcanon.Qcplus_opp_r. Qed.

Lemma Qc_mul_0_r (x : Qc) : mul x (of_Z 0) = of_Z 0.
Proof. simpl. apply Qcanon.Qcmult_0_r. Qed.

Lemma Qc_exact_normalisation : exact_normalisation Qc.
Proof.
  split.
  - done.
  - intros x y z. simpl. unfold Qcanon.Qcdiv. apply Qcanon.Qcmult_plus_distr_l.
  - intros z. simpl. unfold Qcanon.Qcdiv. apply Qcanon.Qcmult_0_l.
  - intros z Hz%Qc_eqb_false. by apply Qcanon.Qcmult_inv_r.
  - intros x y z. apply Qcanon.Qcmult_plus_distr_l.
  - intros z. apply Qcanon.Qcmult_0_l.
  - intros z. apply Qcanon.Qcmult_1_l.
Qed.
End exact_more.

Section examples_more.
Import Exact Line ExactSetup.

Lemma compute_as_if_amputated_footprint_witness :
  compute_as_if_amputated [1%nat] idle
    = (Return (), (compute_as_if_amputated [1%nat] idle).2) ∧
  ∃ staged se f,
    (compute_as_if_amputated [1%nat] idle).2
    = mkState (engine idle) (cfg idle)
        (mkConstraint (data (self idle)) (originalData (self idle)) None None
           (standardError (self idle)) (afterMoveStandardError (self idle))
           (Some staged) (Some se) (scaleFactor (self idle)) (Some f)
           (adjustScaleFactorFrequency (self idle)) (weightingScheme (self idle))).
Proof.
  assert (compute_as_if_amputated [1%nat] idle
          = (Return (), (compute_as_if_amputated [1%nat] idle).2)) as H1
    by (apply (run_Return (compute_as_if_amputated [1%nat]) idle ());
        vm_compute; reflexivity).
  split; [exact H1|].
  exact (compute_as_if_amputated_footprint _ _ _ H1).
Defined.

Lemma accept_amputation_commits_witness :
  compute_as_if_amputated [1%nat] idle
    = (Return (), (compute_as_if_amputated [1%nat] idle).2) ∧
  ∃ d b reduced ws se f,
    data (self idle) = Some d ∧
    delta_at [1%nat] (boxCoordinates (engine idle)) idle = Return b ∧
    hist_sub d b = Return reduced ∧
    amputationData (self (compute_as_if_amputated [1%nat] idle).2)
      = Some (reduced, ws) ∧
    amputationStandardError (self (compute_as_if_amputated [1%nat] idle).2)
      = Some se ∧
    _fittedScaleFactor (self (compute_as_if_amputated [1%nat] idle).2) = Some f ∧
    accept_amputation (compute_as_if_amputated [1%nat] idle).2 =
      (Return (),
       mkState (engine idle) (cfg idle)
         (mkConstraint (Some reduced) (originalData (self idle)) None None (Some se)
            (afterMoveStandardError (self idle)) None None f (Some f)
            (adjustScaleFactorFrequency (self idle)) ws)).
Proof.
  assert (compute_as_if_amputated [1%nat] idle
          = (Return (), (compute_as_if_amputated [1%nat] idle).2)) as H1
    by (apply (run_Return (compute_as_if_amputated [1%nat]) idle ());
        vm_compute; reflexivity).
  split; [exact H1|].
  exact (accept_amputation_commits _ _ _ H1).
Defined.

Lemma commit_without_stage_witness :
  accept_move idle = (Raise TypeError, idle) ∧
  accept_amputation idle = (Raise TypeError, idle).
Proof.
  destruct (commit_without_stage idle) as (H1 & _ & H3).
  split; [apply H1; right; vm_compute; reflexivity|apply H3; vm_compute; reflexivity].
Defined.

Lemma null_move_is_neutral_witness :
  compute_before_move [1%nat] idle = (Return (), begun) ∧
  gather (boxCoordinates (engine idle)) [1%nat] = Return [Some 1%Z] ∧
  compute_after_move [1%nat] [Some 1%Z] begun
    = (Return (), (compute_after_move [1%nat] [Some 1%Z] begun).2) ∧
  activeAtomsDataAfterMove (self (compute_after_move [1%nat] [Some 1%Z] begun).2)
    = activeAtomsDataBeforeMove (self (compute_after_move [1%nat] [Some 1%Z] begun).2) ∧
  ∃ s3, accept_move (compute_after_move [1%nat] [Some 1%Z] begun).2 = (Return (), s3) ∧
        data (self s3) = data (self idle).
Proof.
  assert (compute_before_move [1%nat] idle = (Return (), begun)) as H1
    by (apply (run_Return (compute_before_move [1%nat]) idle ());
        vm_compute; reflexivity).
  assert (gather (boxCoordinates (engine idle)) [1%nat] = Return [Some 1%Z]) as H2
    by (vm_compute; reflexivity).
  assert (compute_after_move [1%nat] [Some 1%Z] begun
          = (Return (), (compute_after_move [1%nat] [Some 1%Z] begun).2)) as H3
    by (apply (run_Return (compute_after_move [1%nat] [Some 1%Z]) begun ());
        vm_compute; reflexivity).
  split; [exact H1|]. split; [exact H2|]. split; [exact H3|].
  exact (null_move_is_neutral _ _ _ _ _ Qc_sub_add H1 H2 H3).
Defined.

Lemma compute_after_move_needs_begin_witness :
  activeAtomsDataBeforeMove (self idle) = None ∧
  let r := compute_after_move [1%nat] [Some 2%Z] idle in
  (∃ e, r.1 = Raise e) ∧
  data (self r.2) = data (self idle) ∧
  standardError (self r.2) = standardError (self idle) ∧
  afterMoveStandardError (self r.2) = afterMoveStandardError (self idle) ∧
  ∀ store' a,
    scatter (boxCoordinates (engine idle)) [1%nat] [Some 2%Z] = Return store' →
    delta_at [1%nat] store' idle = Return a →
    r.1 = Raise TypeError ∧
    activeAtomsDataAfterMove (self r.2) = Some a ∧
    boxCoordinates (engine r.2) = boxCoordinates (engine idle).
Proof.
  split; [vm_compute; reflexivity|].
  apply (compute_after_move_needs_begin [1%nat] [Some 2%Z] idle).
  vm_compute; reflexivity.
Defined.
End examples_more.

Section examples_data.
Import Exact Line ExactSetup.

Lemma compute_data_idle :
  compute_data (state0 PairDistributionConstraint None (frac 1 1) 0) = (Return (), idle).
Proof.
  apply (run_Return compute_data (state0 PairDistributionConstraint None (frac 1 1) 0) ()).
  vm_compute; reflexivity.
Qed.

Lemma compute_data_snapshot_witness :
  let before : M Qc coord () := set_data None;; _set_original_data None in
  ∃ s', (before;; compute_data) idle = (Return (), s') ∧
  ∃ i e total se,
    full_pairs_histograms_coords (boxCoordinates (engine s')) (basisVectors (engine s'))
      (isPBC (engine s')) (moleculesIndex (engine s')) (elementsIndex (engine s'))
      (numberOfElements (engine s')) (minimumDistance (cfg s')) (maximumDistance (cfg s'))
      (histogramSize (cfg s')) (bin (cfg s')) (_runtime_ncores (engine s'))
      = Return (i, e) ∧
    data (self s') = Some (mkHist i e) ∧
    (get_total (mkHist i e) (numberDensity (engine s')) s').1 = Return total ∧
    compute_standard_error s' total = Return se ∧
    standardError (self s') = Some se ∧
    activeAtomsDataBeforeMove (self s') = None ∧
    activeAtomsDataAfterMove (self s') = None ∧
    is_Some (originalData (self s')).
Proof.
  intros before.
  assert ((before;; compute_data) idle
          = (Return (), ((before;; compute_data) idle).2)) as Hm
    by (apply (run_Return (before;; compute_data) idle ()); vm_compute; reflexivity).
  exists ((before;; compute_data) idle).2. split; [exact Hm|].
  exact (compute_data_snapshot before idle _ Hm).
Defined.

Lemma original_value_after_first_compute_data_witness :
  originalData (self (state0 PairDistributionConstraint None (frac 1 1) 0)) = None ∧
  compute_data (state0 PairDistributionConstraint None (frac 1 1) 0) = (Return (), idle) ∧
  originalData (self idle) = data (self idle) ∧
  get_constraint_original_value idle = get_constraint_value idle.
Proof.
  split; [reflexivity|]. split; [exact compute_data_idle|].
  exact (original_value_after_first_compute_data
           (state0 PairDistributionConstraint None (frac 1 1) 0) idle eq_refl
           compute_data_idle).
Defined.

Lemma originalData_frozen_witness :
  ComputeData ∉ calls ∧
  is_Some (originalData (self idle)) ∧
  originalData (self (session calls idle)) = originalData (self idle).
Proof.
  assert (ComputeData ∉ calls) as Hc.
  { unfold calls. intros Hc.
    repeat (apply elem_of_cons in Hc as [Hc|Hc]; [discriminate Hc|]).
    by apply elem_of_nil in Hc. }
  split; [exact Hc|]. split; [vm_compute; eauto|].
  exact (originalData_frozen calls idle Hc).
Defined.

Lemma reset_standard_error_agrees_witness :
  kind (cfg (state0 PairDistributionConstraint None (frac 1 1) 0))
    = PairDistributionConstraint ∧
  compute_data (state0 PairDistributionConstraint None (frac 1 1) 0) = (Return (), idle) ∧
  ∃ s'', _reset_standard_error idle = (Return (), s'') ∧
         standardError (self s'') = standardError (self idle) ∧
         data (self s'') = data (self idle).
Proof.
  split; [reflexivity|]. split; [exact compute_data_idle|].
  exact (reset_standard_error_agrees
           (state0 PairDistributionConstraint None (frac 1 1) 0) idle eq_refl
           compute_data_idle).
Defined.

Lemma compute_after_move_staged :
  compute_after_move [1%nat] [Some 2%Z] begun = (Return (), staged).
Proof.
  apply (run_Return (compute_after_move [1%nat] [Some 2%Z]) begun ()).
  vm_compute; reflexivity.
Qed.

Lemma compute_before_move_begun :
  compute_before_move [1%nat] idle = (Return (), begun).
Proof.
  apply (run_Return (compute_before_move [1%nat]) idle ()).
  vm_compute; reflexivity.
Qed.

Lemma accept_move_commits_standard_error_witness :
  compute_after_move [1%nat] [Some 2%Z] begun = (Return (), staged) ∧
  ∃ d b a h total se f,
    data (self begun) = Some d ∧
    activeAtomsDataBeforeMove (self begun) = Some b ∧
    activeAtomsDataAfterMove (self staged) = Some a ∧
    hist_minus_plus d b a = Return h ∧
    (get_total h (numberDensity (engine begun)) begun).1 = Return total ∧
    compute_standard_error begun total = Return se ∧
    afterMoveStandardError (self staged) = Some se ∧
    _fittedScaleFactor (self staged) = Some f ∧
    accept_move staged =
      (Return (),
       mkState (engine begun) (cfg begun)
         (mkConstraint (Some h) (originalData (self begun)) None None (Some se) None
            (amputationData (self begun)) (amputationStandardError (self begun)) f
            (Some f) (adjustScaleFactorFrequency (self begun))
            (weightingScheme (self begun)))).
Proof.
  split; [exact compute_after_move_staged|].
  exact (accept_move_commits_standard_error _ _ _ _ compute_after_move_staged).
Defined.

Lemma reject_move_rolls_back_witness :
  activeAtomsDataBeforeMove (self idle) = None ∧
  activeAtomsDataAfterMove (self idle) = None ∧
  afterMoveStandardError (self idle) = None ∧
  compute_before_move [1%nat] idle = (Return (), begun) ∧
  compute_after_move [1%nat] [Some 2%Z] begun = (Return (), staged) ∧
  ∃ f, reject_move staged = (Return (), (assign_fittedScaleFactor (Some f) idle).2).
Proof.
  assert (activeAtomsDataBeforeMove (self idle) = None) as Hb by (vm_compute; reflexivity).
  assert (activeAtomsDataAfterMove (self idle) = None) as Ha by (vm_compute; reflexivity).
  assert (afterMoveStandardError (self idle) = None) as Hse by (vm_compute; reflexivity).
  split; [exact Hb|]. split; [exact Ha|]. split; [exact Hse|].
  split; [exact compute_before_move_begun|]. split; [exact compute_after_move_staged|].
  exact (reject_move_rolls_back _ _ _ _ _ Hb Ha Hse compute_before_move_begun
           compute_after_move_staged).
Defined.
End examples_data.

Section examples_setup.
Import Exact Line ExactSetup.

Lemma window_longer_than_data_witness :
  windowFunction
    (cfg (state0 PairDistributionConstraint (Some long_window) (frac 1 1) 0))
    = Some long_window ∧
  (1 < length (experimentalY
                 (cfg (state0 PairDistributionConstraint (Some long_window)
                         (frac 1 1) 0)))
     < length long_window)%nat ∧
  ∃ e, (compute_data
          (state0 PairDistributionConstraint (Some long_window) (frac 1 1) 0)).1
       = Raise e.
Proof.
  assert (1 < length (experimentalY
                        (cfg (state0 PairDistributionConstraint (Some long_window)
                                (frac 1 1) 0)))
            < length long_window)%nat as Hlen
    by (simpl; lia).
  split; [reflexivity|]. split; [exact Hlen|].
  exact (window_longer_than_data
           (state0 PairDistributionConstraint (Some long_window) (frac 1 1) 0)
           long_window eq_refl Hlen).
Defined.

Lemma compute_standard_error_perfect_fit_witness :
  compute_standard_error idle (experimentalY (cfg idle)) = Return (of_Z 0).
Proof.
  apply (compute_standard_error_perfect_fit idle Qc_sub_diag Qc_mul_0_r).
  - apply Qcanon.Qcplus_0_l.
  - vm_compute. exact I.
Defined.

Lemma get_constraint_value_keys_witness :
  ∃ d output,
    data (self idle) = Some d ∧
    _get_constraint_value idle d = Return output ∧
    dom output =
      match kind (cfg idle) with
      | PairDistributionConstraint =>
          list_to_set (partial_keys "rdf" (elementsPairs (cfg idle)))
            ∪ {[ "pdf_total"; "pdf" ]}
      | _ =>
          list_to_set (partial_keys "sf" (elementsPairs (cfg idle)))
            ∪ {[ "sf_total"; "sf" ]}
      end.
Proof.
  destruct (data (self idle)) as [d|] eqn:Hd; [|vm_compute in Hd; discriminate].
  destruct (_get_constraint_value idle d) as [output|err] eqn:Ho.
  - exists d, output. split; [reflexivity|]. split; [exact Ho|].
    exact (get_constraint_value_keys idle d output Ho).
  - vm_compute in Hd. injection Hd as <-. vm_compute in Ho. discriminate.
Defined.

Lemma elements_pairs_cover_witness :
  NoDup ["A"; "B"] ∧
  elements_pairs ["A"; "B"] ≡ₚ combinations_with_replacement_2 ["A"; "B"] ∧
  Sorted.Sorted tuple_le (elements_pairs ["A"; "B"]) ∧
  NoDup (elements_pairs ["A"; "B"]) ∧
  (2 * length (elements_pairs ["A"; "B"])
   = length ["A"; "B"] * (length ["A"; "B"] + 1))%nat ∧
  (∀ a b, (a, b) ∈ elements_pairs ["A"; "B"] → a ∈ ["A"; "B"] ∧ b ∈ ["A"; "B"]) ∧
  (∀ a b, a ∈ ["A"; "B"] → b ∈ ["A"; "B"] →
          (a, b) ∈ elements_pairs ["A"; "B"] ∨ (b, a) ∈ elements_pairs ["A"; "B"]) ∧
  (∀ a b, a ≠ b → (a, b) ∈ elements_pairs ["A"; "B"] →
          (b, a) ∉ elements_pairs ["A"; "B"]).
Proof.
  assert (NoDup ["A"; "B"]) as Hnd.
  { apply NoDup_cons. split; [|apply NoDup_singleton].
    intros Hin%list_elem_of_singleton. discriminate. }
  split; [exact Hnd|].
  exact (elements_pairs_cover ["A"; "B"] Hnd).
Defined.

Lemma set_window_function_normalises_witness :
  (set_window_function 4 (Some [frac 1 1; frac 2 1; frac 1 1]) = AssertionError
   ↔ (4 < length [frac 1 1; frac 2 1; frac 1 1])%nat) ∧
  ∀ w', set_window_function 4 (Some [frac 1 1; frac 2 1; frac 1 1]) = Done w' →
        ∃ normalised, w' = Some normalised ∧
          length normalised = length [frac 1 1; frac 2 1; frac 1 1] ∧
          (eqb (vsum [frac 1 1; frac 2 1; frac 1 1]) (of_Z 0) = false →
           vsum normalised = of_Z 1).
Proof.
  exact (set_window_function_normalises 4 [frac 1 1; frac 2 1; frac 1 1]
           Qc_exact_normalisation).
Defined.

Lemma set_used_data_weights_normalises_witness :
  ∃ used,
    set_used_data_weights (Some weights) 4 (Some 1%nat) (Some 2%nat) = Done used ∧
    ∃ u, used = Some u ∧
         length u = length (slice weights (default 0%nat (Some 1%nat))
                              (default 4%nat (Some 2%nat) + 1)) ∧
         vsum u = of_Z (Z.of_nat (length u)).
Proof.
  destruct (set_used_data_weights (Some weights) 4 (Some 1%nat) (Some 2%nat))
    as [used| |err] eqn:Hu; [|vm_compute in Hu; discriminate..].
  exists used. split; [reflexivity|].
  exact (set_used_data_weights_normalises weights 4 (Some 1%nat) (Some 2%nat) used
           Qc_exact_normalisation Hu).
Defined.

Lemma set_limits_shapes_witness :
  ∃ c',
    set_limits table (Some weights) (Some [Some (frac 1 1); Some (frac 3 1)])
      (config0 PairDistributionConstraint None) = Done c' ∧
    length weights = length table ∧
    (histogramSize c' ≤ length table)%nat ∧
    length (shellCenters c') = histogramSize c' ∧
    length (shellVolumes c') = histogramSize c' ∧
    length (experimentalY c') = histogramSize c' ∧
    match Some weights, _usedDataWeights c' with
    | Some _, Some u => length u = histogramSize c'
    | None, None => True
    | _, _ => False
    end ∧
    ∀ (s : State Qc coord) (modelData : list Qc),
      cfg s = c' → length modelData = histogramSize c' →
      ∃ se, compute_standard_error s modelData = Return se.
Proof.
  destruct (set_limits table (Some weights) (Some [Some (frac 1 1); Some (frac 3 1)])
              (config0 PairDistributionConstraint None))
    as [c'| |err] eqn:Hc; [|vm_compute in Hc; discriminate..].
  exists c'. split; [reflexivity|]. split; [reflexivity|].
  exact (set_limits_shapes (coord:=coord) table (Some weights)
           (Some [Some (frac 1 1); Some (frac 3 1)])
           (config0 PairDistributionConstraint None) c' Hc eq_refl).
Defined.

Lemma check_experimental_data_short_witness :
  (length [(frac 1 2, frac 0 1)] < 2)%nat ∧
  match PDF_check_experimental_data [(frac 1 2, frac 0 1)] with
  | Return (ok, _) => ok = false
  | Raise e => e = IndexError
  end ∧
  ([(frac 1 2, frac 0 1)] = [] →
     PDF_check_experimental_data [(frac 1 2, frac 0 1)] = Raise IndexError ∧
     SF_check_experimental_data [(frac 1 2, frac 0 1)] = Raise IndexError).
Proof.
  assert (length [(frac 1 2, frac 0 1)] < 2)%nat as Hlen by (simpl; lia).
  split; [exact Hlen|].
  exact (check_experimental_data_short [(frac 1 2, frac 0 1)] Hlen).
Defined.

Lemma check_experimental_data_accepted_witness :
  PDF_check_experimental_data table = Return (true, "") ∧
  "" = "" ∧
  SF_check_experimental_data table = Return (true, "") ∧
  ∃ row0 row1,
    table !! 0%nat = Some row0 ∧
    table !! 1%nat = Some row1 ∧
    ltb row0.1 (of_Z 0) = false ∧
    ∀ k a b,
      table !! k = Some a → table !! (S k) = Some b →
      ltb PRECISION (np_abs (sub (sub b.1 a.1) (sub row1.1 row0.1))) = false.
Proof.
  assert (PDF_check_experimental_data table = Return (true, "")) as Hok
    by (vm_compute; reflexivity).
  split; [exact Hok|].
  exact (check_experimental_data_accepted table "" Hok).
Defined.
End examples_setup.

Section examples_agree.
Import Exact Line ExactSetup.

Lemma partial_keys_idle : NoDup (partial_keys "rdf" (elementsPairs (cfg idle))).
Proof. apply (bool_decide_unpack _). vm_compute. reflexivity. Qed.

Lemma partial_keys_state0 :
  NoDup (partial_keys "rdf"
           (elementsPairs (cfg (state0 PairDistributionConstraint None (frac 1 1) 0)))).
Proof. apply (bool_decide_unpack _). vm_compute. reflexivity. Qed.

Lemma total_agrees_with_value_witness :
  kind (cfg idle) = PairDistributionConstraint ∧
  refit_due (adjustScaleFactorFrequency (self idle)) (generated (engine idle)) = false ∧
  NoDup (partial_keys "rdf" (elementsPairs (cfg idle))) ∧
  ∃ d total s' output,
    data (self idle) = Some d ∧
    get_total d (numberDensity (engine idle)) idle = (Return total, s') ∧
    _get_constraint_value idle d = Return output ∧
    output !! "pdf" = Some total.
Proof.
  assert (kind (cfg idle) = PairDistributionConstraint) as Hk by reflexivity.
  assert (refit_due (adjustScaleFactorFrequency (self idle)) (generated (engine idle))
          = false) as Hdue by (vm_compute; reflexivity).
  split; [exact Hk|]. split; [exact Hdue|]. split; [exact partial_keys_idle|].
  destruct (data (self idle)) as [d|] eqn:Hd; [|vm_compute in Hd; discriminate].
  destruct (get_total d (numberDensity (engine idle)) idle) as [[total|err] s'] eqn:Ht.
  - destruct (_get_constraint_value idle d) as [output|err] eqn:Hv.
    + exists d, total, s', output. split; [reflexivity|]. split; [exact Ht|].
      split; [exact Hv|].
      exact (total_agrees_with_value idle d total s' output Hk Hdue partial_keys_idle
               Ht Hv).
    + vm_compute in Hd. injection Hd as <-. vm_compute in Hv. discriminate.
  - vm_compute in Hd. injection Hd as <-. vm_compute in Ht. discriminate.
Defined.

Lemma standard_error_paths_agree_witness :
  kind (cfg (state0 PairDistributionConstraint None (frac 1 1) 0))
    = PairDistributionConstraint ∧
  windowFunction (cfg (state0 PairDistributionConstraint None (frac 1 1) 0)) = None ∧
  refit_due
    (adjustScaleFactorFrequency (self (state0 PairDistributionConstraint None (frac 1 1) 0)))
    (generated (engine (state0 PairDistributionConstraint None (frac 1 1) 0))) = false ∧
  NoDup (partial_keys "rdf"
           (elementsPairs (cfg (state0 PairDistributionConstraint None (frac 1 1) 0)))) ∧
  compute_data (state0 PairDistributionConstraint None (frac 1 1) 0) = (Return (), idle) ∧
  standardError (self (compute_and_set_standard_error idle).2)
    = standardError (self idle).
Proof.
  split; [reflexivity|]. split; [reflexivity|]. split; [reflexivity|].
  split; [exact partial_keys_state0|]. split; [exact compute_data_idle|].
  exact (standard_error_paths_agree
           (state0 PairDistributionConstraint None (frac 1 1) 0) idle
           eq_refl eq_refl eq_refl partial_keys_state0 compute_data_idle).
Defined.

Lemma partial_keys_sf :
  NoDup (partial_keys "sf"
           (elementsPairs (cfg (unwindowed StructureFactorConstraint)))).
Proof. apply (bool_decide_unpack _). vm_compute. reflexivity. Qed.

Lemma structure_factor_agrees_with_value_witness :
  kind (cfg (unwindowed StructureFactorConstraint)) ≠ PairDistributionConstraint ∧
  refit_due (adjustScaleFactorFrequency (self (unwindowed StructureFactorConstraint)))
    (generated (engine (unwindowed StructureFactorConstraint))) = false ∧
  NoDup (partial_keys "sf"
           (elementsPairs (cfg (unwindowed StructureFactorConstraint)))) ∧
  ∃ d total s' output,
    data (self (unwindowed StructureFactorConstraint)) = Some d ∧
    get_total d
      (div (of_Z (numberOfAtoms (engine (unwindowed StructureFactorConstraint))))
           (volume (engine (unwindowed StructureFactorConstraint))))
      (unwindowed StructureFactorConstraint) = (Return total, s') ∧
    _get_constraint_value (unwindowed StructureFactorConstraint) d = Return output ∧
    output !! "sf" = Some total.
Proof.
  assert (kind (cfg (unwindowed StructureFactorConstraint))
          ≠ PairDistributionConstraint) as Hk
    by (intros Heq; vm_compute in Heq; discriminate).
  assert (refit_due
            (adjustScaleFactorFrequency (self (unwindowed StructureFactorConstraint)))
            (generated (engine (unwindowed StructureFactorConstraint))) = false)
    as Hdue by (vm_compute; reflexivity).
  split; [exact Hk|]. split; [exact Hdue|]. split; [exact partial_keys_sf|].
  destruct (data (self (unwindowed StructureFactorConstraint))) as [d|] eqn:Hd;
    [|vm_compute in Hd; discriminate].
  destruct (get_total d
              (div (of_Z (numberOfAtoms (engine (unwindowed StructureFactorConstraint))))
                   (volume (engine (unwindowed StructureFactorConstraint))))
              (unwindowed StructureFactorConstraint)) as [[total|err] s'] eqn:Ht.
  - destruct (_get_constraint_value (unwindowed StructureFactorConstraint) d)
      as [output|err] eqn:Hv.
    + exists d, total, s', output. split; [reflexivity|]. split; [exact Ht|].
      split; [exact Hv|].
      exact (structure_factor_agrees_with_value
               (unwindowed StructureFactorConstraint) d total s' output Hk Hdue
               partial_keys_sf Ht Hv).
    + vm_compute in Hd. injection Hd as <-. vm_compute in Hv. discriminate.
  - vm_compute in Hd. injection Hd as <-. vm_compute in Ht. discriminate.
Defined.
End examples_agree.
